(** * Campus Flow registry: validation, search, persistence and balance

    A shallow embedding of the registry core of the Campus Flow
    application (validators.js, search.js, storage.js, helpers.js and the
    save handler of main.js) together with the properties of its
    specification.

    JavaScript strings are modelled as [string], read as sequences of
    code units in the Latin-1 range; JSON text and the strings it denotes
    are sequences of code units of any size ([text]); numbers are IEEE
    754 binary64 values ([spec_float] at precision 53); objects of a fixed
    shape are records whose optional properties are [option]s. *)

From Stdlib Require Import ZArith Lia Bool List Ascii String SpecFloat.
From stdpp Require Import base option list gmap strings.

Local Open Scope string_scope.
Local Open Scope list_scope.
Local Open Scope Z_scope.

(** ** Strings as sequences of code units *)

Module JsString.

Definition code (c : ascii) : N := N_of_ascii c.

(** WhiteSpace and LineTerminator code points below 256: TAB, LF, VT, FF,
    CR, SP and NBSP.  [String.prototype.trim] and the class escape [\s]
    use the same set. *)
Definition isSpace (c : ascii) : bool :=
  let n := code c in
  ((9 <=? n) && (n <=? 13) || (n =? 32) || (n =? 160))%N.

(** LineTerminator: LF and CR (the other two are outside Latin-1). *)
Definition isLineTerminator (c : ascii) : bool :=
  let n := code c in ((n =? 10) || (n =? 13))%N.

(** The class escape [\w]: ASCII letters, digits and the underscore. *)
Definition isWordChar (c : ascii) : bool :=
  let n := code c in
  ((48 <=? n) && (n <=? 57) || (65 <=? n) && (n <=? 90)
   || (n =? 95) || (97 <=? n) && (n <=? 122))%N.

Definition isDigit (c : ascii) : bool :=
  let n := code c in ((48 <=? n) && (n <=? 57))%N.

Definition chars (s : string) : list ascii := list_ascii_of_string s.
Definition ofChars (l : list ascii) : string := string_of_list_ascii l.

(** A text that holds any code unit: its UTF-16 code units, as numbers.
    The strings of this model hold the code units below 256; [units] is
    such a string as a text. *)
Definition text : Type := list N.
Definition wide (l : list ascii) : text := map code l.
Definition units (s : string) : text := wide (chars s).

Fixpoint dropSpaces (l : list ascii) : list ascii :=
  match l with
  | c :: l' => if isSpace c then dropSpaces l' else l
  | [] => []
  end.

(** [String.prototype.trim] on the list of code units. *)
Definition trimChars (l : list ascii) : list ascii :=
  rev (dropSpaces (rev (dropSpaces l))).

Definition trim (s : string) : string := ofChars (trimChars (chars s)).

Definition isEmpty (s : string) : bool :=
  match s with EmptyString => true | _ => false end.

(** Truthiness of a possibly undefined string property. *)
Definition truthy (o : option string) : bool :=
  match o with Some s => negb (isEmpty s) | None => false end.

(** [a || b] on possibly undefined string properties. *)
Definition orElse (a b : option string) : option string :=
  if truthy a then a else b.

(** [s.split(sep)] for a separator of one code unit. *)
Fixpoint splitChars (sep : ascii) (field t : list ascii) : list (list ascii) :=
  match t with
  | [] => [rev field]
  | c :: t' =>
      if Ascii.eqb c sep then rev field :: splitChars sep [] t'
      else splitChars sep (c :: field) t'
  end.

Definition split (sep : ascii) (s : string) : list string :=
  map ofChars (splitChars sep [] (chars s)).

(** [s.padStart(n, fill)] for a filler of one code unit. *)
Definition padStart (n : nat) (fill : ascii) (s : string) : string :=
  ofChars (repeat fill (n - length (chars s)) ++ chars s).

End JsString.

(** ** Regular expressions

    The patterns of the program are kept as syntax trees and run by a
    backtracking matcher in continuation-passing style, the way the
    language definition compiles a pattern: a matcher takes the current
    state and a continuation, and alternatives are tried left to right. *)

Module Regex.
Import JsString.

Inductive regex : Type :=
| Empty
| Char (c : ascii)
| Class (p : ascii -> bool)
| Seq (r1 r2 : regex)
| Alt (r1 r2 : regex)
| Star (r : regex)
| Group (i : nat) (r : regex)
| Backref (i : nat)
| Bol
| Eol
| WordB.

Definition Plus (r : regex) : regex := Seq r (Star r).
Definition Opt (r : regex) : regex := Alt r Empty.
Fixpoint Lit (l : list ascii) : regex :=
  match l with
  | [] => Empty
  | [c] => Char c
  | c :: l' => Seq (Char c) (Lit l')
  end.

(** The state of a match: the code unit before the current position,
    the input still to be read, and the captures made so far. *)
Record mstate : Type := MState {
  prev : option ascii;
  rest : list ascii;
  caps : list (nat * list ascii)
}.

Definition cont : Type := mstate -> option mstate.

(** Canonicalize of a pattern compiled without the unicode flag: the
    upper-case form of the code unit when that is a single code unit,
    except that a non-ASCII unit never maps to an ASCII one. *)
Definition Canonicalize (ignoreCase : bool) (c : ascii) : N :=
  let n := code c in
  if negb ignoreCase then n
  else if ((97 <=? n) && (n <=? 122))%N then (n - 32)%N
  else if (n =? 181)%N then 924%N
  else if (n =? 255)%N then 376%N
  else if ((224 <=? n) && (n <=? 254) && negb (n =? 247))%N then (n - 32)%N
  else n.

Definition allChars : list ascii :=
  map (fun n => ascii_of_nat n) (seq 0 256).

(** CharacterSetMatcher: with ignoreCase a code unit is accepted when
    some member of the set has the same canonical form. *)
Definition inClass (ignoreCase : bool) (p : ascii -> bool) (c : ascii) : bool :=
  if ignoreCase
  then existsb (fun a => p a && (Canonicalize true a =? Canonicalize true c)%N) allChars
  else p c.

Definition step (x : mstate) (p : ascii -> bool) (k : cont) : option mstate :=
  match rest x with
  | c :: l => if p c then k (MState (Some c) l (caps x)) else None
  | [] => None
  end.

Fixpoint lookupCap (i : nat) (cs : list (nat * list ascii)) : option (list ascii) :=
  match cs with
  | (j, v) :: cs' => if Nat.eqb i j then Some v else lookupCap i cs'
  | [] => None
  end.

(** BackreferenceMatcher: the captured text must occur again at the
    current position, code unit by code unit up to canonical form. *)
Fixpoint matchCaptured (ignoreCase : bool) (v : list ascii) (x : mstate) : option mstate :=
  match v with
  | [] => Some x
  | a :: v' =>
      match rest x with
      | c :: l =>
          if (Canonicalize ignoreCase a =? Canonicalize ignoreCase c)%N
          then matchCaptured ignoreCase v' (MState (Some c) l (caps x))
          else None
      | [] => None
      end
  end.

Definition isWordAt (o : option ascii) : bool :=
  match o with Some c => isWordChar c | None => false end.

(** RepeatMatcher for a greedy star: one more round of [body] is tried
    before the continuation, and a round that reads nothing is refused.
    Every round reads at least one code unit, so the length of the input
    bounds their number. *)
Fixpoint starLoop (body : mstate -> cont -> option mstate) (k : cont)
    (fuel : nat) (x : mstate) {struct fuel} : option mstate :=
  match fuel with
  | O => k x
  | S fuel' =>
      match body x (fun y => if (length (rest y) <? length (rest x))%nat
                             then starLoop body k fuel' y else None) with
      | Some z => Some z
      | None => k x
      end
  end.

Fixpoint m (ignoreCase : bool) (r : regex) (x : mstate) (k : cont) {struct r}
  : option mstate :=
  match r with
  | Empty => k x
  | Char a =>
      step x (fun c => (Canonicalize ignoreCase a =? Canonicalize ignoreCase c)%N) k
  | Class p => step x (inClass ignoreCase p) k
  | Seq r1 r2 => m ignoreCase r1 x (fun y => m ignoreCase r2 y k)
  | Alt r1 r2 =>
      match m ignoreCase r1 x k with
      | Some z => Some z
      | None => m ignoreCase r2 x k
      end
  | Star r1 => starLoop (m ignoreCase r1) k (length (rest x)) x
  | Group i r1 =>
      m ignoreCase r1 x
        (fun y =>
           let n := (length (rest x) - length (rest y))%nat in
           k (MState (prev y) (rest y) ((i, firstn n (rest x)) :: caps y)))
  | Backref i =>
      match lookupCap i (caps x) with
      | None => k x
      | Some v =>
          match matchCaptured ignoreCase v x with
          | Some y => k y
          | None => None
          end
      end
  | Bol => match prev x with None => k x | Some _ => None end
  | Eol => match rest x with [] => k x | _ :: _ => None end
  | WordB =>
      if xorb (isWordAt (prev x)) (isWordAt (head (rest x))) then k x else None
  end.

(** The code unit before the position reached by reading [l]. *)
Definition lastOr (o : option ascii) (l : list ascii) : option ascii :=
  fold_left (fun _ c => Some c) l o.

(** A compiled pattern that is neither global nor sticky: [test] tries
    the match at every start index, from the left. *)
Record pattern : Type := Pattern { source : regex; ignoreCase : bool }.

Fixpoint searchFrom (p : pattern) (before : option ascii) (l : list ascii) : bool :=
  match m (ignoreCase p) (source p) (MState before l []) Some with
  | Some _ => true
  | None =>
      match l with
      | c :: l' => searchFrom p (Some c) l'
      | [] => false
      end
  end.

Definition test (p : pattern) (s : string) : bool := searchFrom p None (chars s).

End Regex.

(** ** Numbers

    A Number is a binary64 value.  Arithmetic is that of [SpecFloat] at
    precision 53; the conversions between decimal text and numbers round
    to nearest, ties to even, as StringToNumber and Number::toString
    prescribe. *)

Module JsNumber.
Import JsString.

Definition number : Type := spec_float.

Definition prec : Z := 53.
Definition emax : Z := 1024.

Definition NaN : number := S754_nan.
Definition add : number -> number -> number := SFadd prec emax.
Definition mul : number -> number -> number := SFmul prec emax.
Definition div : number -> number -> number := SFdiv prec emax.

(** ToBoolean of a number: false exactly on the zeros and NaN. *)
Definition truthy (x : number) : bool :=
  match x with
  | S754_zero _ | S754_nan => false
  | _ => true
  end.

(** [x || y] on numbers. *)
Definition orElse (x y : number) : number := if truthy x then x else y.

(** *** Rounding a non-negative rational to the nearest number *)

Definition roundHalfEven (p q : Z) : Z :=
  let d := p / q in
  match (2 * (p mod q)) ?= q with
  | Lt => d
  | Gt => d + 1
  | Eq => if Z.even d then d else d + 1
  end.

(** The fraction [a / b] multiplied by [base^e]. *)
Definition shift (base a b e : Z) : Z * Z :=
  (a * base ^ Z.max 0 e, b * base ^ Z.max 0 (- e)).

(** [a / b] scaled by [2^-e], as a fraction. *)
Definition scaled (a b e : Z) : Z * Z := shift 2 a b (- e).

(** The exponent [l] with [2^l <= a/b < 2^(l+1)], for positive [a], [b]. *)
Definition floorLog2 (a b : Z) : Z :=
  let l := Z.log2 a - Z.log2 b in
  let (p, q) := scaled a b l in
  if q <=? p then l else l - 1.

Definition roundRatio (neg : bool) (a b : Z) : number :=
  if a <=? 0 then S754_zero neg
  else
    let e := Z.max (floorLog2 a b - 52) (-1074) in
    let (p, q) := scaled a b e in
    let m0 := roundHalfEven p q in
    let (m1, e1) := if m0 =? 2 ^ 53 then (2 ^ 52, e + 1) else (m0, e) in
    match m1 with
    | Zpos mp => if e1 <=? 971 then S754_finite neg mp e1 else S754_infinity neg
    | _ => S754_zero neg
    end.

(** The number nearest to [s * 10^e10]. *)
Definition ofDecimal (neg : bool) (s e10 : Z) : number :=
  let (a, b) := shift 10 s 1 e10 in roundRatio neg a b.

Definition ofZ (z : Z) : number := ofDecimal (z <? 0) (Z.abs z) 0.

(** The value of a finite positive number [m * 2^e] as a fraction. *)
Definition fraction (mp : positive) (e : Z) : Z * Z := shift 2 (Zpos mp) 1 e.

(** *** Number::toString *)

Fixpoint countDigits (fuel : nat) (z : Z) : Z :=
  match fuel with
  | O => 0
  | S fuel' => if z <? 10 then 1 else 1 + countDigits fuel' (z / 10)
  end.

(** The number of decimal digits of a natural number; it has no more
    decimal digits than binary ones. *)
Definition numDigits (z : Z) : Z := countDigits (S (Z.to_nat (Z.log2 z))) z.

(** The number of places by which [a / b < 1] must be shifted left to
    reach [1]. *)
Fixpoint leadingShift (fuel : nat) (a b : Z) : Z :=
  match fuel with
  | O => 0
  | S fuel' => if b <=? 10 * a then 1 else 1 + leadingShift fuel' (10 * a) b
  end.

(** The [n] with [10^(n-1) <= a/b < 10^n]. *)
Definition decimalExponent (a b : Z) : Z :=
  if b <=? a then numDigits (a / b)
  else 1 - leadingShift (S (Z.to_nat (Z.log2 b))) a b.

Definition numberEq (x y : number) : bool :=
  match x, y with
  | S754_finite s1 m1 e1, S754_finite s2 m2 e2 =>
      Bool.eqb s1 s2 && (m1 =? m2)%positive && (e1 =? e2)
  | S754_zero s1, S754_zero s2 => Bool.eqb s1 s2
  | S754_infinity s1, S754_infinity s2 => Bool.eqb s1 s2
  | S754_nan, S754_nan => true
  | _, _ => false
  end.

(** The [k]-digit candidates for [x = a / b] at decimal exponent [n]:
    the two multiples of [10^(n-k)] around [x]; one is kept when its
    nearest number is [x], the closer one (the even one on a tie) when
    both are.  The result is the digit value [s] and its exponent. *)
Definition candidate (x : number) (a b n : Z) (k : nat) : option (Z * Z) :=
  let p := n - Z.of_nat k in
  let (num, den) := shift 10 a b (- p) in
  let lo := num / den in
  let hi := lo + 1 in
  let okLo := numberEq (ofDecimal false lo p) x in
  let okHi := numberEq (ofDecimal false hi p) x in
  let pick (s : Z) :=
    if s =? 10 ^ Z.of_nat k then Some (10 ^ (Z.of_nat k - 1), n + 1) else Some (s, n) in
  match okLo, okHi with
  | true, true =>
      match (2 * (num mod den)) ?= den with
      | Lt => pick lo
      | Gt => pick hi
      | Eq => if Z.even lo then pick lo else pick hi
      end
  | true, false => pick lo
  | false, true => pick hi
  | false, false => None
  end.

(** The least [k] that has a candidate.  The search ends: the decimal
    expansion of [x] is finite, and all of its digits are a candidate. *)
Fixpoint shortest (fuel : nat) (x : number) (a b n : Z) (k : nat) : Z * Z * nat :=
  match candidate x a b n k with
  | Some (s, n') => (s, n', k)
  | None =>
      match fuel with
      | O => (fst (shift 10 a b (Z.of_nat k - n)) / snd (shift 10 a b (Z.of_nat k - n)), n, k)
      | S fuel' => shortest fuel' x a b n (S k)
      end
  end.

Definition digitChar (d : Z) : ascii := ascii_of_N (48 + Z.to_N d).

(** The [k] decimal digits of [s], most significant first. *)
Fixpoint digits (k : nat) (s : Z) : list ascii :=
  match k with
  | O => []
  | S k' => digits k' (s / 10) ++ [digitChar (s mod 10)]
  end.

(** The decimal digits of a natural number, without leading zeros. *)
Definition decimal (z : Z) : list ascii :=
  digits (Z.to_nat (numDigits z)) z.

Definition zeros (n : Z) : list ascii := repeat "0"%char (Z.to_nat n).

(** Steps 7 to 10 of Number::toString for the digits [s] ([k] of them)
    and the exponent [n]. *)
Definition render (s n : Z) (k : nat) : list ascii :=
  let ds := digits k s in
  let kz := Z.of_nat k in
  if (-6 <? n) && (n <=? 21) then
    if kz <=? n then ds ++ zeros (n - kz)
    else if 0 <? n then firstn (Z.to_nat n) ds ++ "."%char :: skipn (Z.to_nat n) ds
    else "0"%char :: "."%char :: zeros (- n) ++ ds
  else
    let sign := if 0 <=? n - 1 then "+"%char else "-"%char in
    let ex := "e"%char :: sign :: decimal (Z.abs (n - 1)) in
    match ds with
    | [d] => d :: ex
    | d :: ds' => d :: "."%char :: ds' ++ ex
    | [] => ex
    end.

Definition toChars (x : number) : list ascii :=
  match x with
  | S754_nan => chars "NaN"
  | S754_zero _ => chars "0"
  | S754_infinity neg => (if neg then ["-"%char] else []) ++ chars "Infinity"
  | S754_finite neg mp e =>
      let (a, b) := fraction mp e in
      let n0 := decimalExponent a b in
      let '(s, n, k) :=
        shortest (Z.to_nat (n0 + Z.max 0 (- e))) (S754_finite false mp e) a b n0 1 in
      (if neg then ["-"%char] else []) ++ render s n k
  end.

(** [String(x)] for a number [x]. *)
Definition toString (x : number) : string := ofChars (toChars x).

Fixpoint spanDigits (t : list ascii) : list ascii * list ascii :=
  match t with
  | c :: t' =>
      if isDigit c then let (ds, r) := spanDigits t' in (c :: ds, r) else ([], t)
  | [] => ([], [])
  end.

Definition digitVal (c : ascii) : Z := Z.of_N (code c) - 48.

(** The value of a sequence of decimal digits. *)
Definition digitsVal (ds : list ascii) : Z :=
  fold_left (fun acc c => 10 * acc + digitVal c) ds 0.

(** *** parseFloat *)

Fixpoint startsWith (word t : list ascii) : bool :=
  match word with
  | [] => true
  | w :: word' =>
      match t with
      | c :: t' => Ascii.eqb c w && startsWith word' t'
      | [] => false
      end
  end.

(** The exponent part of a decimal literal, when one is there. *)
Definition exponentPart (t : list ascii) : Z :=
  match t with
  | c :: t' =>
      if Ascii.eqb c "e"%char || Ascii.eqb c "E"%char then
        let '(neg, t'') :=
          match t' with
          | s :: t2 =>
              if Ascii.eqb s "-"%char then (true, t2)
              else if Ascii.eqb s "+"%char then (false, t2)
              else (false, t')
          | [] => (false, t')
          end in
        let ds := fst (spanDigits t'') in
        if neg then - digitsVal ds else digitsVal ds
      else 0
  | [] => 0
  end.

(** [parseFloat(s)]: the longest prefix of the trimmed text that is a
    decimal literal, or NaN when there is none. *)
Definition parseFloat (s : string) : number :=
  let t := dropSpaces (chars s) in
  let '(neg, t0) :=
    match t with
    | c :: t' =>
        if Ascii.eqb c "-"%char then (true, t')
        else if Ascii.eqb c "+"%char then (false, t')
        else (false, t)
    | [] => (false, t)
    end in
  if startsWith (chars "Infinity") t0 then S754_infinity neg
  else
    let (ip, t1) := spanDigits t0 in
    let '(fp, t2) :=
      match t1 with
      | c :: t' => if Ascii.eqb c "."%char then spanDigits t' else ([], t1)
      | [] => ([], t1)
      end in
    match ip ++ fp with
    | [] => NaN
    | ds => ofDecimal neg (digitsVal ds) (exponentPart t2 - Z.of_nat (length fp))
    end.

(** *** Number.prototype.toFixed with one fraction digit *)

Definition toFixed1 (x : number) : string :=
  match x with
  | S754_nan => "NaN"
  | S754_infinity neg => if neg then "-Infinity" else "Infinity"
  | S754_zero _ => "0.0"
  | S754_finite neg mp e =>
      let (a, b) := fraction mp e in
      if 10 ^ 21 * b <=? a then toString x
      else
        (* the integer nearest to 10 x, the larger one on a tie *)
        let n := (20 * a + b) / (2 * b) in
        let ds := decimal (n / 10) ++ ["."%char; digitChar (n mod 10)] in
        ofChars ((if neg then ["-"%char] else []) ++ ds)
  end.

(** *** Subtraction, and the functions of Math the helpers use *)

Definition sub : number -> number -> number := SFsub prec emax.

Module Math.

(** [Math.floor]: the integer below [x].  A finite number is [a / b]
    up to its sign; the integer below a positive one under 1 is the
    positive zero. *)
Definition floor (x : number) : number :=
  match x with
  | S754_finite neg mp e =>
      let (a, b) := fraction mp e in
      ofZ (if neg then - ((a + b - 1) / b) else a / b)
  | _ => x
  end.

(** [Math.round]: the integer below [x + 1/2], computed exactly; a
    result of zero keeps the sign of [x]. *)
Definition round (x : number) : number :=
  match x with
  | S754_finite neg mp e =>
      let (a, b) := fraction mp e in
      let z := if neg then - ((2 * a + b - 1) / (2 * b)) else (2 * a + b) / (2 * b) in
      if z =? 0 then S754_zero neg else ofZ z
  | _ => x
  end.

End Math.

(** [x % y]: the remainder of the division truncated toward zero, with
    the sign of the dividend; it is exact. *)
Definition rem (x y : number) : number :=
  match x, y with
  | S754_nan, _ | _, S754_nan => NaN
  | S754_infinity _, _ => NaN
  | _, S754_zero _ => NaN
  | _, S754_infinity _ => x
  | S754_zero _, _ => x
  | S754_finite neg mx ex, S754_finite _ my ey =>
      let (a, b) := fraction mx ex in
      let (c, d) := fraction my ey in
      let q := (a * d) / (b * c) in
      roundRatio neg (a * d - q * c * b) (b * d)
  end.

(** *** parseInt without a radix *)

Definition isHexDigit (c : ascii) : bool :=
  isDigit c || ((65 <=? code c) && (code c <=? 70))%N
  || ((97 <=? code c) && (code c <=? 102))%N.

Definition hexDigitVal (c : ascii) : Z :=
  if isDigit c then digitVal c
  else if (code c <=? 70)%N then Z.of_N (code c) - 55
  else Z.of_N (code c) - 87.

Fixpoint spanHex (t : list ascii) : list ascii * list ascii :=
  match t with
  | c :: t' =>
      if isHexDigit c then let (ds, r) := spanHex t' in (c :: ds, r) else ([], t)
  | [] => ([], [])
  end.

(** [parseInt(s)]: white space is skipped, then a sign, then the prefix
    [0x] or [0X] selects radix 16; the digits that follow are read and
    the rest of the text is ignored.  NaN when there is no digit. *)
Definition parseInt (s : string) : number :=
  let t := dropSpaces (chars s) in
  let '(neg, t0) :=
    match t with
    | c :: t' =>
        if Ascii.eqb c "-"%char then (true, t')
        else if Ascii.eqb c "+"%char then (false, t')
        else (false, t)
    | [] => (false, t)
    end in
  match t0 with
  | z :: x :: t1 =>
      if Ascii.eqb z "0"%char && (Ascii.eqb x "x"%char || Ascii.eqb x "X"%char) then
        match fst (spanHex t1) with
        | [] => NaN
        | ds => ofDecimal neg (fold_left (fun acc c => 16 * acc + hexDigitVal c) ds 0) 0
        end
      else
        match fst (spanDigits t0) with
        | [] => NaN
        | ds => ofDecimal neg (digitsVal ds) 0
        end
  | _ =>
      match fst (spanDigits t0) with
      | [] => NaN
      | ds => ofDecimal neg (digitsVal ds) 0
      end
  end.

End JsNumber.

(** ** Task records *)

Import JsString JsNumber.

(** A task object.  Properties that a record may lack (a seed or imported
    record, or the form's candidate before it is stored) are options;
    [None] stands for [undefined]. *)
Record Task : Type := mkTask {
  id : string;
  name : option string;
  title : option string;
  date : string;
  category : string;
  time : string;
  duration : number;
  status : string;
  urgent : bool;
  cancelReason : option string;
  notes : option string;
  createdAt : option string;
  updatedAt : option string
}.

(** An object used as an ordered mapping from property names to strings,
    in insertion order. *)
Definition dict : Type := list (string * string).

Fixpoint setProp (key value : string) (o : dict) : dict :=
  match o with
  | [] => [(key, value)]
  | (k, v) :: o' =>
      if String.eqb k key then (k, value) :: o' else (k, v) :: setProp key value o'
  end.

Fixpoint getProp (key : string) (o : dict) : option string :=
  match o with
  | [] => None
  | (k, v) :: o' => if String.eqb k key then Some v else getProp key o'
  end.

(** ** validators.js *)

Module Validators.
Import Regex.

Definition notSpace (c : ascii) : bool := negb (isSpace c).
Definition dot (c : ascii) : bool := negb (isLineTerminator c).
Definition range (lo hi : ascii) (c : ascii) : bool :=
  ((code lo <=? code c) && (code c <=? code hi))%N.

Module patterns.

(** The literal /^\S(?:.*\S)?$/. *)
Definition title : pattern :=
  Pattern
    (Seq Bol
       (Seq (Class notSpace)
          (Seq (Opt (Seq (Star (Class dot)) (Class notSpace))) Eol)))
    false.

(** The literal /^(0|[1-9]\d* )(\.(25|5|75|0|00))?$/, written here with a
    blank after the star. *)
Definition duration : pattern :=
  Pattern
    (Seq Bol
       (Seq (Group 1 (Alt (Char "0"%char) (Seq (Class (range "1"%char "9"%char)) (Star (Class isDigit)))))
          (Seq (Opt (Group 2
                       (Seq (Char "."%char)
                          (Group 3
                             (Alt (Lit (chars "25"))
                                (Alt (Char "5"%char)
                                   (Alt (Lit (chars "75"))
                                      (Alt (Char "0"%char) (Lit (chars "00"))))))))))
             Eol)))
    false.

(** The literal /^\d{4}-(0[1-9]|1[0-2])-(0[1-9]|[12]\d|3[01])$/. *)
Definition date : pattern :=
  Pattern
    (Seq Bol
       (Seq (Class isDigit) (Seq (Class isDigit) (Seq (Class isDigit) (Seq (Class isDigit)
          (Seq (Char "-"%char)
             (Seq (Group 1 (Alt (Seq (Char "0"%char) (Class (range "1"%char "9"%char)))
                                (Seq (Char "1"%char) (Class (range "0"%char "2"%char)))))
                (Seq (Char "-"%char)
                   (Seq (Group 2 (Alt (Seq (Char "0"%char) (Class (range "1"%char "9"%char)))
                                    (Alt (Seq (Class (range "1"%char "2"%char)) (Class isDigit))
                                         (Seq (Char "3"%char) (Class (range "0"%char "1"%char))))))
                      Eol)))))))))
    false.

(** The literal /\b(\w+)\s+\1\b/i. *)
Definition duplicateWords : pattern :=
  Pattern
    (Seq WordB
       (Seq (Group 1 (Plus (Class isWordChar)))
          (Seq (Plus (Class isSpace))
             (Seq (Backref 1) WordB))))
    true.

End patterns.

Definition msgTitleRequired : string := "Activity title is required.".
Definition msgTitlePadding : string := "Title cannot have leading or trailing spaces.".
Definition msgTitleDuplicate : string := "Duplicate words detected. Please refine the title.".
Definition msgDuration : string := "Duration must be in 0.25 (15 min) increments.".
Definition msgDate : string := "Please provide a valid date (YYYY-MM-DD).".
Definition msgCancelReason : string := "A justification is required for registry deviations.".

(** The three title rules on [data.name || data.title]. *)
Definition titleRule (activityTitle : option string) (errors : dict) : dict :=
  match activityTitle with
  | None => setProp "title" msgTitleRequired errors
  | Some t =>
      if isEmpty t || isEmpty (trim t) then setProp "title" msgTitleRequired errors
      else if negb (test patterns.title t) then setProp "title" msgTitlePadding errors
      else if test patterns.duplicateWords t then setProp "title" msgTitleDuplicate errors
      else errors
  end.

Definition durationRule (d : number) (errors : dict) : dict :=
  let durationStr := toString d in
  if negb (test patterns.duration durationStr)
  then setProp "duration" msgDuration errors else errors.

Definition dateRule (d : string) (errors : dict) : dict :=
  if negb (test patterns.date d) then setProp "date" msgDate errors else errors.

Definition cancelRule (st : string) (reason : option string) (errors : dict) : dict :=
  if String.eqb st "canceled" then
    if negb (JsString.truthy reason)
       || (String.length (trim (default "" reason)) <? 5)%nat
    then setProp "cancelReason" msgCancelReason errors else errors
  else errors.

Definition validateTask (data : Task) : dict :=
  let errors := [] in
  let activityTitle := JsString.orElse (name data) (title data) in
  let errors := titleRule activityTitle errors in
  let errors := durationRule (duration data) errors in
  let errors := dateRule (date data) errors in
  cancelRule (status data) (cancelReason data) errors.

End Validators.

(** ** JSON values, JSON.stringify and JSON.parse *)

Set Warnings "-register-all".

Module JSON.

(** The values JSON text denotes.  The strings of JSON text hold any
    code unit, so a string is a [text] here.  An object is the list of
    its members in the order in which the object enumerates them: the
    array indices in ascending order, then the other keys in the order in
    which they were created. *)
Inductive value : Type :=
| Null
| Bool (b : bool)
| Num (x : number)
| Str (s : text)
| Arr (items : list value)
| Obj (members : list (text * value)).

Definition dquote : ascii := "034"%char.
Definition backslash : ascii := "\"%char.
Definition newline : ascii := "010"%char.

Definition eqc (a b : ascii) : bool := Ascii.eqb a b.

(** The code unit [n] is the character [c]. *)
Definition isChar (n : N) (c : ascii) : bool := (n =? code c)%N.

(** *** Serialization *)

Definition hexDigit (n : N) : N :=
  if (n <? 10)%N then (48 + n)%N else (87 + n)%N.

(** UnicodeEscape: a backslash, [u] and four lower-case hexadecimal
    digits. *)
Definition unicodeEscape (n : N) : text :=
  [code backslash; code "u"%char; hexDigit (n / 4096); hexDigit ((n / 256) mod 16);
   hexDigit ((n / 16) mod 16); hexDigit (n mod 16)]%N.

(** QuoteJSONString on one code unit that is no surrogate. *)
Definition quoteChar (n : N) : text :=
  if (n =? 8)%N then [code backslash; code "b"%char]
  else if (n =? 9)%N then [code backslash; code "t"%char]
  else if (n =? 10)%N then [code backslash; code "n"%char]
  else if (n =? 12)%N then [code backslash; code "f"%char]
  else if (n =? 13)%N then [code backslash; code "r"%char]
  else if (n =? 34)%N then [code backslash; code dquote]
  else if (n =? 92)%N then [code backslash; code backslash]
  else if (n <? 32)%N then unicodeEscape n
  else [n].

(** Leading and trailing surrogates. *)
Definition isHigh (n : N) : bool := ((55296 <=? n) && (n <=? 56319))%N.
Definition isLow (n : N) : bool := ((56320 <=? n) && (n <=? 57343))%N.

(** QuoteJSONString on the code points of a string: a surrogate pair is
    written as it is, a surrogate without its partner is escaped. *)
Fixpoint quoteUnits (s : text) : text :=
  match s with
  | [] => []
  | c :: s' =>
      if isHigh c then
        match s' with
        | d :: s'' =>
            if isLow d then c :: d :: quoteUnits s'' else unicodeEscape c ++ quoteUnits s'
        | [] => unicodeEscape c
        end
      else if isLow c then unicodeEscape c ++ quoteUnits s'
      else quoteChar c ++ quoteUnits s'
  end.

Definition quote (s : text) : text :=
  code dquote :: quoteUnits s ++ [code dquote].

Definition isFinite (x : number) : bool :=
  match x with
  | S754_zero _ | S754_finite _ _ _ => true
  | _ => false
  end.

Definition serNumber (x : number) : text :=
  if isFinite x then wide (toChars x) else units "null".

Fixpoint join (sep : text) (parts : list text) : text :=
  match parts with
  | [] => []
  | [p] => p
  | p :: ps => p ++ sep ++ join sep ps
  end.

(** The bracketed, separated and indented list of the serialized
    elements of an array or members of an object. *)
Definition wrap (opening closing : ascii) (gap indent : text) (parts : list text) : text :=
  match parts with
  | [] => [code opening; code closing]
  | _ =>
      match gap with
      | [] => code opening :: join [code ","%char] parts ++ [code closing]
      | _ =>
          let inner := indent ++ gap in
          code opening :: code newline :: inner
            ++ join (code ","%char :: code newline :: inner) parts
            ++ code newline :: indent ++ [code closing]
      end
  end.

Definition colon (gap : text) : text :=
  match gap with [] => [code ":"%char] | _ => [code ":"%char; code " "%char] end.

(** SerializeJSONProperty at indentation [indent]. *)
Fixpoint ser (gap indent : text) (v : value) {struct v} : text :=
  match v with
  | Null => units "null"
  | Bool b => if b then units "true" else units "false"
  | Num x => serNumber x
  | Str s => quote s
  | Arr items => wrap "["%char "]"%char gap indent (map (ser gap (indent ++ gap)) items)
  | Obj members =>
      wrap "{"%char "}"%char gap indent
        (map (fun kv => quote (fst kv) ++ colon gap ++ ser gap (indent ++ gap) (snd kv))
             members)
  end.

(** [JSON.stringify(v, null, space)] for a number of spaces. *)
Definition stringify (v : value) (space : nat) : text :=
  ser (repeat (code " "%char) (Nat.min space 10)) [] v.

(** *** Parsing *)

Definition isWs (n : N) : bool :=
  ((n =? 32) || (n =? 9) || (n =? 10) || (n =? 13))%N.

Fixpoint skipWs (t : text) : text :=
  match t with
  | c :: t' => if isWs c then skipWs t' else t
  | [] => []
  end.

Definition hexVal (n : N) : option N :=
  if ((48 <=? n) && (n <=? 57))%N then Some (n - 48)%N
  else if ((97 <=? n) && (n <=? 102))%N then Some (n - 87)%N
  else if ((65 <=? n) && (n <=? 70))%N then Some (n - 55)%N
  else None.

(** The code unit of a four-digit escape. *)
Definition hex4 (a b c d : N) : option N :=
  match hexVal a, hexVal b, hexVal c, hexVal d with
  | Some h3, Some h2, Some h1, Some h0 => Some (4096 * h3 + 256 * h2 + 16 * h1 + h0)%N
  | _, _, _, _ => None
  end.

Definition unescape (c : N) : option N :=
  if isChar c dquote then Some 34%N
  else if isChar c backslash then Some 92%N
  else if isChar c "/"%char then Some 47%N
  else if isChar c "b"%char then Some 8%N
  else if isChar c "f"%char then Some 12%N
  else if isChar c "n"%char then Some 10%N
  else if isChar c "r"%char then Some 13%N
  else if isChar c "t"%char then Some 9%N
  else None.

(** The code units of a string literal after its opening quote, and
    the text after its closing quote. *)
Fixpoint parseChars (t : text) : option (text * text) :=
  match t with
  | [] => None
  | c :: t1 =>
      if isChar c dquote then Some ([], t1)
      else if isChar c backslash then
        match t1 with
        | e :: t2 =>
            if isChar e "u"%char then
              match t2 with
              | h1 :: h2 :: h3 :: h4 :: t3 =>
                  match hex4 h1 h2 h3 h4 with
                  | Some u =>
                      match parseChars t3 with
                      | Some (s, r) => Some (u :: s, r)
                      | None => None
                      end
                  | None => None
                  end
              | _ => None
              end
            else
              match unescape e with
              | Some u =>
                  match parseChars t2 with
                  | Some (s, r) => Some (u :: s, r)
                  | None => None
                  end
              | None => None
              end
        | [] => None
        end
      else if (c <? 32)%N then None
      else
        match parseChars t1 with
        | Some (s, r) => Some (c :: s, r)
        | None => None
        end
  end.

(** The integer part of a number literal: a single zero, or digits that
    do not start with a zero. *)
Definition parseInt (t : list ascii) : option (list ascii * list ascii) :=
  match t with
  | c :: t' =>
      if eqc c "0"%char then Some ([c], t')
      else if isDigit c then Some (spanDigits t)
      else None
  | [] => None
  end.

Definition parseFrac (t : list ascii) : option (list ascii * list ascii) :=
  match t with
  | c :: t' =>
      if eqc c "."%char then
        match spanDigits t' with
        | ([], _) => None
        | (ds, r) => Some (ds, r)
        end
      else Some ([], t)
  | [] => Some ([], t)
  end.

Definition parseExp (t : list ascii) : option (Z * list ascii) :=
  match t with
  | c :: t' =>
      if eqc c "e"%char || eqc c "E"%char then
        let '(neg, t'') :=
          match t' with
          | s :: t2 =>
              if eqc s "-"%char then (true, t2)
              else if eqc s "+"%char then (false, t2)
              else (false, t')
          | [] => (false, t')
          end in
        match spanDigits t'' with
        | ([], _) => None
        | (ds, r) => Some (if neg then - digitsVal ds else digitsVal ds, r)
        end
      else Some (0, t)
  | [] => Some (0, t)
  end.

(** The digits of a number literal and their value, rounded to the
    nearest number. *)
Definition parseUnsigned (neg : bool) (t0 : list ascii) : option (number * list ascii) :=
  match parseInt t0 with
  | Some (ip, t1) =>
      match parseFrac t1 with
      | Some (fp, t2) =>
          match parseExp t2 with
          | Some (ex, t3) =>
              Some (ofDecimal neg (digitsVal (ip ++ fp)) (ex - Z.of_nat (length fp)), t3)
          | None => None
          end
      | None => None
      end
  | None => None
  end.

(** A number literal: an optional minus sign and the digits. *)
Definition parseNumber (t : list ascii) : option (number * list ascii) :=
  match t with
  | c :: t' => if eqc c "-"%char then parseUnsigned true t' else parseUnsigned false t
  | [] => None
  end.

(** The code units before the first one above 255. *)
Fixpoint narrow (t : text) : list ascii :=
  match t with
  | c :: t' => if (c <? 256)%N then ascii_of_N c :: narrow t' else []
  | [] => []
  end.

(** A number literal at the head of a text.  Its characters are ASCII, so
    it is read from the code units before the first one above 255, and
    the text goes on after what was read. *)
Definition parseNumberAt (t : text) : option (number * text) :=
  match parseNumber (narrow t) with
  | Some (x, r) => Some (x, skipn (length (narrow t) - length r) t)
  | None => None
  end.

Fixpoint expect (word : list ascii) (t : text) : option text :=
  match word with
  | [] => Some t
  | w :: word' =>
      match t with
      | c :: t' => if isChar c w then expect word' t' else None
      | [] => None
      end
  end.

Fixpoint eqUnits (a b : text) : bool :=
  match a, b with
  | [], [] => true
  | x :: a', y :: b' => (x =? y)%N && eqUnits a' b'
  | _, _ => false
  end.

(** The array index that a key is: the decimal digits, without a leading
    zero, of a whole number up to [2^32 - 2]. *)
Definition arrayIndex (key : text) : option N :=
  match key with
  | [] => None
  | c :: r =>
      if forallb (fun d => (48 <=? d) && (d <=? 57))%N key
         && (negb (c =? 48)%N || match r with [] => true | _ :: _ => false end)
      then
        let v := fold_left (fun acc d => 10 * acc + (d - 48))%N key 0%N in
        if (v <=? 4294967294)%N then Some v else None
      else None
  end.

(** The key [a] is enumerated before the key [b] wherever the two were
    created: an array index comes before the larger ones and before every
    other key. *)
Definition before (a b : text) : bool :=
  match arrayIndex a, arrayIndex b with
  | Some i, Some j => (i <? j)%N
  | Some _, None => true
  | None, _ => false
  end.

(** [o.key] for a parsed value: defined on objects that have the member. *)
Fixpoint lookup (key : text) (o : list (text * value)) : option value :=
  match o with
  | [] => None
  | (k, v) :: o' => if eqUnits k key then Some v else lookup key o'
  end.

(** A write to a member that is there: it keeps its place. *)
Fixpoint replace (key : text) (v : value) (o : list (text * value))
  : list (text * value) :=
  match o with
  | [] => []
  | (k, w) :: o' => if eqUnits k key then (k, v) :: o' else (k, w) :: replace key v o'
  end.

(** A new member: it goes before the first member that is enumerated
    after it, or to the end. *)
Fixpoint place (key : text) (v : value) (o : list (text * value))
  : list (text * value) :=
  match o with
  | [] => [(key, v)]
  | (k, w) :: o' => if before key k then (key, v) :: o else (k, w) :: place key v o'
  end.

(** CreateDataProperty on the members read so far. *)
Definition define (key : text) (v : value) (o : list (text * value))
  : list (text * value) :=
  match lookup key o with
  | Some _ => replace key v o
  | None => place key v o
  end.

Definition build (ms : list (text * value)) : list (text * value) :=
  fold_left (fun o kv => define (fst kv) (snd kv) o) ms [].

(** Recursive descent; [fuel] bounds the number of nested calls. *)
Fixpoint parseValue (fuel : nat) (t : text) {struct fuel} : option (value * text) :=
  match fuel with
  | O => None
  | S fuel' =>
      match t with
      | [] => None
      | c :: t' =>
          if isChar c "n"%char then
            option_map (fun r => (Null, r)) (expect (chars "ull") t')
          else if isChar c "t"%char then
            option_map (fun r => (Bool true, r)) (expect (chars "rue") t')
          else if isChar c "f"%char then
            option_map (fun r => (Bool false, r)) (expect (chars "alse") t')
          else if isChar c dquote then
            option_map (fun sr => (Str (fst sr), snd sr)) (parseChars t')
          else if isChar c "["%char then
            match skipWs t' with
            | d :: r =>
                if isChar d "]"%char then Some (Arr [], r)
                else option_map (fun vr => (Arr (fst vr), snd vr))
                       (parseItems fuel' (d :: r))
            | [] => None
            end
          else if isChar c "{"%char then
            match skipWs t' with
            | d :: r =>
                if isChar d "}"%char then Some (Obj [], r)
                else option_map (fun mr => (Obj (build (fst mr)), snd mr))
                       (parseMembers fuel' (d :: r))
            | [] => None
            end
          else option_map (fun xr => (Num (fst xr), snd xr)) (parseNumberAt t)
      end
  end

with parseItems (fuel : nat) (t : text) {struct fuel} : option (list value * text) :=
  match fuel with
  | O => None
  | S fuel' =>
      match parseValue fuel' t with
      | Some (v, r) =>
          match skipWs r with
          | d :: r' =>
              if isChar d ","%char then
                match parseItems fuel' (skipWs r') with
                | Some (vs, r'') => Some (v :: vs, r'')
                | None => None
                end
              else if isChar d "]"%char then Some ([v], r')
              else None
          | [] => None
          end
      | None => None
      end
  end

with parseMembers (fuel : nat) (t : text) {struct fuel}
  : option (list (text * value) * text) :=
  match fuel with
  | O => None
  | S fuel' =>
      match t with
      | q :: t' =>
          if isChar q dquote then
            match parseChars t' with
            | Some (key, r0) =>
                match skipWs r0 with
                | c :: r1 =>
                    if isChar c ":"%char then
                      match parseValue fuel' (skipWs r1) with
                      | Some (v, r) =>
                          match skipWs r with
                          | d :: r' =>
                              if isChar d ","%char then
                                match parseMembers fuel' (skipWs r') with
                                | Some (ms, r'') => Some ((key, v) :: ms, r'')
                                | None => None
                                end
                              else if isChar d "}"%char then Some ([(key, v)], r')
                              else None
                          | [] => None
                          end
                      | None => None
                      end
                    else None
                | [] => None
                end
            | None => None
            end
          else None
      | [] => None
      end
  end.

(** [JSON.parse(text)]: [None] stands for the SyntaxError it throws. *)
Definition parse (t : text) : option value :=
  match parseValue (2 * length t + 2) (skipWs t) with
  | Some (v, r) => match skipWs r with [] => Some v | _ :: _ => None end
  | None => None
  end.

Definition getMember (v : value) (key : string) : option value :=
  match v with
  | Obj members => lookup (units key) members
  | _ => None
  end.

End JSON.

(** ** data.js: the registry state *)

Record Category : Type := mkCategory {
  cat_id : string;
  cat_label : string;
  cat_color : string;
  cat_type : option string
}.

Record Settings : Type := mkSettings {
  capacity : number;
  categories : list Category
}.

(** An array of task objects: its elements, and the properties that are
    not elements (a write at a key such as [-1] makes one). *)
Record TaskArray : Type := mkTaskArray {
  items : list Task;
  props : list (string * Task)
}.

Record ViewDate : Type := mkViewDate { month : Z; year : Z }.

Record State : Type := mkState {
  settings : Settings;
  tasks : TaskArray;
  viewDate : ViewDate;
  currentView : string;
  searchQuery : string
}.

(** The JSON value of the state object, each record written with its
    properties in the order of the fields; an undefined property has no
    member, and the properties of an array that are not elements are not
    serialized. *)
Module Encode.
Import JSON.

Definition str (s : string) : value := Str (units s).

Definition member (key : string) (v : value) : text * value := (units key, v).

Definition opt (key : string) (o : option string) : list (text * value) :=
  match o with Some s => [member key (str s)] | None => [] end.

Definition task (t : Task) : value :=
  Obj ([member "id" (str (id t))] ++ opt "name" (name t) ++ opt "title" (title t)
       ++ [member "date" (str (date t)); member "category" (str (category t));
           member "time" (str (time t)); member "duration" (Num (duration t));
           member "status" (str (status t)); member "urgent" (Bool (urgent t))]
       ++ opt "cancelReason" (cancelReason t) ++ opt "notes" (notes t)
       ++ opt "updatedAt" (updatedAt t) ++ opt "createdAt" (createdAt t)).

Definition category (c : Category) : value :=
  Obj ([member "id" (str (cat_id c)); member "label" (str (cat_label c));
        member "color" (str (cat_color c))] ++ opt "type" (cat_type c)).

Definition state (st : State) : value :=
  Obj [member "settings"
         (Obj [member "capacity" (Num (capacity (settings st)));
               member "categories" (Arr (map category (categories (settings st))))]);
       member "tasks" (Arr (map task (items (tasks st))));
       member "viewDate"
         (Obj [member "month" (Num (ofZ (month (viewDate st))));
               member "year" (Num (ofZ (year (viewDate st))))]);
       member "currentView" (str (currentView st));
       member "searchQuery" (str (searchQuery st))].

End Encode.

(** ** storage.js *)

(** The outcome of an import: the decoded data, or an error message. *)
Inductive ImportResult : Type :=
| ImportSuccess (data : JSON.value)
| ImportFailure (error : string).

(** Statements that may throw. *)
Inductive completion (A : Type) : Type :=
| Normal (a : A)
| Throw (message : string).
Arguments Normal {A} a.
Arguments Throw {A} message.

Definition tryCatch {A : Type} (body : completion A) (handler : string -> A) : A :=
  match body with
  | Normal a => a
  | Throw msg => handler msg
  end.

Definition bind {A B : Type} (c : completion A) (f : A -> completion B) : completion B :=
  match c with
  | Normal a => f a
  | Throw msg => Throw msg
  end.

Module Storage.

Definition STORAGE_KEY : string := "campus_flow_registry".

(** [localStorage.setItem]; it throws when the store refuses the write. *)
Definition setItem (full : bool) (key : string) (value : text) (store : gmap string text)
  : completion (gmap string text) :=
  if full then Throw "QuotaExceededError" else Normal (<[key := value]> store).

(** [save(data)]: the store afterwards, and whether an error was logged. *)
Definition save (full : bool) (data : State) (store : gmap string text)
  : gmap string text * bool :=
  tryCatch
    (bind (setItem full STORAGE_KEY (JSON.stringify (Encode.state data) 0) store)
          (fun store' => Normal (store', false)))
    (fun _ => (store, true)).

(** [load()]: the parsed text of the store, or null. *)
Definition load (store : gmap string text) : option JSON.value :=
  match store !! STORAGE_KEY with
  | Some [] => None
  | Some data => JSON.parse data
  | None => None
  end.

(** The text that [exportJSON(data)] puts into the downloaded blob. *)
Definition exportText (data : JSON.value) : text := JSON.stringify data 2.

(** The message of the SyntaxError of [JSON.parse] is the engine's; this
    text stands for it. *)
Definition msgSyntaxError : string := "Unexpected token in JSON".
Definition msgInvalidFormat : string :=
  "Invalid registry format: Missing mandatory 'tasks' array.".

Definition JSON_parse (t : text) : completion JSON.value :=
  match JSON.parse t with
  | Some v => Normal v
  | None => Throw msgSyntaxError
  end.

Definition isObject (v : JSON.value) : bool :=
  match v with JSON.Obj _ | JSON.Arr _ => true | _ => false end.

(** ToBoolean of a parsed value. *)
Definition truthyValue (v : JSON.value) : bool :=
  match v with
  | JSON.Null => false
  | JSON.Bool b => b
  | JSON.Num x => JsNumber.truthy x
  | JSON.Str s => match s with [] => false | _ :: _ => true end
  | _ => true
  end.

Definition isArray (o : option JSON.value) : bool :=
  match o with Some (JSON.Arr _) => true | _ => false end.

Definition importJSON (jsonString : text) : completion ImportResult :=
  Normal
    (tryCatch
       (bind (JSON_parse jsonString)
             (fun parsed =>
                if negb (truthyValue parsed) || negb (isObject parsed)
                   || negb (isArray (JSON.getMember parsed "tasks"))
                then Throw msgInvalidFormat
                else Normal (ImportSuccess parsed)))
       (fun message => ImportFailure message)).

Definition clear (store : gmap string text) : gmap string text :=
  delete STORAGE_KEY store.

End Storage.

(** ** helpers.js *)

Module Helpers.

Record Stats : Type := mkStats { work : number; life : number }.

Record Balance : Type := mkBalance {
  workPerc : number;
  lifePerc : number;
  workHrs : string;
  lifeHrs : string
}.

(** [categories.find(c => c.id === t.category || c.label === t.category)] *)
Definition findCategory (cats : list Category) (t : Task) : option Category :=
  find (fun c => String.eqb (cat_id c) (category t)
                 || String.eqb (cat_label c) (category t)) cats.

(** One round of the loop over the tasks.  A type other than work and
    life makes a property of its own on [stats], which the result never
    reads. *)
Definition accumulate (cats : list Category) (stats : Stats) (t : Task) : Stats :=
  match findCategory cats t with
  | Some cat =>
      let type := default "work" (JsString.orElse (cat_type cat) (Some "work")) in
      if String.eqb type "work" then mkStats (add (work stats) (duration t)) (life stats)
      else if String.eqb type "life" then mkStats (work stats) (add (life stats) (duration t))
      else stats
  | None => stats
  end.

Definition zero : number := S754_zero false.
Definition one : number := ofZ 1.
Definition hundred : number := ofZ 100.

Definition calculateBalance (tasks : list Task) (cats : list Category) : Balance :=
  let stats := fold_left (accumulate cats) tasks (mkStats zero zero) in
  let total := JsNumber.orElse (add (work stats) (life stats)) one in
  mkBalance (mul (div (work stats) total) hundred)
            (mul (div (life stats) total) hundred)
            (toFixed1 (work stats))
            (toFixed1 (life stats)).

(** [formatDuration(hours)] *)
Definition formatDuration (hours : number) : string :=
  let h := Math.floor hours in
  let m := Math.round (mul (sub hours h) (ofZ 60)) in
  if SFeqb h zero then toString m ++ "m"
  else if SFeqb m zero then toString h ++ "h"
  else toString h ++ "h " ++ toString m ++ "m".

(** [formatTimeWithZone(timeStr)], for the short name [tzName] that
    Intl gives the local time zone.  A field that the text lacks is
    undefined, and is written as such. *)
Definition formatTimeWithZone (tzName : string) (timeStr : string) : string :=
  if isEmpty timeStr then "--:--"
  else
    let fields := split ":" timeStr in
    let hours := nth 0 fields "undefined" in
    let minutes := nth 1 fields "undefined" in
    let h := parseInt hours in
    let ampm := if SFleb (ofZ 12) h then "PM" else "AM" in
    let h := JsNumber.orElse (rem h (ofZ 12)) (ofZ 12) in
    toString h ++ ":" ++ minutes ++ " " ++ ampm ++ " (" ++ tzName ++ ")".

End Helpers.

(** ** search.js *)

Module SearchEngine.

(** A compiled pattern: given the input and a start index, the end
    index of a match there, if any. *)
Definition Matcher : Type := list ascii -> nat -> option nat.

Record RegExp : Type := mkRegExp {
  matcher : Matcher;
  flags : string;
  lastIndex : nat
}.

Definition setLastIndex (r : RegExp) (i : nat) : RegExp :=
  mkRegExp (matcher r) (flags r) i.

(** RegExpBuiltinExec of a global pattern, from [lastIndex] on. *)
Fixpoint execFrom (mt : Matcher) (input : list ascii) (i fuel : nat) : option nat :=
  match mt input i with
  | Some e => Some e
  | None =>
      match fuel with
      | O => None
      | S fuel' => execFrom mt input (S i) fuel'
      end
  end.

(** [regex.test(s)]: the answer, and the pattern with its new
    [lastIndex]. *)
Definition test (r : RegExp) (s : string) : bool * RegExp :=
  let input := chars s in
  if (length input <? lastIndex r)%nat then (false, setLastIndex r 0)
  else
    match execFrom (matcher r) input (lastIndex r) (length input - lastIndex r) with
    | Some e => (true, setLastIndex r e)
    | None => (false, setLastIndex r 0)
    end.

Section Compile.

(** The RegExp constructor: the matcher of a pattern text under the
    given flags, or [None] for the SyntaxError of a text that is not
    a pattern. *)
Variable RegExpNew : string -> string -> option Matcher.

Definition newRegExp (pattern flags : string) : completion RegExp :=
  match RegExpNew pattern flags with
  | Some mt => Normal (mkRegExp mt flags 0)
  | None => Throw "Invalid regular expression"
  end.

Definition compileRegex (pattern : string) (caseInsensitive : bool)
  : completion (option RegExp) :=
  if isEmpty pattern || isEmpty (trim pattern) then Normal None
  else
    Normal
      (tryCatch
         (let flags := if caseInsensitive then "gi" else "g" in
          bind (newRegExp pattern flags) (fun r => Normal (Some r)))
         (fun _ => None)).

End Compile.

(** The text a task is searched in. *)
Definition content (task : Task) : string :=
  let orEmpty (o : option string) := default "" (JsString.orElse o (Some "")) in
  let first := default "" (JsString.orElse (JsString.orElse (title task) (name task)) (Some "")) in
  first ++ " " ++ category task ++ " " ++ orEmpty (notes task)
        ++ " " ++ orEmpty (cancelReason task).

(** The callback of [tasks.filter], threading the pattern object. *)
Fixpoint filterLoop (regex : RegExp) (tasks : list Task) : list Task * RegExp :=
  match tasks with
  | [] => ([], regex)
  | task :: tasks' =>
      let regex0 := setLastIndex regex 0 in
      let (found, regex1) := test regex0 (content task) in
      let (kept, regex2) := filterLoop regex1 tasks' in
      (if found then task :: kept else kept, regex2)
  end.

Definition filterTasks (tasks : list Task) (regex : option RegExp) : list Task :=
  match regex with
  | None => tasks
  | Some r => fst (filterLoop r tasks)
  end.

End SearchEngine.

(** ** main.js: the save handler *)

Module App.

(** The values of the fields of the activity form. *)
Record Form : Type := mkForm {
  task_id : string;
  act_title : string;
  act_date : string;
  act_category : string;
  act_time : string;
  act_duration : string;
  act_status : string;
  act_urgent : bool;
  act_cancel_reason : string;
  act_notes : string
}.

(** What the handler draws from its surroundings: the identifier
    [generateId()] returns, the two readings of the clock, and whether
    the store refuses writes. *)
Record Env : Type := mkEnv {
  generatedId : string;
  nowUpdated : string;
  nowCreated : string;
  storeFull : bool
}.

Inductive effect : Type :=
| PreventDefault
| Alert (message : string)
| ConsoleError
| CloseForm
| Render.

Record World : Type := mkWorld {
  appState : State;
  localStorage : gmap string text;
  effects : list effect
}.

Definition emit (e : effect) (w : World) : World :=
  mkWorld (appState w) (localStorage w) (effects w ++ [e]).

(** The object literal [data] of the handler. *)
Definition formData (env : Env) (f : Form) : Task :=
  mkTask
    (if isEmpty (task_id f) then generatedId env else task_id f)
    None
    (Some (act_title f))
    (act_date f)
    (act_category f)
    (if isEmpty (act_time f) then "09:00" else act_time f)
    (parseFloat (act_duration f))
    (act_status f)
    (act_urgent f)
    (Some (act_cancel_reason f))
    (Some (act_notes f))
    None
    (Some (nowUpdated env)).

(** [tasks.findIndex(t => t.id === taskId)]; [None] stands for -1. *)
Fixpoint findIndex (taskId : string) (l : list Task) : option nat :=
  match l with
  | [] => None
  | t :: l' =>
      if String.eqb (id t) taskId then Some O
      else option_map S (findIndex taskId l')
  end.

(** The spread of [old] followed by the spread of [data]: every
    property of [data] wins, and [old] keeps the ones [data] lacks. *)
Definition spread (old : option Task) (data : Task) : Task :=
  match old with
  | None => data
  | Some o =>
      let keep (d p : option string) := match d with Some _ => d | None => p end in
      mkTask (id data) (keep (name data) (name o)) (keep (title data) (title o))
             (date data) (category data) (time data) (duration data)
             (status data) (urgent data)
             (keep (cancelReason data) (cancelReason o))
             (keep (notes data) (notes o))
             (keep (createdAt data) (createdAt o))
             (keep (updatedAt data) (updatedAt o))
  end.

Fixpoint setNamed (key : string) (t : Task) (ps : list (string * Task))
  : list (string * Task) :=
  match ps with
  | [] => [(key, t)]
  | (k, v) :: ps' =>
      if String.eqb k key then (k, t) :: ps' else (k, v) :: setNamed key t ps'
  end.

Fixpoint getNamed (key : string) (ps : list (string * Task)) : option Task :=
  match ps with
  | [] => None
  | (k, v) :: ps' => if String.eqb k key then Some v else getNamed key ps'
  end.

(** [arr[idx]] for the result [idx] of [findIndex]. *)
Definition readAt (arr : TaskArray) (idx : option nat) : option Task :=
  match idx with
  | Some i => items arr !! i
  | None => getNamed "-1" (props arr)
  end.

(** [arr[idx] = t] for the result [idx] of [findIndex]: an index
    replaces the element, and -1 sets the property of that name. *)
Definition writeAt (arr : TaskArray) (idx : option nat) (t : Task) : TaskArray :=
  match idx with
  | Some i => mkTaskArray (<[i := t]> (items arr)) (props arr)
  | None => mkTaskArray (items arr) (setNamed "-1" t (props arr))
  end.

Definition push (arr : TaskArray) (t : Task) : TaskArray :=
  mkTaskArray (items arr ++ [t]) (props arr).

Definition withTasks (st : State) (arr : TaskArray) : State :=
  mkState (settings st) arr (viewDate st) (currentView st) (searchQuery st).

Definition withCreatedAt (t : Task) (stamp : string) : Task :=
  mkTask (id t) (name t) (title t) (date t) (category t) (time t) (duration t)
         (status t) (urgent t) (cancelReason t) (notes t) (Some stamp) (updatedAt t).

Definition persist (env : Env) (w : World) : World :=
  let (store, failed) := Storage.save (storeFull env) (appState w) (localStorage w) in
  let w' := mkWorld (appState w) store (effects w) in
  if failed then emit ConsoleError w' else w'.

Definition handleSave (env : Env) (f : Form) (w : World) : World :=
  let w := emit PreventDefault w in
  let taskId := task_id f in
  let data := formData env f in
  let errors := Validators.validateTask data in
  match errors with
  | (_, message) :: _ => emit (Alert message) w
  | [] =>
      let st := appState w in
      let arr :=
        if negb (isEmpty taskId) then
          let idx := findIndex taskId (items (tasks st)) in
          writeAt (tasks st) idx (spread (readAt (tasks st) idx) data)
        else push (tasks st) (withCreatedAt data (nowCreated env)) in
      let w := mkWorld (withTasks st arr) (localStorage w) (effects w) in
      let w := persist env w in
      emit Render (emit CloseForm w)
  end.


End App.

(** ** main.js: the handlers of the global scope *)

Module Window.
Import App.


Definition withCapacity (st : State) (c : number) : State :=
  mkState (mkSettings c (categories (settings st))) (tasks st) (viewDate st)
          (currentView st) (searchQuery st).

(** [window.updateCapacity(val)] *)
Definition updateCapacity (env : Env) (val : string) (w : World) : World :=
  let st := withCapacity (appState w) (parseFloat val) in
  emit Render (persist env (mkWorld st (localStorage w) (effects w))).


End Window.

(** ** ui.js: what the views compute from the state *)

Module UI.


(** [list.reduce((acc, t) => acc + t.duration, 0)] *)
Definition sumHours (l : list Task) : number :=
  fold_left (fun acc t => add acc (duration t)) l Helpers.zero.

(** The four tables of the planner. *)
Section Planner.

(** The time value of [new Date(text)], NaN when the text is not a
    date, and the time value of the last local midnight. *)
Variable dateValue : string -> number.
Variable midnight : number.





End Planner.

(** The figures of the statistics view. *)
Definition workHrs (tasks : list Task) : number :=
  sumHours (List.filter (fun t => String.eqb (category t) "academic"
                                  || String.eqb (category t) "professional") tasks).

Definition lifeHrs (tasks : list Task) : number :=
  sumHours (List.filter (fun t => String.eqb (category t) "social"
                                  || String.eqb (category t) "self-care") tasks).

Definition totalHrs (tasks : list Task) : number :=
  JsNumber.orElse (add (workHrs tasks) (lifeHrs tasks)) Helpers.one.

Definition workPerc (tasks : list Task) : number :=
  mul (div (workHrs tasks) (totalHrs tasks)) Helpers.hundred.

Definition lifePerc (tasks : list Task) : number :=
  mul (div (lifeHrs tasks) (totalHrs tasks)) Helpers.hundred.

(** The date text of the cell of day [d] in the calendar of the view
    date. *)
Definition dateStr (v : ViewDate) (d : Z) : string :=
  toString (ofZ (year v)) ++ "-" ++ padStart 2 "0" (toString (ofZ (month v + 1)))
    ++ "-" ++ padStart 2 "0" (toString (ofZ d)).

(** The tasks whose dot is drawn in that cell. *)
Definition cellTasks (st : State) (d : Z) : list Task :=
  List.filter (fun t => String.eqb (date t) (dateStr (viewDate st) d)) (items (tasks st)).

End UI.

(** ** data.js: the initial registry *)

Definition InitialCategories : list Category :=
  [ mkCategory "academic" "Academic" "#3b82f6" (Some "work");
    mkCategory "professional" "Professional" "#1e293b" (Some "work");
    mkCategory "social" "Social" "#f97316" (Some "life");
    mkCategory "self-care" "Self Care" "#2dd4bf" (Some "life") ].

(** [InitialState] with the view date read from the clock merged with
    the two properties main.js adds. *)
Definition InitialState (m y : Z) : State :=
  mkState (mkSettings (ofZ 8) InitialCategories) (mkTaskArray [] [])
          (mkViewDate m y) "dashboard" "".

(** ** Notions of the specification *)

Definition noErrors (errors : dict) : bool :=
  match errors with [] => true | _ :: _ => false end.

(** A decoded value is a snapshot when it is an object with a [tasks]
    member that is a list. *)
Definition hasTaskList (data : JSON.value) : Prop :=
  exists members items,
    data = JSON.Obj members /\ JSON.lookup (units "tasks") members = Some (JSON.Arr items).

(** A candidate with another [title] property. *)
Definition withTitle (data : Task) (t : option string) : Task :=
  mkTask (id data) (name data) t (date data) (category data) (time data)
         (duration data) (status data) (urgent data) (cancelReason data)
         (notes data) (createdAt data) (updatedAt data).

(** The four rules of the validator with the title rules run on [t]. *)
Definition rulesOn (t : option string) (data : Task) : dict :=
  Validators.cancelRule (status data) (cancelReason data)
    (Validators.dateRule (date data)
       (Validators.durationRule (duration data) (Validators.titleRule t []))).

(** The first non-empty one of two optional strings, or the empty string. *)
Definition firstPresent (a b : option string) : string :=
  let second := match b with
                | Some s' => if isEmpty s' then "" else s'
                | None => ""
                end in
  match a with
  | Some s => if isEmpty s then second else s
  | None => second
  end.

(** The part of the searched text that follows the title. *)
Definition otherFields (task : Task) : string :=
  " " ++ category task ++ " " ++ firstPresent (notes task) None
      ++ " " ++ firstPresent (cancelReason task) None.

(** Upper case of an ASCII letter; other code units are left alone. *)
Definition upperAscii (c : ascii) : ascii :=
  if ((97 <=? code c) && (code c <=? 122))%N then ascii_of_N (code c - 32) else c.

Definition sameIgnoringCase (u v : list ascii) : Prop :=
  map upperAscii u = map upperAscii v.

(** A word: a non-empty run of word characters. *)
Definition isWord (w : list ascii) : Prop :=
  w <> [] /\ forallb isWordChar w = true.

(** What the pattern of the duplicate-word rule finds: two runs of
    ASCII letters, digits and underscores that are the same up to the
    case of the ASCII letters, with only white space between them, the
    first not preceded and the second not followed by such a character.
    A letter outside ASCII ends a run. *)
Definition hasRepeatedAsciiWord (t : string) : Prop :=
  exists pre w1 gap w2 post,
    chars t = pre ++ w1 ++ gap ++ w2 ++ post
    /\ isWord w1 /\ isWord w2 /\ sameIgnoringCase w1 w2
    /\ gap <> [] /\ forallb isSpace gap = true
    /\ Regex.isWordAt (Regex.lastOr None pre) = false
    /\ Regex.isWordAt (head post) = false.

(** The words of a text, as the specification has them: the runs of
    code units between white space. *)
Fixpoint wordsOf (current l : list ascii) : list (list ascii) :=
  match l with
  | [] => match current with [] => [] | _ => [rev current] end
  | c :: l' =>
      if isSpace c
      then match current with
           | [] => wordsOf [] l'
           | _ => rev current :: wordsOf [] l'
           end
      else wordsOf (c :: current) l'
  end.

(** Upper case of a letter of Latin-1; the two letters whose capital
    is outside Latin-1, and every other code unit, are left alone. *)
Definition upperLatin1 (c : ascii) : ascii :=
  let n := code c in
  if ((97 <=? n) && (n <=? 122) || (224 <=? n) && (n <=? 254) && negb (n =? 247))%N
  then ascii_of_N (n - 32) else c.

Definition sameWord (u v : list ascii) : bool :=
  String.eqb (ofChars (map upperLatin1 u)) (ofChars (map upperLatin1 v)).

Fixpoint adjacentEqual (ws : list (list ascii)) : bool :=
  match ws with
  | u :: ((v :: _) as rest) => sameWord u v || adjacentEqual rest
  | _ => false
  end.

(** Two identical words, compared without regard to case, separated
    only by white space. *)
Definition hasIdenticalWords (t : string) : bool :=
  adjacentEqual (wordsOf [] (chars t)).

(** A candidate with another [name] property. *)
Definition withName (data : Task) (n : option string) : Task :=
  mkTask (id data) n (title data) (date data) (category data) (time data)
         (duration data) (status data) (urgent data) (cancelReason data)
         (notes data) (createdAt data) (updatedAt data).

(** Leading or trailing white space. *)
Definition isPadded (t : string) : Prop :=
  (exists c l, chars t = c :: l /\ isSpace c = true)
  \/ (exists l c, chars t = l ++ [c] /\ isSpace c = true).

(** A non-negative number that is an exact multiple of a quarter. *)
Definition isQuarterMultiple (x : number) : bool :=
  match x with
  | S754_zero _ => true
  | S754_finite false m e => (-2 <=? e) || (Zpos m mod 2 ^ (- e - 2) =? 0)
  | _ => false
  end.

(** The number [j / 4]. *)
Definition quarters (j : Z) : number := ofDecimal false (25 * j) (-2).

(** The integer part of a duration text: a zero, or digits that start
    with a digit from 1 to 9. *)
Definition isIntPart (ip : list ascii) : Prop :=
  ip = ["0"%char]
  \/ exists c l, ip = c :: l /\ Validators.range "1" "9" c = true
                 /\ forallb isDigit l = true.

(** The fraction digits the duration pattern admits. *)
Definition quarterFractions : list (list ascii) :=
  [chars "25"; chars "5"; chars "75"; chars "0"; chars "00"].

(** The fraction digits of a multiple of a quarter that is not whole,
    by the remainder of its count of quarters. *)
Definition quarterDigits (r : Z) : nat * Z :=
  if r =? 2 then (1%nat, 5) else (2%nat, 25 * r).

(** Plain quarter notation: an integer part alone, or followed by a point
    and one of the five fractions. *)
Definition plainQuarterText (t : list ascii) : Prop :=
  exists ip, isIntPart ip
    /\ (t = ip \/ exists fp, In fp quarterFractions /\ t = ip ++ "."%char :: fp).

(** Keys without repetition. *)
Fixpoint distinct (keys : list text) : bool :=
  match keys with
  | [] => true
  | k :: ks => negb (existsb (JSON.eqUnits k) ks) && distinct ks
  end.

(** Keys in the order in which an object enumerates them: no key comes
    after one that it is enumerated before. *)
Fixpoint enumerated (keys : list text) : bool :=
  match keys with
  | [] => true
  | k :: ks => forallb (fun k' => negb (JSON.before k' k)) ks && enumerated ks
  end.

(** The keys of an object after a new member has been placed. *)
Fixpoint placeKey (key : text) (ks : list text) : list text :=
  match ks with
  | [] => [key]
  | k :: ks' => if JSON.before key k then key :: ks else k :: placeKey key ks'
  end.

(** A value whose objects are objects: in each, no two members have the
    same name, and the members are in the order of enumeration. *)
Fixpoint canonical (v : JSON.value) : bool :=
  match v with
  | JSON.Arr items => forallb canonical items
  | JSON.Obj members =>
      forallb (fun kv => canonical (snd kv)) members
      && (distinct (map fst members) && enumerated (map fst members))
  | _ => true
  end.

(** A number that JSON text can carry and give back: valid and finite,
    and not the negative zero, whose text is that of the positive one. *)
Definition jsonNumber (x : number) : bool :=
  valid_binary prec emax x && JSON.isFinite x
  && negb (numberEq x (S754_zero true)).

(** A value whose numbers JSON text can carry. *)
Fixpoint finiteNumbers (v : JSON.value) : bool :=
  match v with
  | JSON.Num x => jsonNumber x
  | JSON.Arr items => forallb finiteNumbers items
  | JSON.Obj members => forallb (fun kv => finiteNumbers (snd kv)) members
  | _ => true
  end.

(** A value that is representable as JSON: its numbers are, and each
    object is one: no two members have the same name, and the members
    are in the order of enumeration. *)
Fixpoint representable (v : JSON.value) : bool :=
  match v with
  | JSON.Num x => jsonNumber x
  | JSON.Arr items => forallb representable items
  | JSON.Obj members =>
      forallb (fun kv => representable (snd kv)) members
      && (distinct (map fst members) && enumerated (map fst members))
  | _ => true
  end.

(** The number of nested calls that parsing the text of a value takes. *)
Fixpoint weight (v : JSON.value) : nat :=
  match v with
  | JSON.Arr items => S (list_sum (map (fun x => S (weight x)) items))
  | JSON.Obj members => S (list_sum (map (fun kv => S (weight (snd kv))) members))
  | _ => 1
  end.

(** The layout of [JSON.wrap]: the text after the opening bracket,
    between two parts, and before the closing bracket. *)
Definition opener (gap indent : text) : text :=
  match gap with [] => [] | _ => code JSON.newline :: indent ++ gap end.

Definition separator (gap indent : text) : text :=
  code ","%char :: opener gap indent.

Definition closer (gap indent : text) : text :=
  match gap with [] => [] | _ => code JSON.newline :: indent end.

(** The first code unit of a text starts a value: it is not white
    space, a closing bracket or a comma. *)
Definition startsValue (t : text) : Prop :=
  exists c t', t = c :: t' /\ JSON.isWs c = false
               /\ JSON.isChar c "]" = false /\ JSON.isChar c "}" = false
               /\ JSON.isChar c "," = false.

(** The text after a number literal does not continue it. *)
Definition endsNumber (t : list ascii) : bool :=
  match t with
  | [] => true
  | c :: _ =>
      negb (isDigit c || Ascii.eqb c "."%char || Ascii.eqb c "e"%char || Ascii.eqb c "E"%char)
  end.

(** The same on a text with any code unit. *)
Definition endsNumberAt (t : text) : bool := endsNumber (JSON.narrow t).

(** The text of [v] at any indentation, laid out with [gap], is read back
    as [v], with enough fuel and before a text that does not continue it. *)
Definition readsBack (gap : text) (v : JSON.value) : Prop :=
  forall (indent : text) (fuel : nat) (rest : text),
    forallb JSON.isWs indent = true -> (weight v <= fuel)%nat -> endsNumberAt rest = true ->
    JSON.parseValue fuel (JSON.ser gap indent v ++ rest) = Some (v, rest).

(** [2^l <= a/b < 2^(l+1)], cross-multiplied. *)
Definition bracket2 (a b l : Z) : Prop :=
  b * 2 ^ Z.max 0 l <= a * 2 ^ Z.max 0 (- l)
  /\ a * 2 ^ Z.max 0 (- (l + 1)) < b * 2 ^ Z.max 0 (l + 1).

(** [10^(n-1) <= a/b < 10^n], cross-multiplied. *)
Definition bracket10 (a b n : Z) : Prop :=
  b * 10 ^ Z.max 0 (n - 1) <= a * 10 ^ Z.max 0 (- (n - 1))
  /\ a * 10 ^ Z.max 0 (- n) < b * 10 ^ Z.max 0 n.

(** The balance as the specification words it. *)
Module BalanceSpec.
Import Helpers.

(** The type of the category a task matches, [work] when the category
    has none. *)
Definition typeOf (cats : list Category) (t : Task) : option string :=
  match findCategory cats t with
  | Some c => Some (match cat_type c with
                    | Some ty => if isEmpty ty then "work" else ty
                    | None => "work"
                    end)
  | None => None
  end.

Definition inBucket (cats : list Category) (bucket : string) (t : Task) : bool :=
  match typeOf cats t with
  | Some ty => String.eqb ty bucket
  | None => false
  end.

(** The summed duration of the tasks of one bucket, in task order. *)
Definition bucketSum (cats : list Category) (bucket : string) (tasks : list Task) : number :=
  fold_left add (map duration (List.filter (inBucket cats bucket) tasks)) zero.

Definition combined (cats : list Category) (tasks : list Task) : number :=
  add (bucketSum cats "work" tasks) (bucketSum cats "life" tasks).

(** A total below 1 replaced by 1. *)
Definition flooredToOne (total : number) : number :=
  if SFltb total one then one else total.

(** A total that is zero, or not a number, replaced by 1. *)
Definition zeroToOne (total : number) : number :=
  match total with
  | S754_zero _ | S754_nan => one
  | _ => total
  end.

Definition percentage (denominator : number -> number)
    (cats : list Category) (bucket : string) (tasks : list Task) : number :=
  mul (div (bucketSum cats bucket tasks) (denominator (combined cats tasks))) hundred.

End BalanceSpec.

(** ** Notions of the further properties *)

(** Two digits that denote a number from [lo] to [hi]. *)
Definition twoDigits (lo hi : Z) (c1 c2 : ascii) : bool :=
  isDigit c1 && isDigit c2
  && (lo <=? 10 * digitVal c1 + digitVal c2) && (10 * digitVal c1 + digitVal c2 <=? hi).

(** A text of the form YYYY-MM-DD: four digits, a month from 01 to 12
    and a day from 01 to 31, whatever the month. *)
Definition isDateText (d : string) : bool :=
  match chars d with
  | [y1; y2; y3; y4; h1; m1; m2; h2; d1; d2] =>
      forallb isDigit [y1; y2; y3; y4]
      && Ascii.eqb h1 "-" && twoDigits 1 12 m1 m2
      && Ascii.eqb h2 "-" && twoDigits 1 31 d1 d2
  | _ => false
  end.





(** The text of [j] quarters of an hour: the whole hours and the
    minutes that are left, each left out when it is zero and the other
    is not. *)
Definition quarterHoursText (j : Z) : string :=
  let h := ofChars (decimal (j / 4)) in
  let m := ofChars (decimal (15 * (j mod 4))) in
  if j / 4 =? 0 then m ++ "m"
  else if j mod 4 =? 0 then h ++ "h"
  else h ++ "h " ++ m ++ "m".

(** The hour [h] of the day on the twelve-hour clock. *)
Definition clockHour (h : Z) : Z := if h mod 12 =? 0 then 12 else h mod 12.

(** An hour of the day as the two digits of a time field. *)
Definition hourField (h : Z) : string := ofChars (digits 2 h).

Definition noColon (s : string) : bool :=
  forallb (fun c => negb (Ascii.eqb c ":"%char)) (chars s).

(** The value that the text of [v] denotes: a number that is not finite
    is written as null, and the negative zero as zero. *)
Fixpoint asWritten (v : JSON.value) : JSON.value :=
  match v with
  | JSON.Num x =>
      match x with
      | S754_zero _ => JSON.Num (S754_zero false)
      | S754_finite _ _ _ => v
      | _ => JSON.Null
      end
  | JSON.Arr items => JSON.Arr (map asWritten items)
  | JSON.Obj members => JSON.Obj (map (fun kv => (fst kv, asWritten (snd kv))) members)
  | _ => v
  end.

(** A value whose numbers are numbers of the format and whose objects
    have no two members of the same name, in the order of enumeration. *)
Fixpoint wellFormed (v : JSON.value) : bool :=
  match v with
  | JSON.Num x => valid_binary prec emax x
  | JSON.Arr items => forallb wellFormed items
  | JSON.Obj members =>
      forallb (fun kv => wellFormed (snd kv)) members
      && (distinct (map fst members) && enumerated (map fst members))
  | _ => true
  end.

(** ** Sample data *)

Module Examples.
Import App.

Definition env0 : Env := mkEnv "rec_1709280000000_17" "2024-03-01T08:00:00.000Z"
                               "2024-03-01T08:00:00.001Z" false.

Definition form (taskId title dur st reason : string) : Form :=
  mkForm taskId title "2024-03-01" "academic" "" dur st false reason "".

Definition studyMath : Form := form "" "Study Math" "1.5" "planned" "".
Definition gymGym : Form := form "" "Gym Gym" "1" "planned" "".
Definition hugeDuration : Form := form "" "Study Math" "1e21" "planned" "".
Definition preciseDuration : Form :=
  form "" "Study Math" "562949953421312.25" "planned" "".
Definition editMissing : Form := form "rec_404" "Study Math" "1.5" "planned" "".

Definition world0 : World := mkWorld (InitialState 2 2024) ∅ [].

(** The registry after Study Math has been logged. *)
Definition world1 : World := handleSave env0 studyMath world0.

Definition lineFeed : string := String "010"%char "".

(** A title of two letters with a line feed between them. *)
Definition twoLines : string := "a" ++ lineFeed ++ "b".

(** The letters e with an acute accent and e with a circumflex. *)
Definition eAcute : string := String "233"%char "".
Definition eCircumflex : string := String "234"%char "".

(** The titles [cafe cafe] and [tete te], written with their accents. *)
Definition cafeCafe : string := "caf" ++ eAcute ++ " caf" ++ eAcute.
Definition teteTe : string := "t" ++ eCircumflex ++ "te te".

Definition halfHour : Task :=
  mkTask "rec_1" None (Some "Reading") "2024-03-01" "academic" "09:00"
         (ofDecimal false 5 (-1)) "completed" false None None None None.

(** A record that carries both [name] and [title]. *)
Definition renamed : Task :=
  mkTask "rec_2" (Some "Gym Gym") (Some "Study Math") "2024-03-01" "social" "09:00"
         (ofZ 1) "planned" false None None None None.

(** The snapshot of the registry after Study Math has been logged. *)
Definition snapshot1 : JSON.value := Encode.state (App.appState world1).

(** JSON texts; [q] is the double quote.  The first one reads
    {q tasks q:[], q note q: q \u0100 q}, with an escape for a code unit
    above 255; the second one has a member named by an array index after
    another member. *)
Definition q : string := String JSON.dquote "".
Definition escapedNote : text :=
  units ("{" ++ q ++ "tasks" ++ q ++ ":[]," ++ q ++ "note" ++ q ++ ":"
         ++ q ++ "\u0100" ++ q ++ "}").
Definition indexKeys : text :=
  units ("{" ++ q ++ "b" ++ q ++ ":1," ++ q ++ "1" ++ q ++ ":2,"
         ++ q ++ "tasks" ++ q ++ ":[]}").

(** An instance of the RegExp constructor: a text without pattern
    syntax characters searches for itself, and any other text is
    refused. *)
Definition isSyntaxChar (c : ascii) : bool :=
  existsb (Ascii.eqb c) (chars "^$\.*+?()[]{}|/").

Fixpoint prefixAt (word input : list ascii) (i : nat) : bool :=
  match i with
  | O => JsNumber.startsWith word input
  | S i' => match input with _ :: input' => prefixAt word input' i' | [] => false end
  end.

Definition literalRegExp (pattern flags : string) : option SearchEngine.Matcher :=
  if existsb isSyntaxChar (chars pattern) then None
  else Some (fun input i =>
               if prefixAt (chars pattern) input i
               then Some (i + length (chars pattern))%nat else None).

End Examples.

(** * Properties *)

(** ** The save handler *)

Section HandleSave.
Import App.
Variables (env : Env) (f : Form) (w : World).

Lemma handleSave_invalid :
  noErrors (Validators.validateTask (formData env f)) = false ->
  exists message,
    handleSave env f w
    = mkWorld (appState w) (localStorage w)
              (effects w ++ [PreventDefault; Alert message]).
Proof.
  unfold handleSave. destruct (Validators.validateTask (formData env f)) as [|[k msg] rest].
  - discriminate.
  - intros _. exists msg. unfold emit. simpl. rewrite <- app_assoc. reflexivity.
Qed.

End HandleSave.

(** C1: a candidate on which [validateTask] reports an error leaves the
    task collection and the store as they were, for a create (no task id)
    and for an update (a task id) alike; the handler only shows the
    message. *)
Theorem handleSave_validation_failure_changes_nothing :
  forall (env : App.Env) (f : App.Form) (w : App.World),
    noErrors (Validators.validateTask (App.formData env f)) = false ->
    App.appState (App.handleSave env f w) = App.appState w
    /\ App.localStorage (App.handleSave env f w) = App.localStorage w.
Proof.
  intros env f w H.
  destruct (handleSave_invalid env f w H) as [msg ->]. split; reflexivity.
Qed.

Lemma handleSave_validation_failure_witness :
  noErrors (Validators.validateTask (App.formData Examples.env0 Examples.gymGym)) = false
  /\ App.appState (App.handleSave Examples.env0 Examples.gymGym Examples.world1)
     = App.appState Examples.world1
  /\ App.localStorage (App.handleSave Examples.env0 Examples.gymGym Examples.world1)
     = App.localStorage Examples.world1.
Proof.
  split.
  - vm_compute. reflexivity.
  - apply (handleSave_validation_failure_changes_nothing
             Examples.env0 Examples.gymGym Examples.world1).
    vm_compute. reflexivity.
Defined.

(** C8: an update whose id matches no record does not fail.  The
    handler finds index -1, writes the candidate under the property of
    that name, persists and closes the form without any message; the
    elements of the collection stay as they were. *)
Theorem handleSave_absent_id_reports_no_error :
  let w := App.handleSave Examples.env0 Examples.editMissing Examples.world1 in
  App.findIndex "rec_404" (items (tasks (App.appState Examples.world1))) = None
  /\ items (tasks (App.appState w)) = items (tasks (App.appState Examples.world1))
  /\ App.getNamed "-1" (props (tasks (App.appState w)))
     = Some (App.formData Examples.env0 Examples.editMissing)
  /\ App.effects w
     = App.effects Examples.world1 ++ [App.PreventDefault; App.CloseForm; App.Render]
  /\ App.localStorage w !! Storage.STORAGE_KEY
     = Some (JSON.stringify (Encode.state (App.appState w)) 0).
Proof.
  vm_compute. repeat split; reflexivity.
Qed.

(** ** The search engine *)

(** C5: [compileRegex] returns for every pattern text, whatever the
    RegExp constructor does with it; it returns null for a text the
    constructor refuses and for the empty text, and [filterTasks] with a
    null matcher returns its input. *)
Theorem compileRegex_never_throws :
  forall (RegExpNew : string -> string -> option SearchEngine.Matcher)
         (pattern : string) (caseInsensitive : bool),
    (exists r, SearchEngine.compileRegex RegExpNew pattern caseInsensitive = Normal r)
    /\ (RegExpNew pattern (if caseInsensitive then "gi" else "g") = None ->
        SearchEngine.compileRegex RegExpNew pattern caseInsensitive = Normal None)
    /\ SearchEngine.compileRegex RegExpNew "" caseInsensitive = Normal None
    /\ (forall tasks, SearchEngine.filterTasks tasks None = tasks).
Proof.
  intros RegExpNew pattern ci. unfold SearchEngine.compileRegex, SearchEngine.newRegExp.
  repeat split.
  - destruct (isEmpty pattern || isEmpty (trim pattern)); eexists; reflexivity.
  - intros H. destruct (isEmpty pattern || isEmpty (trim pattern)); [reflexivity|].
    destruct ci; rewrite H; reflexivity.
Qed.

Lemma compileRegex_never_throws_witness :
  Examples.literalRegExp "[" "gi" = None
  /\ SearchEngine.compileRegex Examples.literalRegExp "[" true = Normal None
  /\ SearchEngine.filterTasks [Examples.halfHour] None = [Examples.halfHour].
Proof.
  destruct (compileRegex_never_throws Examples.literalRegExp "[" true)
    as (_ & Hbad & _ & Hnull).
  split; [vm_compute; reflexivity|].
  split; [apply Hbad; vm_compute; reflexivity | apply Hnull].
Defined.

(** ** The structural check of the import *)

Lemma isArray_spec (o : option JSON.value) :
  Storage.isArray o = true <-> exists items, o = Some (JSON.Arr items).
Proof.
  split.
  - destruct o as [[]|]; simpl; try discriminate. eauto.
  - intros [items ->]. reflexivity.
Qed.

Lemma snapshot_check (data : JSON.value) :
  negb (Storage.truthyValue data) || negb (Storage.isObject data)
    || negb (Storage.isArray (JSON.getMember data "tasks")) = false
  <-> hasTaskList data.
Proof.
  split.
  - intros H. apply orb_false_iff in H as [H H3]. apply orb_false_iff in H as [_ H2].
    apply negb_false_iff in H3. apply isArray_spec in H3 as [items Hi].
    destruct data; simpl in Hi; try discriminate.
    exists members, items. split; [reflexivity | exact Hi].
  - intros (members & items & -> & Hl). simpl. rewrite Hl. reflexivity.
Qed.

(** ** The balance *)

Section Balance.
Import Helpers BalanceSpec.
Variable cats : list Category.

Lemma work_is_not_life : String.eqb "work" "life" = false.
Proof. reflexivity. Qed.

Lemma accumulate_buckets (stats : Stats) (t : Task) :
  accumulate cats stats t
  = mkStats (if inBucket cats "work" t then add (work stats) (duration t) else work stats)
            (if inBucket cats "life" t then add (life stats) (duration t) else life stats).
Proof.
  unfold accumulate, inBucket, typeOf, JsString.orElse, JsString.truthy.
  destruct (findCategory cats t) as [c|]; [|destruct stats; reflexivity].
  destruct (cat_type c) as [ty|]; [destruct (isEmpty ty) eqn:He|]; cbn.
  - destruct stats; reflexivity.
  - destruct (String.eqb ty "work") eqn:Hw.
    + apply String.eqb_eq in Hw. subst ty. destruct stats; reflexivity.
    + destruct (String.eqb ty "life"); destruct stats; reflexivity.
  - destruct stats; reflexivity.
Qed.

Lemma fold_accumulate (tasks : list Task) (stats : Stats) :
  fold_left (accumulate cats) tasks stats
  = mkStats
      (fold_left add (map duration (List.filter (inBucket cats "work") tasks)) (work stats))
      (fold_left add (map duration (List.filter (inBucket cats "life") tasks)) (life stats)).
Proof.
  revert stats. induction tasks as [|t tasks IH]; intros stats.
  - destruct stats; reflexivity.
  - cbn [fold_left List.filter]. rewrite IH, accumulate_buckets. cbn [work life].
    destruct (inBucket cats "work" t), (inBucket cats "life" t); reflexivity.
Qed.

Lemma orElse_one (total : number) : JsNumber.orElse total one = zeroToOne total.
Proof. destruct total; reflexivity. Qed.

End Balance.

(** C9, as the code has it: each percentage is the summed duration of
    its bucket divided by the combined total and multiplied by 100, where
    a combined total of zero (or one that is not a number) is replaced by
    1 in the denominator; any other total, also one below 1, divides as
    it is. *)
Theorem calculateBalance_percentages :
  forall (tasks : list Task) (cats : list Category),
    Helpers.workPerc (Helpers.calculateBalance tasks cats)
    = BalanceSpec.percentage BalanceSpec.zeroToOne cats "work" tasks
    /\ Helpers.lifePerc (Helpers.calculateBalance tasks cats)
       = BalanceSpec.percentage BalanceSpec.zeroToOne cats "life" tasks.
Proof.
  intros tasks cats.
  unfold Helpers.calculateBalance, BalanceSpec.percentage, BalanceSpec.combined,
    BalanceSpec.bucketSum.
  rewrite fold_accumulate, orElse_one. split; reflexivity.
Qed.

(** C9, as stated: with the total floored to 1, half an hour of work and
    nothing else would be 50 percent; the code answers 100. *)
Lemma calculateBalance_total_below_one :
  Helpers.workPerc (Helpers.calculateBalance [Examples.halfHour] InitialCategories)
  = ofZ 100
  /\ BalanceSpec.percentage BalanceSpec.flooredToOne InitialCategories "work"
       [Examples.halfHour] = ofZ 50
  /\ Helpers.workPerc (Helpers.calculateBalance [Examples.halfHour] InitialCategories)
     <> BalanceSpec.percentage BalanceSpec.flooredToOne InitialCategories "work"
          [Examples.halfHour].
Proof.
  vm_compute. repeat split; try reflexivity. discriminate.
Qed.

(** ** Which property carries the title *)

Lemma content_text (task : Task) :
  SearchEngine.content task
  = (firstPresent (title task) (name task) ++ otherFields task)%string.
Proof.
  unfold SearchEngine.content, otherFields, firstPresent, JsString.orElse, JsString.truthy.
  destruct (title task) as [[|]|], (name task) as [[|]|],
    (notes task) as [[|]|], (cancelReason task) as [[|]|]; reflexivity.
Qed.

Lemma test_lastIndex (r : SearchEngine.RegExp) (s : string) (i : nat) :
  SearchEngine.setLastIndex (snd (SearchEngine.test r s)) i = SearchEngine.setLastIndex r i.
Proof.
  unfold SearchEngine.test.
  destruct (_ <? _)%nat; [reflexivity|].
  destruct (SearchEngine.execFrom _ _ _ _); reflexivity.
Qed.

Lemma filterLoop_filter (r : SearchEngine.RegExp) (l : list Task) :
  fst (SearchEngine.filterLoop r l)
  = List.filter
      (fun t => fst (SearchEngine.test (SearchEngine.setLastIndex r 0)
                                       (SearchEngine.content t))) l.
Proof.
  revert r. induction l as [|t l IH]; intros r; [reflexivity|].
  cbn [SearchEngine.filterLoop List.filter].
  destruct (SearchEngine.test (SearchEngine.setLastIndex r 0) (SearchEngine.content t))
    as [found r1] eqn:Ht.
  specialize (IH r1).
  destruct (SearchEngine.filterLoop r1 l) as [kept r2]. cbn [fst] in *.
  assert (Hr : SearchEngine.setLastIndex r1 0 = SearchEngine.setLastIndex r 0).
  { replace r1 with (snd (SearchEngine.test (SearchEngine.setLastIndex r 0)
                                            (SearchEngine.content t)))
      by (rewrite Ht; reflexivity).
    rewrite test_lastIndex. reflexivity. }
  rewrite Hr in IH. rewrite IH. destruct found; reflexivity.
Qed.

(** ** The matcher *)

Section Matcher.
Import Regex.
Variable ic : bool.

Lemma m_Star (r : regex) (x : mstate) (k : cont) :
  m ic (Star r) x k = starLoop (m ic r) k (length (rest x)) x.
Proof. reflexivity. Qed.

Lemma lastOr_app (o : option ascii) (l : list ascii) (c : ascii) :
  lastOr o (l ++ [c]) = Some c.
Proof. unfold lastOr. rewrite fold_left_app. reflexivity. Qed.

Lemma lastOr_cons (o : option ascii) (l : list ascii) (c : ascii) :
  lastOr o (c :: l) = lastOr (Some c) l.
Proof. reflexivity. Qed.

Lemma step_is_Some (x : mstate) (p : ascii -> bool) (k : cont) :
  is_Some (step x p k)
  <-> exists c l, rest x = c :: l /\ p c = true
                  /\ is_Some (k (MState (Some c) l (caps x))).
Proof.
  unfold step. destruct (rest x) as [|c l].
  - split; [intros [? [=]] | intros (c & l & [=] & _)].
  - destruct (p c) eqn:Hp.
    + split; [intros H; exists c, l; auto | intros (c' & l' & [= <- <-] & _ & H); exact H].
    + split; [intros [? [=]] | intros (c' & l' & [= <- <-] & Hp' & _); congruence].
Qed.

Lemma m_Class_is_Some (p : ascii -> bool) (x : mstate) (k : cont) :
  is_Some (m ic (Class p) x k)
  <-> exists c l, rest x = c :: l /\ inClass ic p c = true
                  /\ is_Some (k (MState (Some c) l (caps x))).
Proof. apply step_is_Some. Qed.

(** A greedy run of one class succeeds exactly when the continuation
    succeeds after some prefix made of members of the class. *)
Lemma starLoop_class (p : ascii -> bool) (k : cont) (fuel : nat) :
  forall x : mstate,
    (length (rest x) <= fuel)%nat ->
    is_Some (starLoop (m ic (Class p)) k fuel x)
    <-> exists pre post,
          rest x = pre ++ post /\ forallb (inClass ic p) pre = true
          /\ is_Some (k (MState (lastOr (prev x) pre) post (caps x))).
Proof.
  induction fuel as [|fuel IH]; intros x Hlen.
  - destruct x as [pv rs cs]. cbn [rest] in Hlen.
    assert (rs = []) as -> by (destruct rs; [reflexivity | cbn in Hlen; lia]).
    cbn. split.
    + intros H. exists [], []. auto.
    + intros (pre & post & Hr & _ & H).
      symmetry in Hr. apply app_eq_nil in Hr as [-> ->]. exact H.
  - cbn [starLoop].
    destruct (m ic (Class p) x _) as [z|] eqn:Hs.
    + assert (Hsome : is_Some (m ic (Class p) x
                (fun y => if (length (rest y) <? length (rest x))%nat
                          then starLoop (m ic (Class p)) k fuel y else None)))
        by (rewrite Hs; eauto).
      apply m_Class_is_Some in Hsome as (c & l & Hr & Hc & Hk).
      cbn [rest] in Hk. rewrite Hr in Hk. cbn [length] in Hk.
      replace (length l <? S (length l))%nat with true in Hk
        by (symmetry; apply Nat.ltb_lt; lia).
      apply IH in Hk as (pre & post & Hr' & Hall & Hk); [|cbn; rewrite Hr in Hlen; cbn in Hlen; lia].
      cbn [rest prev caps] in *. split; [intros _ | eauto].
      exists (c :: pre), post. rewrite Hr, Hr'. cbn. rewrite Hc, Hall. auto.
    + split.
      * intros H. exists [], (rest x). destruct x; auto.
      * intros (pre & post & Hr & Hall & Hk).
        destruct pre as [|c pre]; [cbn in *; subst post; destruct x; exact Hk|].
        exfalso. cbn in Hall. apply andb_true_iff in Hall as [Hc Hall].
        assert (Hsome : is_Some (m ic (Class p) x
                (fun y => if (length (rest y) <? length (rest x))%nat
                          then starLoop (m ic (Class p)) k fuel y else None))).
        { apply m_Class_is_Some. exists c, (pre ++ post). split; [exact Hr|]. split; [exact Hc|].
          cbn [rest]. rewrite Hr. cbn [length app].
          replace (length (pre ++ post) <? S (length (pre ++ post)))%nat with true
            by (symmetry; apply Nat.ltb_lt; lia).
          apply IH; [cbn; rewrite Hr in Hlen; cbn in Hlen; lia|].
          exists pre, post. cbn [rest prev caps]. auto. }
        rewrite Hs in Hsome. destruct Hsome as [? [=]].
Qed.

Lemma plus_class (p : ascii -> bool) (k : cont) (x : mstate) :
  is_Some (m ic (Plus (Class p)) x k)
  <-> exists pre post,
        pre <> [] /\ rest x = pre ++ post /\ forallb (inClass ic p) pre = true
        /\ is_Some (k (MState (lastOr (prev x) pre) post (caps x))).
Proof.
  unfold Plus. change (m ic (Seq (Class p) (Star (Class p))) x k)
    with (m ic (Class p) x (fun y => starLoop (m ic (Class p)) k (length (rest y)) y)).
  rewrite m_Class_is_Some. split.
  - intros (c & l & Hr & Hc & Hk). cbn [rest] in Hk.
    apply starLoop_class in Hk as (pre & post & Hr' & Hall & Hk); [|cbn; lia].
    cbn [rest prev caps] in *. exists (c :: pre), post.
    split; [discriminate|]. rewrite Hr, Hr'. cbn. rewrite Hc, Hall. auto.
  - intros (pre & post & Hne & Hr & Hall & Hk).
    destruct pre as [|c pre]; [congruence|].
    cbn in Hall. apply andb_true_iff in Hall as [Hc Hall].
    exists c, (pre ++ post). split; [exact Hr|]. split; [exact Hc|]. cbn [rest].
    apply starLoop_class; [cbn; lia|]. exists pre, post. cbn [rest prev caps]. auto.
Qed.

(** A back reference succeeds on a copy of the captured text, up to
    canonical form. *)
Lemma matchCaptured_spec (v : list ascii) :
  forall (x y : mstate),
    matchCaptured ic v x = Some y
    <-> exists w post,
          rest x = w ++ post
          /\ map (Canonicalize ic) v = map (Canonicalize ic) w
          /\ y = MState (lastOr (prev x) w) post (caps x).
Proof.
  induction v as [|a v IH]; intros x y.
  - cbn. split.
    + intros [= <-]. exists [], (rest x). destruct x; auto.
    + intros (w & post & Hr & Hm & ->). destruct w; [|discriminate].
      cbn in *. subst post. destruct x; reflexivity.
  - cbn [matchCaptured]. destruct (rest x) as [|c l] eqn:Hr.
    + split; [discriminate|]. intros (w & post & Hr' & Hm & _).
      destruct w; [discriminate|]. discriminate.
    + destruct (Canonicalize ic a =? Canonicalize ic c)%N eqn:Hc.
      * apply N.eqb_eq in Hc. rewrite IH. cbn [rest prev caps]. split.
        -- intros (w & post & -> & Hm & ->). exists (c :: w), post.
           cbn. rewrite Hc, Hm. auto.
        -- intros (w & post & Hr' & Hm & ->). destruct w as [|c' w]; [discriminate|].
           cbn in Hr', Hm. injection Hr' as <- ->. injection Hm as _ Hm.
           exists w, post. auto.
      * apply N.eqb_neq in Hc. split; [discriminate|].
        intros (w & post & Hr' & Hm & _). destruct w as [|c' w]; [discriminate|].
        cbn in Hr', Hm. injection Hr' as <- ->. injection Hm as Hc' _. congruence.
Qed.

(** [test] searches every start position. *)
Lemma searchFrom_spec (p : pattern) (l : list ascii) :
  forall before : option ascii,
    searchFrom p before l = true
    <-> exists pre post,
          l = pre ++ post
          /\ is_Some (m (ignoreCase p) (source p) (MState (lastOr before pre) post []) Some).
Proof.
  induction l as [|c l IH]; intros before; cbn [searchFrom].
  - destruct (m _ _ (MState before [] []) Some) eqn:Hm.
    + split; [intros _ | reflexivity]. exists [], []. cbn. rewrite Hm. eauto.
    + split; [discriminate|]. intros (pre & post & Hl & H).
      symmetry in Hl. apply app_eq_nil in Hl as [-> ->]. cbn in H. rewrite Hm in H.
      destruct H as [? [=]].
  - destruct (m _ _ (MState before (c :: l) []) Some) eqn:Hm.
    + split; [intros _ | reflexivity]. exists [], (c :: l). cbn [lastOr fold_left app].
      rewrite Hm. eauto.
    + rewrite IH. split.
      * intros (pre & post & -> & H). exists (c :: pre), post. auto.
      * intros (pre & post & Hl & H). destruct pre as [|c' pre].
        -- cbn in Hl, H. subst post. rewrite Hm in H. destruct H as [? [=]].
        -- cbn in Hl. injection Hl as <- ->. exists pre, post. auto.
Qed.

End Matcher.

(** ** Code units and their classes *)

Section Classes.
Import Regex.

Ltac by_cases_on c :=
  destruct c as [[] [] [] [] [] [] [] []]; vm_compute; reflexivity.

Lemma inClass_word (c : ascii) : inClass true isWordChar c = isWordChar c.
Proof. by_cases_on c. Qed.

Lemma inClass_space (c : ascii) : inClass true isSpace c = isSpace c.
Proof. by_cases_on c. Qed.

Lemma canon_word (c : ascii) :
  implb (isWordChar c) (Canonicalize true c =? code (upperAscii c))%N = true.
Proof. by_cases_on c. Qed.

Lemma canon_ascii (c : ascii) :
  implb (Canonicalize true c <? 128)%N (Canonicalize true c =? code (upperAscii c))%N = true.
Proof. by_cases_on c. Qed.

Lemma upper_word (c : ascii) : isWordChar (upperAscii c) = isWordChar c.
Proof. by_cases_on c. Qed.

Lemma upper_word_ascii (c : ascii) :
  implb (isWordChar c) (code (upperAscii c) <? 128)%N = true.
Proof. by_cases_on c. Qed.

Lemma word_not_space (c : ascii) : implb (isWordChar c) (negb (isSpace c)) = true.
Proof. by_cases_on c. Qed.

Lemma implb_elim (a b : bool) : implb a b = true -> a = true -> b = true.
Proof. destruct a, b; auto. Qed.

Lemma code_inj (a b : ascii) : code a = code b -> a = b.
Proof.
  unfold code. intros H. rewrite <- (ascii_N_embedding a), <- (ascii_N_embedding b), H.
  reflexivity.
Qed.

(** A code unit with the canonical form of a word character is that
    character up to case. *)
Lemma canon_eq_word (a c : ascii) :
  isWordChar a = true ->
  Canonicalize true a = Canonicalize true c <->
  isWordChar c = true /\ upperAscii a = upperAscii c.
Proof.
  intros Ha.
  pose proof (implb_elim _ _ (canon_word a) Ha) as Hca. apply N.eqb_eq in Hca.
  pose proof (implb_elim _ _ (upper_word_ascii a) Ha) as Hua.
  split.
  - intros Heq.
    assert (Hlt : (Canonicalize true c <? 128)%N = true) by (rewrite <- Heq, Hca; exact Hua).
    pose proof (implb_elim _ _ (canon_ascii c) Hlt) as Hcc. apply N.eqb_eq in Hcc.
    rewrite <- Heq, Hca in Hcc. apply code_inj in Hcc.
    split; [|exact Hcc]. rewrite <- (upper_word c), <- Hcc, upper_word. exact Ha.
  - intros [Hc Hu].
    pose proof (implb_elim _ _ (canon_word c) Hc) as Hcc. apply N.eqb_eq in Hcc.
    rewrite Hca, Hcc, Hu. reflexivity.
Qed.

Lemma canon_eq_words (u : list ascii) :
  forall v : list ascii,
    forallb isWordChar u = true ->
    map (Canonicalize true) u = map (Canonicalize true) v <->
    forallb isWordChar v = true /\ sameIgnoringCase u v.
Proof.
  unfold sameIgnoringCase.
  induction u as [|a u IH]; intros v Hu.
  - destruct v; cbn; [tauto|]. split; [discriminate | intros [_ [=]]].
  - cbn in Hu. apply andb_true_iff in Hu as [Ha Hu].
    destruct v as [|c v]; cbn; [split; [discriminate | intros [_ [=]]]|].
    split.
    + intros [= Hc Hm]. apply (canon_eq_word a c Ha) in Hc as [Hc Hup].
      apply (IH v Hu) in Hm as [Hv Hm]. rewrite Hc, Hv, Hup, Hm. auto.
    + intros [Hcv [= Hup Hm]]. apply andb_true_iff in Hcv as [Hc Hv].
      f_equal.
      * apply (canon_eq_word a c Ha). auto.
      * apply (IH v Hu). auto.
Qed.

Lemma forallb_inClass_word (l : list ascii) :
  forallb (inClass true isWordChar) l = forallb isWordChar l.
Proof. induction l as [|c l IH]; cbn [forallb]; [reflexivity|]. rewrite inClass_word, IH. reflexivity. Qed.

Lemma forallb_inClass_space (l : list ascii) :
  forallb (inClass true isSpace) l = forallb isSpace l.
Proof. induction l as [|c l IH]; cbn [forallb]; [reflexivity|]. rewrite inClass_space, IH. reflexivity. Qed.

Lemma lastOr_word (o : option ascii) (w : list ascii) :
  w <> [] -> forallb isWordChar w = true -> isWordAt (lastOr o w) = true.
Proof.
  revert o. induction w as [|c w IH]; intros o Hne Hw; [congruence|].
  cbn in Hw. apply andb_true_iff in Hw as [Hc Hw].
  destruct w as [|d w]; [exact Hc|].
  rewrite lastOr_cons. apply IH; [discriminate | exact Hw].
Qed.

Lemma head_word (w rest : list ascii) :
  w <> [] -> forallb isWordChar w = true -> isWordAt (head (w ++ rest)) = true.
Proof.
  destruct w as [|c w]; [congruence|]. cbn. intros _ H.
  apply andb_true_iff in H as [H _]. exact H.
Qed.

End Classes.

(** ** The patterns of the validator *)

Section Patterns.
Import Regex Validators.

Lemma firstn_consumed (w post : list ascii) :
  firstn (length (w ++ post) - length post) (w ++ post) = w.
Proof.
  rewrite length_app. replace (length w + length post - length post)%nat with (length w) by lia.
  rewrite firstn_app, Nat.sub_diag, firstn_all. cbn. apply app_nil_r.
Qed.

(** What the duplicate-word pattern matches at one position. *)
Lemma duplicateWords_at (b : option ascii) (l : list ascii) :
  is_Some (m true (source patterns.duplicateWords) (MState b l []) Some)
  <-> exists w1 gap w2 post,
        l = w1 ++ gap ++ w2 ++ post
        /\ w1 <> [] /\ forallb isWordChar w1 = true
        /\ gap <> [] /\ forallb isSpace gap = true
        /\ map (Canonicalize true) w1 = map (Canonicalize true) w2
        /\ xorb (isWordAt b) (isWordAt (head l)) = true
        /\ xorb (isWordAt (lastOr (lastOr (lastOr b w1) gap) w2)) (isWordAt (head post)) = true.
Proof.
  cbn [source patterns.duplicateWords].
  change (m true (Seq WordB ?r) ?x ?k)
    with (if xorb (isWordAt (prev x)) (isWordAt (head (rest x))) then m true r x k else None).
  cbn [prev rest].
  destruct (xorb (isWordAt b) (isWordAt (head l))) eqn:Hb.
  2:{ split; [intros [? [=]] | intros (? & ? & ? & ? & H); decompose [and] H; congruence]. }
  change (m true (Seq (Group 1 ?r1) ?r2) ?x ?k)
    with (m true r1 x
            (fun y => m true r2
                        (MState (prev y) (rest y)
                           ((1%nat, firstn (length (rest x) - length (rest y)) (rest x)) :: caps y))
                        k)).
  rewrite plus_class. cbn [rest prev caps].
  split.
  - intros (w1 & post1 & Hne1 & -> & Hw1 & H).
    rewrite firstn_consumed in H.
    change (m true (Seq (Plus (Class isSpace)) ?r2) ?x ?k)
      with (m true (Plus (Class isSpace)) x (fun y => m true r2 y k)) in H.
    apply plus_class in H as (gap & post2 & Hne2 & Hr2 & Hgap & H).
    cbn [rest prev caps] in *. subst post1.
    change (m true (Seq (Backref 1) WordB) ?x Some)
      with (match lookupCap 1 (caps x) with
            | None => m true WordB x Some
            | Some v => match matchCaptured true v x with
                        | Some y => m true WordB y Some
                        | None => None
                        end
            end) in H.
    cbn [caps lookupCap Nat.eqb] in H.
    destruct (matchCaptured true w1 _) as [y|] eqn:Hmc; [|destruct H as [? [=]]].
    apply matchCaptured_spec in Hmc as (w2 & post & Hr & Hm & ->).
    cbn [rest prev caps] in *. subst post2.
    cbn [m prev rest] in H.
    destruct (xorb _ _) eqn:He in H; [|destruct H as [? [=]]].
    exists w1, gap, w2, post.
    rewrite forallb_inClass_word in Hw1. rewrite forallb_inClass_space in Hgap.
    repeat split; auto.
  - intros (w1 & gap & w2 & post & -> & Hne1 & Hw1 & Hne2 & Hgap & Hm & _ & He).
    exists w1, (gap ++ w2 ++ post). split; [exact Hne1|]. split; [reflexivity|].
    split; [rewrite forallb_inClass_word; exact Hw1|].
    rewrite firstn_consumed.
    change (m true (Seq (Plus (Class isSpace)) ?r2) ?x ?k)
      with (m true (Plus (Class isSpace)) x (fun y => m true r2 y k)).
    apply plus_class. exists gap, (w2 ++ post). cbn [rest prev caps].
    split; [exact Hne2|]. split; [reflexivity|].
    split; [rewrite forallb_inClass_space; exact Hgap|].
    change (m true (Seq (Backref 1) WordB) ?x Some)
      with (match lookupCap 1 (caps x) with
            | None => m true WordB x Some
            | Some v => match matchCaptured true v x with
                        | Some y => m true WordB y Some
                        | None => None
                        end
            end).
    cbn [caps lookupCap Nat.eqb].
    assert (Hmc : matchCaptured true w1
                    (MState (lastOr (lastOr b w1) gap) (w2 ++ post) [(1%nat, w1)])
                  = Some (MState (lastOr (lastOr (lastOr b w1) gap) w2) post [(1%nat, w1)])).
    { apply matchCaptured_spec. exists w2, post. auto. }
    rewrite Hmc. cbn [m prev rest]. rewrite He. eauto.
Qed.

Lemma map_eq_nonempty {A B : Type} (f g : A -> B) (u v : list A) :
  map f u = map g v -> u <> [] -> v <> [].
Proof. destruct u, v; cbn; congruence. Qed.

(** The duplicate-word pattern finds exactly the titles with two
    identical words in a row. *)
Lemma duplicateWords_spec (t : string) :
  test patterns.duplicateWords t = true <-> hasRepeatedAsciiWord t.
Proof.
  unfold test, hasRepeatedAsciiWord, isWord. rewrite searchFrom_spec. split.
  - intros (pre & l & Ht & H). cbn [ignoreCase patterns.duplicateWords] in H.
    apply duplicateWords_at in H
      as (w1 & gap & w2 & post & -> & Hne1 & Hw1 & Hne2 & Hgap & Hm & Hb & He).
    apply (canon_eq_words w1 w2 Hw1) in Hm as Hm'. destruct Hm' as [Hw2 Hsame].
    assert (Hne3 : w2 <> []) by (eapply map_eq_nonempty; eauto).
    rewrite (head_word w1 _ Hne1 Hw1) in Hb.
    rewrite (lastOr_word _ w2 Hne3 Hw2) in He.
    exists pre, w1, gap, w2, post. repeat split; auto.
    + destruct (isWordAt (lastOr None pre)); [discriminate | reflexivity].
    + destruct (isWordAt (head post)); [discriminate | reflexivity].
  - intros (pre & w1 & gap & w2 & post & Ht & [Hne1 Hw1] & [Hne3 Hw2] & Hsame & Hne2 & Hgap
            & Hb & He).
    exists pre, (w1 ++ gap ++ w2 ++ post). split; [exact Ht|].
    cbn [ignoreCase patterns.duplicateWords].
    apply duplicateWords_at. exists w1, gap, w2, post.
    repeat split; auto.
    + apply (canon_eq_words w1 w2 Hw1). auto.
    + rewrite (head_word w1 _ Hne1 Hw1), Hb. reflexivity.
    + rewrite (lastOr_word _ w2 Hne3 Hw2), He. reflexivity.
Qed.

(** What the title pattern matches: one code unit that is not white
    space, or two of them around code units that are not line
    terminators. *)
Lemma title_at (b : option ascii) (l : list ascii) :
  is_Some (m false (source patterns.title) (MState b l []) Some)
  <-> b = None
      /\ exists c l', l = c :: l' /\ notSpace c = true
           /\ (l' = [] \/ exists mid d, l' = mid ++ [d] /\ forallb dot mid = true
                                        /\ notSpace d = true).
Proof.
  cbn [source patterns.title].
  change (m false (Seq Bol ?r) ?x ?k)
    with (match prev x with None => m false r x k | Some _ => None end).
  cbn [prev]. destruct b as [a|].
  { split; [intros [? [=]] | intros [[=] _]]. }
  change (m false (Seq (Class notSpace) ?r) ?x ?k)
    with (m false (Class notSpace) x (fun y => m false r y k)).
  rewrite m_Class_is_Some. cbn [rest caps inClass].
  split.
  - intros (c & l' & -> & Hc & H). split; [reflexivity|]. exists c, l'.
    split; [reflexivity|]. split; [exact Hc|].
    change (m false (Seq (Opt ?r1) Eol) ?x Some)
      with (match m false r1 x (fun y => m false Eol y Some) with
            | Some z => Some z
            | None => m false Eol x Some
            end) in H.
    destruct (m false (Seq (Star (Class dot)) (Class notSpace)) _ _) as [z|] eqn:Hl.
    + right.
      assert (Hs : is_Some (m false (Seq (Star (Class dot)) (Class notSpace))
                              (MState (Some c) l' []) (fun y => m false Eol y Some)))
        by (rewrite Hl; eauto).
      change (m false (Seq (Star (Class dot)) ?r2) ?x ?k)
        with (starLoop (m false (Class dot)) (fun y => m false r2 y k) (length (rest x)) x)
        in Hs.
      apply starLoop_class in Hs as (mid & post & Hr & Hmid & Hs); [|cbn; lia].
      apply m_Class_is_Some in Hs as (d & l2 & Hr2 & Hd & Hs).
      cbn [rest prev caps m inClass] in *. subst l' post.
      destruct l2; [|destruct Hs as [? [=]]]. exists mid, d. auto.
    + left. cbn [m rest] in H. destruct l'; [reflexivity | destruct H as [? [=]]].
  - intros (_ & c & l' & -> & Hc & Hl). exists c, l'. split; [reflexivity|].
    split; [exact Hc|].
    change (m false (Seq (Opt ?r1) Eol) ?x Some)
      with (match m false r1 x (fun y => m false Eol y Some) with
            | Some z => Some z
            | None => m false Eol x Some
            end).
    destruct (m false (Seq (Star (Class dot)) (Class notSpace)) _ _) as [z|] eqn:Hleft;
      [eauto|].
    destruct Hl as [-> | (mid & d & -> & Hmid & Hd)]; [cbn; eauto|].
    exfalso.
    assert (Hs : is_Some (m false (Seq (Star (Class dot)) (Class notSpace))
                            (MState (Some c) (mid ++ [d]) []) (fun y => m false Eol y Some))).
    { change (m false (Seq (Star (Class dot)) ?r2) ?x ?k)
        with (starLoop (m false (Class dot)) (fun y => m false r2 y k) (length (rest x)) x).
      apply starLoop_class; [cbn; lia|]. exists mid, [d]. cbn [rest prev caps].
      split; [reflexivity|]. split; [exact Hmid|].
      apply m_Class_is_Some. exists d, []. cbn [rest caps inClass m]. eauto. }
    rewrite Hleft in Hs. destruct Hs as [? [=]].
Qed.

Lemma title_spec (t : string) :
  test patterns.title t = true
  <-> exists c l, chars t = c :: l /\ notSpace c = true
        /\ (l = [] \/ exists mid d, l = mid ++ [d] /\ forallb dot mid = true
                                    /\ notSpace d = true).
Proof.
  unfold test. rewrite searchFrom_spec. cbn [ignoreCase patterns.title]. split.
  - intros (pre & l & Ht & H). apply title_at in H as [Hb H].
    destruct pre as [|a pre _] using rev_ind; [cbn in Ht; rewrite Ht; exact H|].
    rewrite lastOr_app in Hb. discriminate.
  - intros H. exists [], (chars t). split; [reflexivity|].
    apply title_at. split; [reflexivity | exact H].
Qed.

End Patterns.

(** ** The title rules *)

Section TitleRules.
Import Regex Validators.

Lemma getProp_setProp_other (key key' value : string) (o : dict) :
  String.eqb key' key = false ->
  getProp key (setProp key' value o) = getProp key o.
Proof.
  intros Hne. induction o as [|[k v] o IH]; cbn.
  - rewrite Hne. reflexivity.
  - destruct (String.eqb k key') eqn:Hk; cbn.
    + apply String.eqb_eq in Hk. subst k. rewrite Hne. reflexivity.
    + rewrite IH. reflexivity.
Qed.

Lemma titleError_titleRule (data : Task) :
  getProp "title" (validateTask data)
  = getProp "title" (titleRule (JsString.orElse (name data) (title data)) []).
Proof.
  unfold validateTask, cancelRule, dateRule, durationRule.
  repeat match goal with
         | |- context [if ?b then _ else _] => destruct b
         end;
    rewrite ?getProp_setProp_other by reflexivity; reflexivity.
Qed.

Lemma trim_empty (t : string) : isEmpty t = true -> isEmpty (trim t) = true.
Proof. destruct t; [reflexivity | discriminate]. Qed.

Lemma titleRule_cases (t : string) :
  getProp "title" (titleRule (Some t) [])
  = if isEmpty (trim t) then Some msgTitleRequired
    else if negb (test patterns.title t) then Some msgTitlePadding
    else if test patterns.duplicateWords t then Some msgTitleDuplicate
    else None.
Proof.
  unfold titleRule. destruct (isEmpty t) eqn:He.
  - rewrite (trim_empty t He). reflexivity.
  - cbn [orb]. destruct (isEmpty (trim t)); [reflexivity|].
    destruct (test patterns.title t); cbn [negb]; [|reflexivity].
    destruct (test patterns.duplicateWords t); reflexivity.
Qed.

Lemma trim_nonempty_chars (t : string) :
  isEmpty (trim t) = false -> exists c l, chars t = c :: l.
Proof.
  destruct t as [|c t]; [discriminate|]. intros _. cbn. eauto.
Qed.

Lemma last_split (c : ascii) (l : list ascii) :
  exists l' d, c :: l = l' ++ [d].
Proof.
  destruct (exists_last (l := c :: l)) as (l' & d & H); [discriminate|]. eauto.
Qed.

(** A padded title never passes the title pattern. *)
Lemma padded_fails_pattern (t : string) :
  isPadded t -> test patterns.title t = false.
Proof.
  intros Hp. destruct (test patterns.title t) eqn:Ht; [|reflexivity]. exfalso.
  apply title_spec in Ht as (c & l & Hc & Hns & Hl). unfold notSpace in *.
  destruct Hp as [(c' & l' & Hc' & Hs) | (l' & c' & Hc' & Hs)].
  - rewrite Hc in Hc'. injection Hc' as <- <-. rewrite Hs in Hns. discriminate.
  - destruct Hl as [-> | (mid & d & -> & _ & Hd)].
    + rewrite Hc in Hc'. destruct l' as [|? [|? ?]]; try discriminate.
      injection Hc' as <-. rewrite Hs in Hns. discriminate.
    + rewrite Hc in Hc'. change (c :: mid ++ [d]) with ((c :: mid) ++ [d]) in Hc'.
      apply app_inj_tail in Hc' as [_ <-]. rewrite Hs in Hd. discriminate.
Qed.

(** A title without line terminators fails the title pattern only when
    it is padded. *)
Lemma unpadded_passes_pattern (t : string) :
  isEmpty (trim t) = false ->
  forallb dot (chars t) = true ->
  test patterns.title t = false -> isPadded t.
Proof.
  intros Hne Hdot Ht. destruct (trim_nonempty_chars t Hne) as (c & l & Hc).
  destruct (isSpace c) eqn:Hs; [left; eauto|].
  destruct l as [|c2 l].
  { exfalso. assert (test patterns.title t = true); [|congruence].
    apply title_spec. exists c, []. unfold notSpace. rewrite Hs. auto. }
  destruct (last_split c2 l) as (mid & d & Hl).
  destruct (isSpace d) eqn:Hd.
  { right. exists (c :: mid), d. rewrite Hc, Hl. auto. }
  exfalso. assert (test patterns.title t = true); [|congruence].
  apply title_spec. exists c, (c2 :: l). unfold notSpace. rewrite Hs.
  split; [exact Hc|]. split; [reflexivity|]. right. exists mid, d.
  rewrite Hd. split; [exact Hl|]. split; [|reflexivity].
  rewrite Hc, Hl in Hdot. cbn [forallb] in Hdot.
  apply andb_true_iff in Hdot as [_ Hdot]. rewrite forallb_app in Hdot.
  apply andb_true_iff in Hdot as [Hdot _]. exact Hdot.
Qed.

End TitleRules.

(** The padding rule on titles without line terminators: the error is
    reported exactly for the padded ones.  A padded title is reported
    whatever it holds. *)
Theorem title_padding_rule :
  forall (data : Task) (t : string),
    JsString.orElse (name data) (title data) = Some t ->
    isEmpty (trim t) = false ->
    (isPadded t ->
     getProp "title" (Validators.validateTask data) = Some Validators.msgTitlePadding)
    /\ (forallb Validators.dot (chars t) = true ->
        getProp "title" (Validators.validateTask data) = Some Validators.msgTitlePadding ->
        isPadded t).
Proof.
  intros data t Ht Hne. rewrite titleError_titleRule, Ht, titleRule_cases, Hne. split.
  - intros Hp. rewrite (padded_fails_pattern t Hp). reflexivity.
  - intros Hdot. destruct (Regex.test Validators.patterns.title t) eqn:Hp; cbn [negb].
    + destruct (Regex.test Validators.patterns.duplicateWords t); discriminate.
    + intros _. apply unpadded_passes_pattern; assumption.
Qed.

(** C3: a title of two letters around a line feed has neither leading
    nor trailing white space and is not empty after trimming, and the
    validator reports it as padded. *)
Theorem title_with_inner_line_feed_is_reported_padded :
  let data := App.formData Examples.env0
                (Examples.form "" Examples.twoLines "1" "planned" "") in
  isEmpty (trim Examples.twoLines) = false
  /\ ~ isPadded Examples.twoLines
  /\ Validators.validateTask data = [("title", Validators.msgTitlePadding)].
Proof.
  split; [reflexivity|]. split; [|vm_compute; reflexivity].
  intros [(c & l & Hc & Hs) | (l & c & Hc & Hs)].
  - injection Hc as <- _. discriminate.
  - change (chars Examples.twoLines) with (["a"%char; "010"%char] ++ ["b"%char]) in Hc.
    apply app_inj_tail in Hc as [_ <-]. discriminate.
Qed.

(** The duplicate-word rule in the pattern's terms: on a title that
    passed the presence and padding rules the duplicate-word error is
    reported exactly when the title holds a repeated run of ASCII word
    characters; when one of the two earlier rules failed, the error
    reported for the title is that rule's and not the duplicate-word
    one. *)
Theorem repeated_ascii_word_rule :
  forall (data : Task) (t : string),
    JsString.orElse (name data) (title data) = Some t ->
    (isEmpty (trim t) = false ->
     Regex.test Validators.patterns.title t = true ->
     (getProp "title" (Validators.validateTask data) = Some Validators.msgTitleDuplicate
      <-> hasRepeatedAsciiWord t))
    /\ (isEmpty (trim t) = true ->
        getProp "title" (Validators.validateTask data) = Some Validators.msgTitleRequired)
    /\ (isEmpty (trim t) = false ->
        Regex.test Validators.patterns.title t = false ->
        getProp "title" (Validators.validateTask data) = Some Validators.msgTitlePadding).
Proof.
  intros data t Ht. rewrite titleError_titleRule, Ht, titleRule_cases.
  split; [|split].
  - intros -> ->. cbn [negb]. rewrite <- duplicateWords_spec.
    destruct (Regex.test Validators.patterns.duplicateWords t).
    + split; reflexivity.
    + split; discriminate.
  - intros ->. reflexivity.
  - intros -> ->. reflexivity.
Qed.

Lemma repeated_ascii_word_rule_witness :
  JsString.orElse (name Examples.renamed) (title Examples.renamed) = Some "Gym Gym"
  /\ isEmpty (trim "Gym Gym") = false
  /\ Regex.test Validators.patterns.title "Gym Gym" = true
  /\ (getProp "title" (Validators.validateTask Examples.renamed)
      = Some Validators.msgTitleDuplicate
      <-> hasRepeatedAsciiWord "Gym Gym").
Proof.
  destruct (repeated_ascii_word_rule Examples.renamed "Gym Gym") as (Hdup & _); [reflexivity|].
  split; [reflexivity|]. split; [reflexivity|]. split; [reflexivity|].
  apply Hdup; reflexivity.
Defined.

(** C4: the duplicate-word rule takes a word to be a run of ASCII
    letters, digits and underscores.  The title made of one word twice,
    with an accented letter at its end, passes the presence and padding
    rules and holds two identical words separated by a blank, and no
    error is reported for it; the title made of a word and of its last
    two letters, which holds no word twice, is reported for duplicate
    words, because the accented letter in the first word ends a run. *)
Theorem duplicate_word_rule_knows_ascii_words_only :
  let twice := App.formData Examples.env0
                 (Examples.form "" Examples.cafeCafe "1" "planned" "") in
  let once := App.formData Examples.env0
                (Examples.form "" Examples.teteTe "1" "planned" "") in
  hasIdenticalWords Examples.cafeCafe = true
  /\ isEmpty (trim Examples.cafeCafe) = false
  /\ Regex.test Validators.patterns.title Examples.cafeCafe = true
  /\ Validators.validateTask twice = []
  /\ hasIdenticalWords Examples.teteTe = false
  /\ Validators.validateTask once = [("title", Validators.msgTitleDuplicate)].
Proof. vm_compute. repeat split; reflexivity. Qed.

(** ** Which field the title rules read *)

Section TitleField.
Import Regex Validators.

Lemma dropSpaces_nil (l : list ascii) :
  dropSpaces l = [] <-> forallb isSpace l = true.
Proof.
  induction l as [|c l IH]; [split; reflexivity|].
  cbn [dropSpaces forallb]. destruct (isSpace c); cbn [andb]; [exact IH|].
  split; discriminate.
Qed.

Lemma dropSpaces_spaces (l : list ascii) :
  forallb isSpace (dropSpaces l) = true -> forallb isSpace l = true.
Proof.
  induction l as [|c l IH]; [reflexivity|].
  cbn [dropSpaces forallb]. destruct (isSpace c) eqn:Hc; cbn [andb]; [exact IH|].
  cbn [forallb]. rewrite Hc. discriminate.
Qed.

Lemma forallb_rev {A : Type} (p : A -> bool) (l : list A) :
  forallb p (rev l) = forallb p l.
Proof.
  induction l as [|c l IH]; [reflexivity|].
  cbn [rev forallb]. rewrite forallb_app, IH. cbn [forallb].
  rewrite andb_true_r. apply andb_comm.
Qed.

(** A text trims to the empty text exactly when it holds white space
    only. *)
Lemma trim_blank (t : string) :
  isEmpty (trim t) = forallb isSpace (chars t).
Proof.
  unfold trim, trimChars.
  assert (He : forall l, isEmpty (ofChars l) = true <-> l = []).
  { intros [|c l]; split; try reflexivity; discriminate. }
  apply eq_true_iff_eq. rewrite He. split.
  - intros H. apply (f_equal (@rev ascii)) in H. rewrite rev_involutive in H. cbn in H.
    apply dropSpaces_nil in H. rewrite forallb_rev in H.
    apply dropSpaces_spaces, H.
  - intros H. apply dropSpaces_nil in H. rewrite H. reflexivity.
Qed.

Lemma notSpace_dot (c : ascii) : notSpace c = true -> dot c = true.
Proof.
  unfold notSpace, dot, isSpace, isLineTerminator. intros H.
  destruct (N.eqb_spec (code c) 10) as [E|]; [rewrite E in H; discriminate H|].
  destruct (N.eqb_spec (code c) 13) as [E|]; [rewrite E in H; discriminate H|].
  reflexivity.
Qed.

(** A title that holds a line terminator fails the title pattern. *)
Lemma line_terminator_fails_pattern (t : string) :
  forallb dot (chars t) = false -> test patterns.title t = false.
Proof.
  intros Hdot. destruct (test patterns.title t) eqn:Ht; [|reflexivity].
  apply title_spec in Ht as (c & l & Hc & Hns & Hl).
  rewrite Hc in Hdot. cbn [forallb] in Hdot. rewrite (notSpace_dot c Hns) in Hdot.
  destruct Hl as [-> | (mid & d & -> & Hmid & Hd)]; [discriminate Hdot|].
  rewrite forallb_app, Hmid in Hdot. cbn [forallb] in Hdot.
  rewrite (notSpace_dot d Hd) in Hdot. discriminate Hdot.
Qed.

(** The error of the title rules on the text [t] they read, in terms of
    the text alone. *)
Lemma title_error_of_text (data : Task) (t : string) :
  JsString.orElse (name data) (title data) = Some t ->
  let error := getProp "title" (validateTask data) in
  (error = Some msgTitleRequired <-> forallb isSpace (chars t) = true)
  /\ (forallb isSpace (chars t) = false -> isPadded t -> error = Some msgTitlePadding)
  /\ (forallb isSpace (chars t) = false -> forallb dot (chars t) = false ->
      error = Some msgTitlePadding)
  /\ (forallb isSpace (chars t) = false -> forallb dot (chars t) = true ->
      (error = Some msgTitlePadding <-> isPadded t))
  /\ (forallb isSpace (chars t) = false -> forallb dot (chars t) = true ->
      ~ isPadded t ->
      (error = Some msgTitleDuplicate <-> hasRepeatedAsciiWord t)
      /\ (error = None <-> ~ hasRepeatedAsciiWord t)).
Proof.
  intros Ht error. subst error.
  rewrite titleError_titleRule, Ht, titleRule_cases, trim_blank.
  split; [|split; [|split; [|split]]].
  - destruct (forallb isSpace (chars t)); [split; reflexivity|].
    destruct (negb (test patterns.title t));
      [|destruct (test patterns.duplicateWords t)]; split; discriminate.
  - intros -> Hp. rewrite (padded_fails_pattern t Hp). reflexivity.
  - intros -> Hdot. rewrite (line_terminator_fails_pattern t Hdot). reflexivity.
  - intros Hb Hdot. rewrite Hb. split.
    + destruct (test patterns.title t) eqn:Hp; cbn [negb].
      * destruct (test patterns.duplicateWords t); discriminate.
      * intros _. apply unpadded_passes_pattern; [rewrite trim_blank|..]; assumption.
    + intros Hp. rewrite (padded_fails_pattern t Hp). reflexivity.
  - intros Hb Hdot Hn. rewrite Hb.
    assert (Hp : test patterns.title t = true).
    { destruct (test patterns.title t) eqn:Hp; [reflexivity|]. exfalso. apply Hn.
      apply unpadded_passes_pattern; [rewrite trim_blank|..]; assumption. }
    rewrite Hp. cbn [negb]. rewrite <- duplicateWords_spec.
    destruct (test patterns.duplicateWords t); split; split;
      try reflexivity; try discriminate; intros H; exfalso; apply H; reflexivity.
Qed.

Lemma orElse_name (data : Task) (n : string) :
  name data = Some n -> isEmpty n = false ->
  JsString.orElse (name data) (title data) = Some n.
Proof.
  intros Hn He. unfold JsString.orElse, JsString.truthy. rewrite Hn, He. reflexivity.
Qed.

End TitleField.

(** C10: when [name] is a non-empty string the three title rules are
    run on it, and the record's [title] is not read: the title is
    reported as required exactly when the name holds white space only;
    a name that is not blank is reported as padded when it starts or ends
    with white space or holds a line terminator, and only then; a name
    that is neither is reported for duplicate words exactly when it
    holds a repeated word of ASCII word characters, and is otherwise
    accepted.  A record without a name, or with the empty one, is
    validated as the record whose name is its title.  The search text of
    a task starts with [title] when that is a non-empty string and with
    [name] otherwise. *)
Theorem validateTask_prefers_name :
  forall (data : Task) (n : string),
    name data = Some n ->
    isEmpty n = false ->
    let error := getProp "title" (Validators.validateTask data) in
    (forall t, Validators.validateTask (withTitle data t) = Validators.validateTask data)
    /\ (error = Some Validators.msgTitleRequired <-> forallb isSpace (chars n) = true)
    /\ (forallb isSpace (chars n) = false -> isPadded n ->
        error = Some Validators.msgTitlePadding)
    /\ (forallb isSpace (chars n) = false -> forallb Validators.dot (chars n) = false ->
        error = Some Validators.msgTitlePadding)
    /\ (forallb isSpace (chars n) = false -> forallb Validators.dot (chars n) = true ->
        (error = Some Validators.msgTitlePadding <-> isPadded n))
    /\ (forallb isSpace (chars n) = false -> forallb Validators.dot (chars n) = true ->
        ~ isPadded n ->
        (error = Some Validators.msgTitleDuplicate <-> hasRepeatedAsciiWord n)
        /\ (error = None <-> ~ hasRepeatedAsciiWord n))
    /\ (forall d, name d = None \/ name d = Some "" ->
                  Validators.validateTask d = Validators.validateTask (withName d (title d)))
    /\ (forall task, SearchEngine.content task
                     = (firstPresent (title task) (name task) ++ otherFields task)%string)
    /\ (forall r l, SearchEngine.filterTasks l (Some r)
                    = List.filter
                        (fun t => fst (SearchEngine.test (SearchEngine.setLastIndex r 0)
                                         (firstPresent (title t) (name t) ++ otherFields t)%string))
                        l).
Proof.
  intros data n Hn He error.
  destruct (title_error_of_text data n (orElse_name data n Hn He))
    as (Hrequired & Hpadded & Hbroken & Hpadding & Hduplicate).
  split; [|split; [exact Hrequired|split; [exact Hpadded|split; [exact Hbroken|
    split; [exact Hpadding|split; [exact Hduplicate|split; [|split]]]]]]].
  - intros t. unfold Validators.validateTask, withTitle.
    cbn [name title duration date status cancelReason].
    unfold JsString.orElse, JsString.truthy. rewrite Hn, He. reflexivity.
  - intros d Hd. unfold Validators.validateTask, withName.
    cbn [name title duration date status cancelReason].
    unfold JsString.orElse, JsString.truthy.
    destruct Hd as [-> | ->]; cbn [isEmpty negb];
      destruct (title d) as [[|c t]|]; reflexivity.
  - apply content_text.
  - intros r l. unfold SearchEngine.filterTasks. rewrite filterLoop_filter.
    apply filter_ext. intros t. rewrite content_text. reflexivity.
Qed.

Lemma validateTask_prefers_name_witness :
  name Examples.renamed = Some "Gym Gym"
  /\ title Examples.renamed = Some "Study Math"
  /\ getProp "title" (Validators.validateTask Examples.renamed)
     = Some Validators.msgTitleDuplicate
  /\ Validators.validateTask (withTitle Examples.renamed (Some " padded "))
     = Validators.validateTask Examples.renamed.
Proof.
  destruct (validateTask_prefers_name Examples.renamed "Gym Gym")
    as (Hignored & _ & _ & _ & _ & Hduplicate & _); [reflexivity | reflexivity |].
  split; [reflexivity|]. split; [reflexivity|]. split; [|apply Hignored].
  apply Hduplicate; try reflexivity.
  - intros [(c & l & Hc & Hs) | (l & c & Hc & Hs)].
    + injection Hc as <- _. discriminate Hs.
    + change (chars "Gym Gym") with (chars "Gym Gy" ++ ["m"%char]) in Hc.
      apply app_inj_tail in Hc as [_ <-]. discriminate Hs.
  - exists [], (chars "Gym"), [" "%char], (chars "Gym"), [].
    repeat split; try reflexivity; discriminate.
Defined.

(** ** Rounding to the nearest number *)

Section Rounding.
Import JsNumber.

Lemma pow_max_pos (base e : Z) : 0 < base -> 1 <= base ^ Z.max 0 e.
Proof.
  intros Hb. assert (0 < base ^ Z.max 0 e) by (apply Z.pow_pos_nonneg; lia). lia.
Qed.

(** The identity that moves a power from one exponent to another. *)
Lemma pow_max_swap (base e1 e2 : Z) :
  0 < base ->
  base ^ Z.max 0 e1 * base ^ Z.max 0 (- e2) * base ^ Z.max 0 (e2 - e1)
  = base ^ Z.max 0 (- e1) * base ^ Z.max 0 e2 * base ^ Z.max 0 (e1 - e2).
Proof.
  intros Hb. rewrite <- !Z.pow_add_r by lia. f_equal. lia.
Qed.

Lemma pow_max_nonpos (base e : Z) : e <= 0 -> base ^ Z.max 0 e = 1.
Proof. intros H. replace (Z.max 0 e) with 0 by lia. reflexivity. Qed.

(** [a / b >= base^e], cross-multiplied. *)
Lemma ratio_ge_mono (base a b e e' : Z) :
  0 < base -> 0 <= a -> 0 < b -> e' <= e ->
  b * base ^ Z.max 0 e <= a * base ^ Z.max 0 (- e) ->
  b * base ^ Z.max 0 e' <= a * base ^ Z.max 0 (- e').
Proof.
  intros Hb Ha Hb' Hle H.
  pose proof (pow_max_swap base e e' Hb) as T.
  rewrite (pow_max_nonpos base (e' - e)) in T by lia.
  pose proof (pow_max_pos base e Hb). pose proof (pow_max_pos base (- e) Hb).
  pose proof (pow_max_pos base e' Hb). pose proof (pow_max_pos base (- e') Hb).
  pose proof (pow_max_pos base (e - e') Hb).
  set (P1 := base ^ Z.max 0 e) in *. set (N1 := base ^ Z.max 0 (- e)) in *.
  set (P2 := base ^ Z.max 0 e') in *. set (N2 := base ^ Z.max 0 (- e')) in *.
  set (D := base ^ Z.max 0 (e - e')) in *.
  (* P1 * N2 = N1 * P2 * D *)
  apply Z.mul_le_mono_pos_r with (p := N1 * D); [nia|].
  replace (b * P2 * (N1 * D)) with (b * (N1 * P2 * D)) by ring.
  rewrite <- T.
  assert (b * P1 * N2 <= a * N1 * N2) by (apply Z.mul_le_mono_nonneg_r; lia).
  assert (0 <= a * N1 * N2) by (repeat apply Z.mul_nonneg_nonneg; lia).
  assert (a * N1 * N2 * 1 <= a * N1 * N2 * D) by (apply Z.mul_le_mono_nonneg_l; lia).
  replace (b * (P1 * N2 * 1)) with (b * P1 * N2) by ring.
  replace (a * N2 * (N1 * D)) with (a * N1 * N2 * D) by ring. lia.
Qed.

Lemma ratio_lt_mono (base a b e e' : Z) :
  0 < base -> 0 <= a -> 0 < b -> e <= e' ->
  a * base ^ Z.max 0 (- e) < b * base ^ Z.max 0 e ->
  a * base ^ Z.max 0 (- e') < b * base ^ Z.max 0 e'.
Proof.
  intros Hb Ha Hb' Hle H.
  destruct (Z_lt_le_dec (a * base ^ Z.max 0 (- e')) (b * base ^ Z.max 0 e')) as [|Hge];
    [assumption|].
  pose proof (ratio_ge_mono base a b e' e Hb Ha Hb' Hle Hge). lia.
Qed.


Lemma bracket2_unique (a b l l' : Z) :
  0 <= a -> 0 < b -> bracket2 a b l -> bracket2 a b l' -> l = l'.
Proof.
  intros Ha Hb [Hge Hlt] [Hge' Hlt'].
  destruct (Z.lt_trichotomy l l') as [H | [H | H]]; [|assumption|]; exfalso.
  - pose proof (ratio_ge_mono 2 a b l' (l + 1) ltac:(lia) Ha Hb ltac:(lia) Hge'). lia.
  - pose proof (ratio_ge_mono 2 a b l (l' + 1) ltac:(lia) Ha Hb ltac:(lia) Hge). lia.
Qed.

Lemma bracket2_scale (a b c l : Z) :
  0 < c -> bracket2 (a * c) (b * c) l <-> bracket2 a b l.
Proof. intros Hc. unfold bracket2. split; intros [H1 H2]; split; nia. Qed.

Lemma log2_bracket (a : Z) : 0 < a -> bracket2 a 1 (Z.log2 a).
Proof.
  intros Ha. pose proof (Z.log2_spec a Ha) as [H1 H2]. pose proof (Z.log2_nonneg a).
  unfold bracket2. rewrite (pow_max_nonpos 2 (- Z.log2 a)) by lia.
  rewrite (pow_max_nonpos 2 (- (Z.log2 a + 1))) by lia.
  replace (Z.max 0 (Z.log2 a)) with (Z.log2 a) by lia.
  replace (Z.max 0 (Z.log2 a + 1)) with (Z.succ (Z.log2 a)) by lia. lia.
Qed.

Lemma floorLog2_spec (a b : Z) : 0 < a -> 0 < b -> bracket2 a b (floorLog2 a b).
Proof.
  intros Ha Hb. unfold floorLog2, scaled, shift.
  pose proof (Z.log2_spec a Ha) as [Ha1 Ha2]. pose proof (Z.log2_spec b Hb) as [Hb1 Hb2].
  pose proof (Z.log2_nonneg a). pose proof (Z.log2_nonneg b).
  set (la := Z.log2 a) in *. set (lb := Z.log2 b) in *. set (l0 := la - lb).
  rewrite Z.opp_involutive.
  destruct (Z.leb_spec (b * 2 ^ Z.max 0 l0) (a * 2 ^ Z.max 0 (- l0))) as [Hge | Hlt].
  - split; [exact Hge|].
    assert (E : 2 ^ Z.succ la * 2 ^ Z.max 0 (- (l0 + 1)) = 2 ^ lb * 2 ^ Z.max 0 (l0 + 1))
      by (rewrite <- !Z.pow_add_r by lia; f_equal; lia).
    pose proof (pow_max_pos 2 (- (l0 + 1)) ltac:(lia)).
    pose proof (pow_max_pos 2 (l0 + 1) ltac:(lia)).
    apply Z.lt_le_trans with (2 ^ Z.succ la * 2 ^ Z.max 0 (- (l0 + 1))).
    + apply Z.mul_lt_mono_pos_r; lia.
    + rewrite E. apply Z.mul_le_mono_nonneg_r; lia.
  - split.
    + assert (E : 2 ^ Z.succ lb * 2 ^ Z.max 0 (l0 - 1) = 2 ^ la * 2 ^ Z.max 0 (- (l0 - 1)))
        by (rewrite <- !Z.pow_add_r by lia; f_equal; lia).
      pose proof (pow_max_pos 2 (- (l0 - 1)) ltac:(lia)).
      pose proof (pow_max_pos 2 (l0 - 1) ltac:(lia)).
      apply Z.le_trans with (2 ^ Z.succ lb * 2 ^ Z.max 0 (l0 - 1)).
      * apply Z.mul_le_mono_nonneg_r; lia.
      * rewrite E. apply Z.mul_le_mono_nonneg_r; lia.
    + replace (l0 - 1 + 1) with l0 by lia. exact Hlt.
Qed.

Lemma floorLog2_unique (a b l : Z) :
  0 < a -> 0 < b -> bracket2 a b l -> floorLog2 a b = l.
Proof.
  intros Ha Hb H. apply (bracket2_unique a b); try lia; [|exact H].
  apply floorLog2_spec; assumption.
Qed.

Lemma floorLog2_scale (a b c : Z) :
  0 < a -> 0 < b -> 0 < c -> floorLog2 (a * c) (b * c) = floorLog2 a b.
Proof.
  intros Ha Hb Hc. apply floorLog2_unique; try nia.
  apply bracket2_scale; [assumption|]. apply floorLog2_spec; assumption.
Qed.

Lemma roundHalfEven_scale (p q c : Z) :
  0 < q -> 0 < c -> roundHalfEven (p * c) (q * c) = roundHalfEven p q.
Proof.
  intros Hq Hc. unfold roundHalfEven.
  rewrite Z.div_mul_cancel_r by lia. rewrite Zmult_mod_distr_r.
  replace (2 * (p mod q * c) ?= q * c) with (2 * (p mod q) ?= q); [reflexivity|].
  replace (2 * (p mod q * c)) with (2 * (p mod q) * c) by ring.
  apply Zmult_compare_compat_r. lia.
Qed.

Lemma roundHalfEven_exact (m q : Z) : 0 < q -> roundHalfEven (m * q) q = m.
Proof.
  intros Hq. unfold roundHalfEven. rewrite Z.div_mul, Z.mod_mul by lia.
  change (2 * 0) with 0. destruct (Z.compare_spec 0 q); lia.
Qed.

(** The nearest number depends on the value of the fraction only. *)
Lemma roundRatio_scale (neg : bool) (a b c : Z) :
  0 < b -> 0 < c -> roundRatio neg (a * c) (b * c) = roundRatio neg a b.
Proof.
  intros Hb Hc. unfold roundRatio.
  destruct (Z.leb_spec a 0) as [Ha | Ha].
  - replace (a * c <=? 0) with true by (symmetry; apply Z.leb_le; nia). reflexivity.
  - replace (a * c <=? 0) with false by (symmetry; apply Z.leb_gt; nia).
    rewrite floorLog2_scale by assumption.
    set (e := Z.max (floorLog2 a b - 52) (-1074)). unfold scaled, shift.
    pose proof (pow_max_pos 2 (- - e) ltac:(lia)).
    replace (a * c * 2 ^ Z.max 0 (- e)) with (a * 2 ^ Z.max 0 (- e) * c) by ring.
    replace (b * c * 2 ^ Z.max 0 (- - e)) with (b * 2 ^ Z.max 0 (- - e) * c) by ring.
    rewrite roundHalfEven_scale by nia. reflexivity.
Qed.

Lemma roundRatio_equal (neg : bool) (a b a' b' : Z) :
  0 < b -> 0 < b' -> a * b' = a' * b -> roundRatio neg a b = roundRatio neg a' b'.
Proof.
  intros Hb Hb' H.
  rewrite <- (roundRatio_scale neg a b b') by assumption.
  rewrite <- (roundRatio_scale neg a' b' b) by assumption.
  rewrite H. f_equal. ring.
Qed.

Lemma digits2_size (m : positive) : digits2_pos m = Pos.size m.
Proof. induction m; cbn; congruence. Qed.

Lemma digits2_log2 (m : positive) : Zpos (digits2_pos m) = Z.log2 (Zpos m) + 1.
Proof.
  rewrite digits2_size. destruct m; cbn [Pos.size Z.log2]; rewrite ?Pos2Z.inj_succ; lia.
Qed.

(** A valid finite number: its mantissa has 53 bits, or fewer at the
    least exponent. *)
Lemma bounded_spec (m : positive) (e : Z) :
  bounded prec emax m e = true ->
  Z.max (Z.log2 (Zpos m) - 52 + e) (-1074) = e /\ e <= 971.
Proof.
  unfold bounded, canonical_mantissa, fexp, SpecFloat.emin, prec, emax.
  intros H. apply andb_true_iff in H as [H1 H2].
  apply Z.eqb_eq in H1. apply Z.leb_le in H2. rewrite digits2_log2 in H1. lia.
Qed.

Lemma fraction_bracket (m : positive) (e : Z) :
  bracket2 (fst (fraction m e)) (snd (fraction m e)) (Z.log2 (Zpos m) + e).
Proof.
  unfold fraction, shift. cbn [fst snd]. rewrite Z.mul_1_l.
  pose proof (Z.log2_spec (Zpos m) ltac:(lia)) as [H1 H2].
  pose proof (Z.log2_nonneg (Zpos m)) as Hn.
  set (lm := Z.log2 (Zpos m)) in *.
  split.
  - pose proof (pow_max_swap 2 e (lm + e) ltac:(lia)) as T.
    rewrite (pow_max_nonpos 2 (e - (lm + e))) in T by lia.
    replace (Z.max 0 (lm + e - e)) with lm in T by lia.
    pose proof (pow_max_pos 2 e ltac:(lia)). pose proof (pow_max_pos 2 (- (lm + e)) ltac:(lia)).
    rewrite Z.mul_1_r in T. rewrite <- T.
    replace (Zpos m * 2 ^ Z.max 0 e * 2 ^ Z.max 0 (- (lm + e)))
      with (2 ^ Z.max 0 e * 2 ^ Z.max 0 (- (lm + e)) * Zpos m) by ring.
    apply Z.mul_le_mono_nonneg_l; nia.
  - pose proof (pow_max_swap 2 e (lm + e + 1) ltac:(lia)) as T.
    rewrite (pow_max_nonpos 2 (e - (lm + e + 1))) in T by lia.
    replace (Z.max 0 (lm + e + 1 - e)) with (Z.succ lm) in T by lia.
    pose proof (pow_max_pos 2 e ltac:(lia)).
    pose proof (pow_max_pos 2 (- (lm + e + 1)) ltac:(lia)).
    rewrite Z.mul_1_r in T. rewrite <- T.
    replace (Zpos m * 2 ^ Z.max 0 e * 2 ^ Z.max 0 (- (lm + e + 1)))
      with (2 ^ Z.max 0 e * 2 ^ Z.max 0 (- (lm + e + 1)) * Zpos m) by ring.
    apply Z.mul_lt_mono_pos_l; nia.
Qed.

Lemma fraction_pos (m : positive) (e : Z) :
  0 < fst (fraction m e) /\ 0 < snd (fraction m e).
Proof.
  unfold fraction, shift. cbn [fst snd].
  pose proof (pow_max_pos 2 e ltac:(lia)). pose proof (pow_max_pos 2 (- e) ltac:(lia)). nia.
Qed.

(** The number nearest to the value of a valid number is that number. *)
Lemma roundRatio_exact (neg : bool) (m : positive) (e : Z) :
  bounded prec emax m e = true ->
  roundRatio neg (fst (fraction m e)) (snd (fraction m e)) = S754_finite neg m e.
Proof.
  intros Hv. apply bounded_spec in Hv as [Hc He].
  destruct (fraction_pos m e) as [Ha Hb].
  unfold roundRatio. replace (fst (fraction m e) <=? 0) with false
    by (symmetry; apply Z.leb_gt; exact Ha).
  rewrite (floorLog2_unique _ _ _ Ha Hb (fraction_bracket m e)).
  replace (Z.max (Z.log2 (Zpos m) + e - 52) (-1074)) with e by lia.
  unfold scaled, fraction, shift. cbn [fst snd]. rewrite Z.opp_involutive, Z.mul_1_l.
  pose proof (pow_max_pos 2 e ltac:(lia)). pose proof (pow_max_pos 2 (- e) ltac:(lia)).
  replace (Zpos m * 2 ^ Z.max 0 e * 2 ^ Z.max 0 (- e))
    with (Zpos m * (2 ^ Z.max 0 (- e) * 2 ^ Z.max 0 e)) by ring.
  rewrite roundHalfEven_exact by nia.
  pose proof (Z.log2_spec (Zpos m) ltac:(lia)) as [_ H2].
  assert (Hlt : Zpos m < 2 ^ 53).
  { apply Z.lt_le_trans with (2 ^ Z.succ (Z.log2 (Zpos m))); [exact H2|].
    apply Z.pow_le_mono_r; lia. }
  replace (Zpos m =? 2 ^ 53) with false by (symmetry; apply Z.eqb_neq; lia).
  replace (e <=? 971) with true by (symmetry; apply Z.leb_le; lia). reflexivity.
Qed.

End Rounding.

(** ** The decimal exponent and the shortest digits *)

Section Shortest.
Import JsNumber.

Lemma pow10_pos (n : Z) : 0 <= n -> 0 < 10 ^ n.
Proof. intros. apply Z.pow_pos_nonneg; lia. Qed.

Lemma countDigits_spec (fuel : nat) :
  forall z, 1 <= z < 10 ^ Z.of_nat fuel ->
    1 <= countDigits fuel z /\ 10 ^ (countDigits fuel z - 1) <= z < 10 ^ countDigits fuel z.
Proof.
  induction fuel as [|fuel IH]; intros z Hz.
  - cbn in Hz. lia.
  - cbn [countDigits]. destruct (Z.ltb_spec z 10) as [Hlt | Hge].
    + cbn. lia.
    + rewrite Nat2Z.inj_succ, Z.pow_succ_r in Hz by lia.
      destruct (IH (z / 10)) as (H1 & H2 & H3).
      { split; [apply Z.div_le_lower_bound; lia | apply Z.div_lt_upper_bound; lia]. }
      set (n := countDigits fuel (z / 10)) in *.
      replace (1 + n - 1) with (Z.succ (n - 1)) by lia.
      replace (1 + n) with (Z.succ n) by lia.
      rewrite !Z.pow_succ_r by lia.
      pose proof (Z.div_mod z 10 ltac:(lia)). pose proof (Z.mod_pos_bound z 10 ltac:(lia)).
      split; [lia|]. split; lia.
Qed.

Lemma log2_fuel (z : Z) : 0 < z -> z < 10 ^ Z.of_nat (S (Z.to_nat (Z.log2 z))).
Proof.
  intros Hz. pose proof (Z.log2_spec z Hz) as [_ H]. pose proof (Z.log2_nonneg z).
  rewrite Nat2Z.inj_succ, Z2Nat.id by lia.
  apply Z.lt_le_trans with (2 ^ Z.succ (Z.log2 z)); [exact H|].
  apply Z.pow_le_mono_l. lia.
Qed.

Lemma numDigits_spec (z : Z) :
  1 <= z -> 1 <= numDigits z /\ 10 ^ (numDigits z - 1) <= z < 10 ^ numDigits z.
Proof.
  intros Hz. apply countDigits_spec. split; [exact Hz | apply log2_fuel; lia].
Qed.

Lemma leadingShift_spec (fuel : nat) :
  forall a b, 0 < a -> a < b -> b <= 10 ^ Z.of_nat fuel * a ->
    1 <= leadingShift fuel a b
    /\ 10 ^ (leadingShift fuel a b - 1) * a < b <= 10 ^ leadingShift fuel a b * a.
Proof.
  induction fuel as [|fuel IH]; intros a b Ha Hab Hb.
  - cbn in Hb. lia.
  - cbn [leadingShift]. destruct (Z.leb_spec b (10 * a)) as [Hle | Hgt].
    + cbn. lia.
    + rewrite Nat2Z.inj_succ, Z.pow_succ_r in Hb by lia.
      destruct (IH (10 * a) b) as (H1 & H2 & H3); [lia | lia | lia |].
      set (t := leadingShift fuel (10 * a) b) in *.
      replace (1 + t - 1) with (Z.succ (t - 1)) by lia.
      replace (1 + t) with (Z.succ t) by lia.
      rewrite !Z.pow_succ_r by lia. split; [lia|]. split; lia.
Qed.


Lemma decimalExponent_spec (a b : Z) :
  0 < a -> 0 < b -> bracket10 a b (decimalExponent a b).
Proof.
  intros Ha Hb. unfold decimalExponent, bracket10.
  destruct (Z.leb_spec b a) as [Hle | Hlt].
  - assert (Hz : 1 <= a / b) by (apply Z.div_le_lower_bound; lia).
    destruct (numDigits_spec (a / b) Hz) as (H1 & H2 & H3).
    set (n := numDigits (a / b)) in *.
    rewrite (pow_max_nonpos 10 (- (n - 1))), (pow_max_nonpos 10 (- n)) by lia.
    replace (Z.max 0 (n - 1)) with (n - 1) by lia. replace (Z.max 0 n) with n by lia.
    pose proof (Z.mul_div_le a b Hb). pose proof (Z.mul_succ_div_gt a b Hb).
    split; nia.
  - destruct (leadingShift_spec (S (Z.to_nat (Z.log2 b))) a b Ha Hlt) as (H1 & H2 & H3).
    { pose proof (log2_fuel b Hb). nia. }
    set (t := leadingShift _ a b) in *.
    replace (1 - t - 1) with (- t) by lia.
    rewrite (pow_max_nonpos 10 (- t)), (pow_max_nonpos 10 (1 - t)) by lia.
    replace (Z.max 0 (- - t)) with t by lia.
    replace (Z.max 0 (- (1 - t))) with (t - 1) by lia. split; lia.
Qed.

(** Comparisons of a shifted fraction are comparisons of the fraction
    at the shifted exponent. *)
Lemma shift_ge (a b p e : Z) :
  0 <= a -> 0 < b ->
  snd (shift 10 a b (- p)) * 10 ^ Z.max 0 e <= fst (shift 10 a b (- p)) * 10 ^ Z.max 0 (- e)
  <-> b * 10 ^ Z.max 0 (e + p) <= a * 10 ^ Z.max 0 (- (e + p)).
Proof.
  intros Ha Hb. unfold shift. cbn [fst snd]. rewrite Z.opp_involutive.
  assert (E : 10 ^ Z.max 0 p * 10 ^ Z.max 0 e * 10 ^ Z.max 0 (- (e + p))
              = 10 ^ Z.max 0 (- p) * 10 ^ Z.max 0 (- e) * 10 ^ Z.max 0 (e + p))
    by (rewrite <- !Z.pow_add_r by lia; f_equal; lia).
  pose proof (pow_max_pos 10 p ltac:(lia)). pose proof (pow_max_pos 10 (- p) ltac:(lia)).
  pose proof (pow_max_pos 10 e ltac:(lia)). pose proof (pow_max_pos 10 (- e) ltac:(lia)).
  pose proof (pow_max_pos 10 (e + p) ltac:(lia)).
  pose proof (pow_max_pos 10 (- (e + p)) ltac:(lia)).
  set (X := 10 ^ Z.max 0 p * 10 ^ Z.max 0 e) in *.
  set (Y := 10 ^ Z.max 0 (- p) * 10 ^ Z.max 0 (- e)) in *.
  set (U := 10 ^ Z.max 0 (e + p)) in *. set (V := 10 ^ Z.max 0 (- (e + p))) in *.
  assert (HX : 0 < X) by (unfold X; apply Z.mul_pos_pos; lia).
  assert (HY : 0 < Y) by (unfold Y; apply Z.mul_pos_pos; lia).
  replace (b * 10 ^ Z.max 0 p * 10 ^ Z.max 0 e) with (b * X) by (unfold X; ring).
  replace (a * 10 ^ Z.max 0 (- p) * 10 ^ Z.max 0 (- e)) with (a * Y) by (unfold Y; ring).
  split; intros Hle.
  - apply Z.mul_le_mono_pos_r with (p := X); [exact HX|].
    replace (a * V * X) with (a * (X * V)) by ring. rewrite E.
    replace (b * U * X) with (b * X * U) by ring.
    replace (a * (Y * U)) with (a * Y * U) by ring.
    apply Z.mul_le_mono_nonneg_r; lia.
  - apply Z.mul_le_mono_pos_r with (p := V); [lia|].
    replace (a * Y * V) with (a * (Y * V)) by ring.
    apply Z.mul_le_mono_pos_r with (p := U); [lia|].
    replace (a * (Y * V) * U) with (a * V * (Y * U)) by ring. rewrite <- E.
    replace (b * X * V * U) with (b * U * (X * V)) by ring.
    apply Z.mul_le_mono_nonneg_r; [apply Z.mul_nonneg_nonneg; lia | exact Hle].
Qed.

Lemma shift_lt (a b p e : Z) :
  0 <= a -> 0 < b ->
  fst (shift 10 a b (- p)) * 10 ^ Z.max 0 (- e) < snd (shift 10 a b (- p)) * 10 ^ Z.max 0 e
  <-> a * 10 ^ Z.max 0 (- (e + p)) < b * 10 ^ Z.max 0 (e + p).
Proof.
  intros Ha Hb. pose proof (shift_ge a b p e Ha Hb) as H. split; intros Hlt.
  - apply Z.nle_gt. intros Hc. apply H in Hc. lia.
  - apply Z.nle_gt. intros Hc. apply H in Hc. lia.
Qed.

Lemma numberEq_eq (x y : number) : numberEq x y = true -> x = y.
Proof.
  destruct x as [s1|s1| |s1 m1 e1], y as [s2|s2| |s2 m2 e2]; cbn; try discriminate; intros H.
  - apply eqb_prop in H. congruence.
  - apply eqb_prop in H. congruence.
  - reflexivity.
  - apply andb_true_iff in H as [H H3]. apply andb_true_iff in H as [H1 H2].
    apply eqb_prop in H1. apply Pos.eqb_eq in H2. apply Z.eqb_eq in H3. congruence.
Qed.

Lemma numberEq_refl (x : number) : numberEq x x = true.
Proof.
  destruct x as [s|s| |s m e]; cbn; rewrite ?eqb_reflx, ?Pos.eqb_refl, ?Z.eqb_refl; reflexivity.
Qed.

Lemma numberEq_refl_iff (x y : number) : numberEq x y = true <-> x = y.
Proof. split; [apply numberEq_eq | intros ->; apply numberEq_refl]. Qed.

Lemma candidate_range (a b n : Z) (k : nat) :
  0 < a -> 0 < b -> bracket10 a b n -> (1 <= k)%nat ->
  let num := fst (shift 10 a b (- (n - Z.of_nat k))) in
  let den := snd (shift 10 a b (- (n - Z.of_nat k))) in
  0 < den /\ 10 ^ (Z.of_nat k - 1) <= num / den < 10 ^ Z.of_nat k.
Proof.
  intros Ha Hb [Hlo Hhi] Hk num den.
  assert (Hden : 0 < den).
  { unfold den, shift. cbn [snd].
    pose proof (pow_max_pos 10 (- - (n - Z.of_nat k)) ltac:(lia)). nia. }
  split; [exact Hden|].
  pose proof (proj2 (shift_ge a b (n - Z.of_nat k) (Z.of_nat k - 1) ltac:(lia) Hb)) as H1.
  replace (Z.of_nat k - 1 + (n - Z.of_nat k)) with (n - 1) in H1 by lia.
  specialize (H1 Hlo). fold num den in H1.
  rewrite (pow_max_nonpos 10 (- (Z.of_nat k - 1))) in H1 by lia.
  replace (Z.max 0 (Z.of_nat k - 1)) with (Z.of_nat k - 1) in H1 by lia.
  pose proof (proj2 (shift_lt a b (n - Z.of_nat k) (Z.of_nat k) ltac:(lia) Hb)) as H2.
  replace (Z.of_nat k + (n - Z.of_nat k)) with n in H2 by lia.
  specialize (H2 Hhi). fold num den in H2.
  rewrite (pow_max_nonpos 10 (- Z.of_nat k)) in H2 by lia.
  replace (Z.max 0 (Z.of_nat k)) with (Z.of_nat k) in H2 by lia.
  split.
  - apply Z.div_le_lower_bound; lia.
  - apply Z.div_lt_upper_bound; lia.
Qed.

Lemma ofDecimal_carry (neg : bool) (k p : Z) :
  1 <= k -> ofDecimal neg (10 ^ k) p = ofDecimal neg (10 ^ (k - 1)) (p + 1).
Proof.
  intros Hk. unfold ofDecimal, shift. rewrite !Z.mul_1_l.
  apply roundRatio_equal; try (apply Z.pow_pos_nonneg; lia).
  rewrite <- !Z.pow_add_r by lia. f_equal. lia.
Qed.

Lemma candidate_sound (x : number) (a b n : Z) (k : nat) (s n' : Z) :
  0 < a -> 0 < b -> bracket10 a b n -> (1 <= k)%nat ->
  candidate x a b n k = Some (s, n') ->
  ofDecimal false s (n' - Z.of_nat k) = x /\ 10 ^ (Z.of_nat k - 1) <= s < 10 ^ Z.of_nat k.
Proof.
  intros Ha Hb Hn Hk. unfold candidate.
  destruct (candidate_range a b n k Ha Hb Hn Hk) as (Hden & Hlo & Hhi).
  destruct (shift 10 a b (- (n - Z.of_nat k))) as [num den]. cbn [fst snd] in *.
  set (lo := num / den) in *. set (p := n - Z.of_nat k).
  assert (Hpow : 10 ^ Z.of_nat k = 10 * 10 ^ (Z.of_nat k - 1)).
  { replace (Z.of_nat k) with (Z.succ (Z.of_nat k - 1)) at 1 by lia.
    apply Z.pow_succ_r. lia. }
  assert (Hpick : forall s0, 10 ^ (Z.of_nat k - 1) <= s0 <= 10 ^ Z.of_nat k ->
            numberEq (ofDecimal false s0 p) x = true ->
            (if s0 =? 10 ^ Z.of_nat k
             then Some (10 ^ (Z.of_nat k - 1), n + 1) else Some (s0, n)) = Some (s, n') ->
            ofDecimal false s (n' - Z.of_nat k) = x
            /\ 10 ^ (Z.of_nat k - 1) <= s < 10 ^ Z.of_nat k).
  { intros s0 Hs0 Hok. apply numberEq_eq in Hok.
    destruct (Z.eqb_spec s0 (10 ^ Z.of_nat k)) as [-> | Hne]; intros [= <- <-].
    - rewrite ofDecimal_carry in Hok by lia.
      replace (n + 1 - Z.of_nat k) with (p + 1) by (unfold p; lia).
      split; [exact Hok|]. pose proof (pow10_pos (Z.of_nat k - 1) ltac:(lia)). lia.
    - split; [exact Hok | lia]. }
  destruct (numberEq (ofDecimal false lo p) x) eqn:Hok1;
    destruct (numberEq (ofDecimal false (lo + 1) p) x) eqn:Hok2;
    try discriminate;
    repeat match goal with
           | |- context [match ?c with Eq => _ | Lt => _ | Gt => _ end] => destruct c
           | |- context [if Z.even lo then _ else _] => destruct (Z.even lo)
           end;
    apply Hpick; first [assumption | lia].
Qed.

Lemma candidate_exists (x : number) (a b n : Z) (k : nat) :
  numberEq (ofDecimal false (fst (shift 10 a b (- (n - Z.of_nat k)))
                             / snd (shift 10 a b (- (n - Z.of_nat k))))
                            (n - Z.of_nat k)) x = true ->
  candidate x a b n k <> None.
Proof.
  unfold candidate. destruct (shift 10 a b (- (n - Z.of_nat k))) as [num den].
  cbn [fst snd]. intros ->.
  repeat match goal with
         | |- context [match ?c with Eq => _ | Lt => _ | Gt => _ end] => destruct c
         | |- context [if ?c then _ else _] => destruct c
         end; discriminate.
Qed.

Lemma shortest_found (x : number) (a b n : Z) (fuel : nat) :
  forall k k' : nat,
    (k <= k' <= k + fuel)%nat -> candidate x a b n k' <> None ->
    exists s n' k'', shortest fuel x a b n k = (s, n', k'')
                     /\ candidate x a b n k'' = Some (s, n') /\ (k <= k'')%nat.
Proof.
  induction fuel as [|fuel IH]; intros k k' Hk Hc; cbn [shortest].
  - assert (k' = k) as -> by lia.
    destruct (candidate x a b n k) as [[s n']|] eqn:E; [|congruence].
    exists s, n', k. auto.
  - destruct (candidate x a b n k) as [[s n']|] eqn:E.
    + exists s, n', k. auto.
    + assert (k' <> k) by (intros ->; congruence).
      destruct (IH (S k) k') as (s & n' & k'' & H1 & H2 & H3); [lia | exact Hc |].
      exists s, n', k''. split; [exact H1|]. split; [exact H2 | lia].
Qed.

(** All the digits of the decimal expansion of a valid number are a
    candidate. *)
Lemma exact_candidate (m : positive) (e : Z) (n : Z) (k : nat) :
  bounded prec emax m e = true ->
  Z.of_nat k = n + Z.max 0 (- e) ->
  candidate (S754_finite false m e) (fst (fraction m e)) (snd (fraction m e)) n k <> None.
Proof.
  intros Hv Hk. apply candidate_exists. apply numberEq_refl_iff.
  replace (n - Z.of_nat k) with (- Z.max 0 (- e)) by lia.
  set (t := Z.max 0 (- e)).
  destruct (fraction_pos m e) as [Ha Hb].
  rewrite <- (roundRatio_exact false m e Hv).
  set (a := fst (fraction m e)) in *. set (b := snd (fraction m e)) in *.
  assert (Eb : b = 2 ^ t) by (unfold b, t, fraction, shift; cbn [snd]; lia).
  unfold shift at 1 2. cbn [fst snd]. rewrite Z.opp_involutive.
  rewrite (pow_max_nonpos 10 (- t)) by lia. replace (Z.max 0 t) with t by lia.
  rewrite Z.mul_1_r.
  assert (E10 : 10 ^ t = 5 ^ t * b)
    by (rewrite Eb, <- Z.pow_mul_l; reflexivity).
  replace (a * 10 ^ t / b) with (a * 5 ^ t)
    by (rewrite E10, Z.mul_assoc, Z.div_mul by lia; reflexivity).
  unfold ofDecimal, shift.
  rewrite (pow_max_nonpos 10 (- t)) by lia. replace (Z.max 0 (- - t)) with t by lia.
  rewrite Z.mul_1_r, Z.mul_1_l.
  apply roundRatio_equal; [apply pow10_pos; lia | exact Hb |].
  rewrite E10. ring.
Qed.

Lemma exact_level_positive (m : positive) (e n : Z) :
  bracket10 (fst (fraction m e)) (snd (fraction m e)) n -> 1 <= n + Z.max 0 (- e).
Proof.
  intros [_ Hhi]. unfold fraction, shift in Hhi. cbn [fst snd] in Hhi.
  set (t := Z.max 0 (- e)) in *.
  destruct (Z_lt_le_dec (n + t) 1) as [Hlt|]; [exfalso | assumption].
  rewrite (pow_max_nonpos 10 n) in Hhi by lia.
  replace (Z.max 0 (- n)) with (- n) in Hhi by lia.
  pose proof (pow_max_pos 2 e ltac:(lia)).
  assert (2 ^ t <= 10 ^ t) by (apply Z.pow_le_mono_l; lia).
  assert (10 ^ t <= 10 ^ (- n)) by (apply Z.pow_le_mono_r; lia).
  assert (1 <= Zpos m * 2 ^ Z.max 0 e) by nia.
  assert (1 * 10 ^ (- n) <= Zpos m * 2 ^ Z.max 0 e * 10 ^ (- n))
    by (apply Z.mul_le_mono_nonneg_r; lia).
  lia.
Qed.

(** The text of a valid finite number: a sign and the rendering of
    digits whose nearest number is its magnitude. *)
Lemma toChars_finite (neg : bool) (m : positive) (e : Z) :
  bounded prec emax m e = true ->
  exists s n k,
    toChars (S754_finite neg m e) = (if neg then ["-"%char] else []) ++ render s n k
    /\ (1 <= k)%nat
    /\ 10 ^ (Z.of_nat k - 1) <= s < 10 ^ Z.of_nat k
    /\ ofDecimal false s (n - Z.of_nat k) = S754_finite false m e.
Proof.
  intros Hv. unfold toChars.
  destruct (fraction_pos m e) as [Ha Hb].
  pose proof (decimalExponent_spec _ _ Ha Hb) as Hn.
  pose proof (exact_level_positive m e _ Hn) as Hk.
  destruct (fraction m e) as [a b] eqn:Ef. cbn [fst snd] in *.
  set (n0 := decimalExponent a b) in *.
  destruct (shortest_found (S754_finite false m e) a b n0 (Z.to_nat (n0 + Z.max 0 (- e)))
              1%nat (Z.to_nat (n0 + Z.max 0 (- e)))) as (s & n' & k & Hs & Hc & Hk1).
  { lia. }
  { pose proof (exact_candidate m e n0 (Z.to_nat (n0 + Z.max 0 (- e))) Hv) as H.
    rewrite Ef in H. apply H. lia. }
  rewrite Hs. exists s, n', k. split; [reflexivity|]. split; [exact Hk1|].
  destruct (candidate_sound _ a b n0 k s n' Ha Hb Hn Hk1 Hc) as [H1 H2]. auto.
Qed.

End Shortest.

(** ** Digits *)

Section Digits.
Import JsNumber.

Lemma digitChar_spec (d : Z) :
  0 <= d <= 9 ->
  isDigit (digitChar d) = true /\ digitVal (digitChar d) = d
  /\ (Ascii.eqb (digitChar d) "0" = true <-> d = 0).
Proof.
  intros H.
  assert (d = 0 \/ d = 1 \/ d = 2 \/ d = 3 \/ d = 4 \/ d = 5 \/ d = 6 \/ d = 7 \/ d = 8 \/ d = 9)
    as Hd by lia.
  repeat destruct Hd as [-> | Hd]; try subst d;
    (split; [reflexivity | split; [reflexivity |
       vm_compute; split; intros H0; first [reflexivity | discriminate H0]]]).
Qed.

Lemma digitsVal_snoc (l : list ascii) (c : ascii) :
  digitsVal (l ++ [c]) = 10 * digitsVal l + digitVal c.
Proof. unfold digitsVal. rewrite fold_left_app. reflexivity. Qed.

Lemma digitsVal_app (l1 l2 : list ascii) :
  digitsVal (l1 ++ l2) = digitsVal l1 * 10 ^ Z.of_nat (length l2) + digitsVal l2.
Proof.
  induction l2 as [|c l2 IH] using rev_ind.
  - rewrite app_nil_r. change (digitsVal []) with 0. cbn [length].
    change (Z.of_nat 0) with 0. rewrite Z.pow_0_r. lia.
  - rewrite app_assoc, !digitsVal_snoc, IH, length_app. cbn [length].
    rewrite Nat2Z.inj_add. change (Z.of_nat 1) with 1.
    rewrite Z.pow_add_r by lia. change (10 ^ 1) with 10. ring.
Qed.

Lemma digits_length (k : nat) : forall s, length (digits k s) = k.
Proof.
  induction k as [|k IH]; intros s; cbn [digits]; [reflexivity|].
  rewrite length_app, IH. cbn. lia.
Qed.

Lemma digits_isDigit (k : nat) : forall s, forallb isDigit (digits k s) = true.
Proof.
  induction k as [|k IH]; intros s; cbn [digits]; [reflexivity|].
  rewrite forallb_app, IH. cbn [forallb andb].
  destruct (digitChar_spec (s mod 10)) as [H _].
  { pose proof (Z.mod_pos_bound s 10 ltac:(lia)). lia. }
  rewrite H. reflexivity.
Qed.

Lemma digits_value (k : nat) :
  forall s, 0 <= s < 10 ^ Z.of_nat k -> digitsVal (digits k s) = s.
Proof.
  induction k as [|k IH]; intros s Hs.
  - cbn in *. unfold digitsVal. cbn. lia.
  - cbn [digits]. rewrite digitsVal_snoc.
    rewrite Nat2Z.inj_succ, Z.pow_succ_r in Hs by lia.
    rewrite IH by (split; [apply Z.div_pos; lia | apply Z.div_lt_upper_bound; lia]).
    destruct (digitChar_spec (s mod 10)) as (_ & -> & _).
    { pose proof (Z.mod_pos_bound s 10 ltac:(lia)). lia. }
    pose proof (Z.div_mod s 10 ltac:(lia)). lia.
Qed.

(** The digits of a number with exactly [k] digits start with a digit
    that is not zero. *)
Lemma digits_head (k : nat) :
  forall s, (1 <= k)%nat -> 10 ^ (Z.of_nat k - 1) <= s < 10 ^ Z.of_nat k ->
    exists d l, digits k s = d :: l /\ isDigit d = true /\ Ascii.eqb d "0" = false.
Proof.
  induction k as [|k IH]; intros s Hk Hs; [lia|].
  cbn [digits]. rewrite Nat2Z.inj_succ in Hs.
  replace (Z.succ (Z.of_nat k) - 1) with (Z.of_nat k) in Hs by lia.
  rewrite Z.pow_succ_r in Hs by lia.
  destruct k as [|k].
  - cbn in Hs. cbn [digits app].
    destruct (digitChar_spec (s mod 10)) as (H1 & _ & H3).
    { pose proof (Z.mod_pos_bound s 10 ltac:(lia)). lia. }
    exists (digitChar (s mod 10)), []. split; [reflexivity|]. split; [exact H1|].
    destruct (Ascii.eqb (digitChar (s mod 10)) "0") eqn:E; [|reflexivity].
    assert (Hz : s mod 10 = 0) by (apply H3; reflexivity).
    rewrite Z.mod_small in Hz by lia. lia.
  - destruct (IH (s / 10)) as (d & l & Hd & H1 & H2); [lia | |].
    { replace (Z.of_nat (S k) - 1) with (Z.of_nat k) by lia.
      rewrite Nat2Z.inj_succ, Z.pow_succ_r in * by lia.
      split; [apply Z.div_le_lower_bound; lia | apply Z.div_lt_upper_bound; lia]. }
    rewrite Hd. exists d, (l ++ [digitChar (s mod 10)]). auto.
Qed.

Lemma zeros_length (n : Z) : length (zeros n) = Z.to_nat n.
Proof. apply repeat_length. Qed.

Lemma zeros_isDigit (n : Z) : forallb isDigit (zeros n) = true.
Proof. unfold zeros. induction (Z.to_nat n); cbn; auto. Qed.

Lemma zeros_value (n : Z) : digitsVal (zeros n) = 0.
Proof.
  unfold zeros. induction (Z.to_nat n) as [|k IH]; [reflexivity|].
  change (repeat "0"%char (S k)) with (["0"%char] ++ repeat "0"%char k).
  rewrite digitsVal_app, IH. reflexivity.
Qed.

Lemma spanDigits_app (ds rest : list ascii) :
  forallb isDigit ds = true ->
  match rest with c :: _ => isDigit c = false | [] => True end ->
  spanDigits (ds ++ rest) = (ds, rest).
Proof.
  intros Hds Hrest. induction ds as [|d ds IH]; cbn [app spanDigits].
  - destruct rest as [|c rest]; [reflexivity|]. cbn. rewrite Hrest. reflexivity.
  - cbn in Hds. apply andb_true_iff in Hds as [Hd Hds]. rewrite Hd, (IH Hds). reflexivity.
Qed.

Lemma numDigits_nonneg (z : Z) : 1 <= numDigits z.
Proof.
  unfold numDigits. cbn [countDigits]. destruct (z <? 10); [lia|].
  generalize (Z.to_nat (Z.log2 z)) (z / 10). intros n. induction n; intros y; cbn [countDigits].
  - lia.
  - destruct (y <? 10); [lia|]. specialize (IHn (y / 10)). lia.
Qed.

Lemma decimal_spec (z : Z) :
  0 <= z ->
  decimal z <> [] /\ forallb isDigit (decimal z) = true /\ digitsVal (decimal z) = z.
Proof.
  intros Hz. unfold decimal. pose proof (numDigits_nonneg z) as Hn.
  split; [|split].
  - intros E. apply (f_equal (@length ascii)) in E. rewrite digits_length in E. cbn [length] in E. lia.
  - apply digits_isDigit.
  - apply digits_value. rewrite Z2Nat.id by lia.
    destruct (Z.eq_dec z 0) as [-> | Hne]; [split; [lia | apply pow10_pos; lia]|].
    destruct (numDigits_spec z ltac:(lia)) as (_ & _ & H). lia.
Qed.

End Digits.

(** ** Reading back the text of a number *)

Section NumberText.
Import JsNumber JSON.

Ltac same_number :=
  match goal with
  | |- Some (ofDecimal ?a ?b ?x, ?r) = Some (ofDecimal ?a ?c ?y, ?r) =>
      replace x with y by lia; replace b with c by lia; reflexivity
  end.

Lemma endsNumber_head (rest : list ascii) :
  endsNumber rest = true ->
  match rest with
  | c :: _ => isDigit c = false /\ eqc c "." = false /\ eqc c "e" = false /\ eqc c "E" = false
  | [] => True
  end.
Proof.
  destruct rest as [|c rest]; [trivial|]. cbn. unfold eqc. intros H.
  apply negb_true_iff in H. repeat (apply orb_false_iff in H as [H ?]). auto.
Qed.

Lemma parseInt_digits (d : ascii) (l t : list ascii) :
  isDigit d = true -> Ascii.eqb d "0" = false -> forallb isDigit l = true ->
  match t with c :: _ => isDigit c = false | [] => True end ->
  parseInt ((d :: l) ++ t) = Some (d :: l, t).
Proof.
  intros Hd Hz Hl Ht. unfold parseInt. cbn [app]. unfold eqc. rewrite Hz, Hd.
  change (d :: l ++ t) with ((d :: l) ++ t). rewrite spanDigits_app; [reflexivity | | exact Ht].
  cbn. rewrite Hd, Hl. reflexivity.
Qed.

Lemma parseFrac_some (fp t : list ascii) :
  fp <> [] -> forallb isDigit fp = true ->
  match t with c :: _ => isDigit c = false | [] => True end ->
  parseFrac ("."%char :: fp ++ t) = Some (fp, t).
Proof.
  intros Hne Hfp Ht. unfold parseFrac. cbn. rewrite spanDigits_app by assumption.
  destruct fp; [congruence | reflexivity].
Qed.

Lemma parseFrac_none (t : list ascii) :
  match t with c :: _ => eqc c "." = false | [] => True end ->
  parseFrac t = Some ([], t).
Proof. destruct t as [|c t]; [reflexivity|]. cbn. intros ->. reflexivity. Qed.

Lemma parseExp_none (t : list ascii) :
  match t with c :: _ => eqc c "e" = false /\ eqc c "E" = false | [] => True end ->
  parseExp t = Some (0, t).
Proof. destruct t as [|c t]; [reflexivity|]. cbn. intros [-> ->]. reflexivity. Qed.

Lemma parseExp_some (z : Z) (rest : list ascii) :
  match rest with c :: _ => isDigit c = false | [] => True end ->
  parseExp ("e"%char :: (if 0 <=? z then "+"%char else "-"%char)
              :: decimal (Z.abs z) ++ rest) = Some (z, rest).
Proof.
  intros Hr. destruct (decimal_spec (Z.abs z) ltac:(lia)) as (Hne & Hd & Hv).
  unfold parseExp. cbn [eqc Ascii.eqb Bool.eqb orb].
  destruct (Z.leb_spec 0 z).
  - cbn [eqc Ascii.eqb Bool.eqb]. rewrite spanDigits_app by assumption.
    destruct (decimal (Z.abs z)) eqn:E; [congruence|]. rewrite Hv. f_equal. f_equal. lia.
  - cbn [eqc Ascii.eqb Bool.eqb]. rewrite spanDigits_app by assumption.
    destruct (decimal (Z.abs z)) eqn:E; [congruence|]. rewrite Hv. f_equal. f_equal. lia.
Qed.

Lemma ofDecimal_shift (neg : bool) (s j p : Z) :
  0 <= j -> ofDecimal neg (s * 10 ^ j) p = ofDecimal neg s (p + j).
Proof.
  intros Hj. unfold ofDecimal, shift. rewrite !Z.mul_1_l.
  apply roundRatio_equal; try (apply Z.pow_pos_nonneg; lia).
  replace (s * 10 ^ j * 10 ^ Z.max 0 p * 10 ^ Z.max 0 (- (p + j)))
    with (s * (10 ^ j * 10 ^ Z.max 0 p * 10 ^ Z.max 0 (- (p + j)))) by ring.
  replace (s * 10 ^ Z.max 0 (p + j) * 10 ^ Z.max 0 (- p))
    with (s * (10 ^ Z.max 0 (p + j) * 10 ^ Z.max 0 (- p))) by ring.
  f_equal. rewrite <- !Z.pow_add_r by lia. f_equal. lia.
Qed.

(** The literal that [render] writes is read back as the number nearest
    to the digits at their exponent. *)
Lemma parseUnsigned_render (neg : bool) (s n : Z) (k : nat) (rest : list ascii) :
  (1 <= k)%nat -> 10 ^ (Z.of_nat k - 1) <= s < 10 ^ Z.of_nat k ->
  endsNumber rest = true ->
  parseUnsigned neg (render s n k ++ rest) = Some (ofDecimal neg s (n - Z.of_nat k), rest).
Proof.
  intros Hk Hs Hrest. apply endsNumber_head in Hrest.
  assert (Hr1 : match rest with c :: _ => isDigit c = false | [] => True end)
    by (destruct rest; tauto).
  assert (Hr2 : match rest with c :: _ => eqc c "." = false | [] => True end)
    by (destruct rest; tauto).
  assert (Hr3 : match rest with c :: _ => eqc c "e" = false /\ eqc c "E" = false
                | [] => True end) by (destruct rest; tauto).
  destruct (digits_head k s Hk Hs) as (d & l & Hds & Hd & Hz).
  pose proof (digits_isDigit k s) as Hall. pose proof (digits_length k s) as Hlen.
  pose proof (digits_value k s ltac:(pose proof (pow10_pos (Z.of_nat k - 1)); lia)) as Hval.
  assert (Hl : forallb isDigit l = true).
  { rewrite Hds in Hall. cbn in Hall. apply andb_true_iff in Hall as [_ H]. exact H. }
  unfold render, parseUnsigned.
  destruct ((-6 <? n) && (n <=? 21)) eqn:Hrange.
  - destruct (Z.leb_spec (Z.of_nat k) n) as [Hkn | Hkn].
    + (* the digits followed by zeros *)
      rewrite Hds.
      change ((d :: l) ++ zeros (n - Z.of_nat k)) with (d :: (l ++ zeros (n - Z.of_nat k))).
      rewrite (parseInt_digits d (l ++ zeros (n - Z.of_nat k)) rest Hd Hz)
        by (rewrite ?forallb_app, ?Hl, ?zeros_isDigit; auto).
      rewrite (parseFrac_none rest Hr2), (parseExp_none rest Hr3).
      rewrite app_nil_r. change (d :: l ++ zeros (n - Z.of_nat k))
        with ((d :: l) ++ zeros (n - Z.of_nat k)).
      rewrite <- Hds, digitsVal_app, Hval, zeros_value, zeros_length, Z2Nat.id by lia.
      cbn [length]. rewrite Z.add_0_r, ofDecimal_shift by lia. same_number.
    + destruct (Z.ltb_spec 0 n) as [Hn | Hn].
      * (* a decimal point inside the digits *)
        assert (Hsplit : digits k s = firstn (Z.to_nat n) (digits k s)
                                        ++ skipn (Z.to_nat n) (digits k s))
          by (symmetry; apply firstn_skipn).
        assert (Hf : exists l1, firstn (Z.to_nat n) (digits k s) = d :: l1).
        { rewrite Hds. destruct (Z.to_nat n) eqn:E; [lia|]. cbn. eauto. }
        destruct Hf as [l1 Hf].
        assert (Hfd : forallb isDigit (firstn (Z.to_nat n) (digits k s)) = true
                      /\ forallb isDigit (skipn (Z.to_nat n) (digits k s)) = true).
        { rewrite Hsplit, forallb_app in Hall. apply andb_true_iff in Hall. exact Hall. }
        destruct Hfd as [Hfd Hsd].
        assert (Hsl : length (skipn (Z.to_nat n) (digits k s)) = (k - Z.to_nat n)%nat)
          by (rewrite length_skipn, Hlen; reflexivity).
        rewrite <- app_assoc. rewrite Hf in *. cbn [app].
        change (d :: l1 ++ "."%char :: skipn (Z.to_nat n) (digits k s) ++ rest)
          with ((d :: l1) ++ "."%char :: skipn (Z.to_nat n) (digits k s) ++ rest).
        rewrite (parseInt_digits d l1 _ Hd Hz)
          by (cbn in Hfd; apply andb_true_iff in Hfd as [_ H]; auto).
        rewrite parseFrac_some;
          [| intros E; rewrite E in Hsl; cbn in Hsl; lia | exact Hsd | exact Hr1].
        rewrite (parseExp_none rest Hr3), <- Hsplit, Hval, Hsl.
        same_number.
      * (* zeros between the point and the digits *)
        cbn [app]. unfold parseInt, eqc. cbn [Ascii.eqb Bool.eqb].
        change ("."%char :: (zeros (- n) ++ digits k s) ++ rest)
          with ("."%char :: ((zeros (- n) ++ digits k s) ++ rest)).
        rewrite <- app_assoc.
        change ("."%char :: zeros (- n) ++ digits k s ++ rest)
          with ("."%char :: (zeros (- n) ++ digits k s ++ rest)).
        rewrite app_assoc.
        rewrite parseFrac_some;
          [| rewrite Hds; intros E; apply app_eq_nil in E as [_ E]; discriminate
           | rewrite forallb_app, zeros_isDigit, Hall; reflexivity | exact Hr1].
        rewrite (parseExp_none rest Hr3).
        change (["0"%char] ++ zeros (- n) ++ digits k s)
          with (zeros 1 ++ (zeros (- n) ++ digits k s)).
        rewrite !digitsVal_app, !zeros_value, Hval, length_app, zeros_length, Hlen.
        same_number.
  - (* exponent notation *)
    rewrite Hds. destruct l as [|d2 l2].
    + cbn [app]. assert (k = 1%nat) as -> by (rewrite Hds in Hlen; cbn in Hlen; lia).
      change (d :: "e"%char :: ?x) with ([d] ++ "e"%char :: x).
      rewrite (parseInt_digits d [] _ Hd Hz) by (cbn; auto).
      rewrite parseFrac_none by reflexivity.
      rewrite (parseExp_some (n - 1) rest Hr1). rewrite app_nil_r, <- Hds, Hval.
      cbn [length]. same_number.
    + set (ex := "e"%char :: _ :: decimal _).
      replace ((d :: "."%char :: (d2 :: l2) ++ ex) ++ rest)
        with ([d] ++ "."%char :: (d2 :: l2) ++ (ex ++ rest))
        by (cbn [app]; rewrite <- app_assoc; reflexivity).
      rewrite (parseInt_digits d [] _ Hd Hz) by (cbn; auto).
      rewrite parseFrac_some; [| discriminate | exact Hl | reflexivity].
      unfold ex. cbn [app]. rewrite (parseExp_some (n - 1) rest Hr1).
      change ([d] ++ d2 :: l2) with (d :: d2 :: l2). rewrite <- Hds, Hval.
      rewrite Hds in Hlen. cbn [length] in *. same_number.
Qed.

End NumberText.

Section NumberRoundTrip.
Import JsNumber JSON.

Lemma roundRatio_sign (neg : bool) (a b : Z) (m : positive) (e : Z) :
  roundRatio false a b = S754_finite false m e ->
  roundRatio neg a b = S754_finite neg m e.
Proof.
  unfold roundRatio. destruct (a <=? 0); [discriminate|].
  destruct (scaled a b _) as [p q].
  destruct (if roundHalfEven p q =? 2 ^ 53 then _ else _) as [m1 e1].
  destruct m1; try discriminate. destruct (e1 <=? 971); [|discriminate].
  intros [= -> ->]. reflexivity.
Qed.

Lemma ofDecimal_sign (neg : bool) (s p : Z) (m : positive) (e : Z) :
  ofDecimal false s p = S754_finite false m e ->
  ofDecimal neg s p = S754_finite neg m e.
Proof. unfold ofDecimal. destruct (shift 10 s 1 p). apply roundRatio_sign. Qed.

Lemma render_head (s n : Z) (k : nat) :
  (1 <= k)%nat -> 10 ^ (Z.of_nat k - 1) <= s < 10 ^ Z.of_nat k ->
  exists c t, render s n k = c :: t /\ isDigit c = true.
Proof.
  intros Hk Hs. destruct (digits_head k s Hk Hs) as (d & l & Hds & Hd & _).
  unfold render. rewrite Hds.
  destruct ((-6 <? n) && (n <=? 21)).
  - destruct (Z.of_nat k <=? n); [cbn; eauto|].
    destruct (Z.ltb_spec 0 n).
    + destruct (Z.to_nat n) eqn:E; [lia|]. cbn. eauto.
    + exists "0"%char. eexists. split; reflexivity.
  - destruct l; cbn; eauto.
Qed.

Lemma isDigit_not_minus (c : ascii) : isDigit c = true -> eqc c "-" = false.
Proof.
  intros H. destruct (eqc c "-") eqn:E; [|reflexivity].
  apply Ascii.eqb_eq in E. subst c. discriminate.
Qed.

(** A number that JSON text can carry: finite and valid, and not the
    negative zero, which is written as the positive one. *)
Lemma parseNumber_toChars (x : number) (rest : list ascii) :
  valid_binary prec emax x = true ->
  isFinite x = true ->
  x <> S754_zero true ->
  endsNumber rest = true ->
  parseNumber (toChars x ++ rest) = Some (x, rest).
Proof.
  intros Hv Hf Hz Hrest. destruct x as [[]| | |neg m e]; try discriminate; try congruence.
  - (* zero *)
    pose proof (endsNumber_head rest Hrest) as Hr.
    cbn. unfold parseUnsigned. cbn.
    rewrite parseFrac_none, parseExp_none by (destruct rest; tauto). reflexivity.
  - cbn in Hv. destruct (toChars_finite neg m e Hv) as (s & n & k & Ht & Hk & Hs & Hval).
    rewrite Ht. destruct neg.
    + cbn [app parseNumber eqc Ascii.eqb Bool.eqb].
      rewrite parseUnsigned_render by assumption.
      rewrite (ofDecimal_sign true _ _ _ _ Hval). reflexivity.
    + cbn [app]. destruct (render_head s n k Hk Hs) as (c & t & Hr & Hc).
      unfold parseNumber. rewrite Hr. cbn [app]. rewrite (isDigit_not_minus c Hc).
      change (c :: t ++ rest) with ((c :: t) ++ rest). rewrite <- Hr.
      rewrite parseUnsigned_render by assumption. rewrite Hval. reflexivity.
Qed.

End NumberRoundTrip.

(** ** The duration rule *)

Section Quarter.
Import JsNumber.

(** The number nearest to a multiple of a quarter is a multiple of a
    quarter. *)
Lemma roundRatio_quarter (a b : Z) (m : positive) (e : Z) :
  0 < b -> (4 * a) mod b = 0 ->
  roundRatio false a b = S754_finite false m e ->
  isQuarterMultiple (S754_finite false m e) = true.
Proof.
  intros Hb Hdiv. unfold roundRatio.
  destruct (Z.leb_spec a 0) as [|Ha]; [discriminate|].
  set (e0 := Z.max (floorLog2 a b - 52) (-1074)).
  unfold scaled, shift. rewrite Z.opp_involutive.
  set (p := a * 2 ^ Z.max 0 (- e0)). set (q := b * 2 ^ Z.max 0 e0).
  cbn [isQuarterMultiple].
  destruct (Z.leb_spec (-2) e) as [|He]; [reflexivity|]. cbn [orb].
  intros H.
  assert (He0 : e0 < -2).
  { destruct (roundHalfEven p q =? 2 ^ 53); destruct (Z.leb_spec e0 (-3)) as [|Hc]; try lia;
      exfalso; revert H;
      match goal with |- context [match ?z with Zpos _ => _ | _ => _ end] => destruct z end;
      try discriminate;
      match goal with |- context [if ?c then _ else _] => destruct c end;
      try discriminate; intros [= _ <-]; lia. }
  assert (Eq : q = b) by (unfold q; rewrite (pow_max_nonpos 2 e0) by lia; lia).
  assert (Ep : p = (4 * a / b) * 2 ^ (- e0 - 2) * q).
  { unfold p. rewrite Eq. replace (Z.max 0 (- e0)) with (2 + (- e0 - 2)) by lia.
    rewrite Z.pow_add_r by lia. change (2 ^ 2) with 4.
    apply Z.div_exact in Hdiv; [|lia]. rewrite Z.mul_assoc, (Z.mul_comm a 4).
    rewrite Hdiv at 1. ring. }
  assert (Hq : 0 < q) by lia.
  rewrite Ep, roundHalfEven_exact in H by exact Hq.
  set (c := 4 * a / b) in *.
  assert (Hc : 1 <= c).
  { apply Z.div_exact in Hdiv; [|lia]. fold c in Hdiv.
    destruct (Z_lt_le_dec c 1); [nia | lia]. }
  apply Z.eqb_eq.
  destruct (Z.eqb_spec (c * 2 ^ (- e0 - 2)) (2 ^ 53)) as [E53 | _].
  - replace (2 ^ 52) with (Zpos 4503599627370496) in H by reflexivity.
    cbv beta iota in H.
    destruct (e0 + 1 <=? 971); [|discriminate]. injection H as <- <-.
    assert (Hle : 2 ^ (- e0 - 2) <= 2 ^ 53).
    { rewrite <- E53. assert (0 < 2 ^ (- e0 - 2)) by (apply Z.pow_pos_nonneg; lia). nia. }
    apply Z.pow_le_mono_r_iff in Hle; [|lia|lia].
    replace (Zpos 4503599627370496) with (2 ^ (52 - (- (e0 + 1) - 2)) * 2 ^ (- (e0 + 1) - 2)).
    + apply Z.mod_mul. apply Z.pow_nonzero; lia.
    + rewrite <- Z.pow_add_r by lia. replace (52 - (- (e0 + 1) - 2) + (- (e0 + 1) - 2)) with 52
        by lia. reflexivity.
  - destruct (c * 2 ^ (- e0 - 2)) as [|mp|] eqn:Em; try discriminate.
    destruct (e0 <=? 971); [|discriminate]. injection H as <- <-.
    rewrite <- Em. apply Z.mod_mul. apply Z.pow_nonzero; lia.
Qed.

Lemma ofDecimal_quarter (v f : Z) (m : positive) (e : Z) :
  0 <= f -> (4 * v) mod 10 ^ f = 0 ->
  ofDecimal false v (- f) = S754_finite false m e ->
  isQuarterMultiple (S754_finite false m e) = true.
Proof.
  intros Hf Hdiv. unfold ofDecimal, shift.
  rewrite (pow_max_nonpos 10 (- f)) by lia. replace (Z.max 0 (- - f)) with f by lia.
  rewrite Z.mul_1_r, Z.mul_1_l. apply roundRatio_quarter; [apply pow10_pos; lia | exact Hdiv].
Qed.

End Quarter.

Section DurationPattern.
Import Regex Validators.

Lemma alt_is_Some (ic : bool) (r1 r2 : regex) (x : mstate) (k : cont) :
  is_Some (m ic (Alt r1 r2) x k) <-> is_Some (m ic r1 x k) \/ is_Some (m ic r2 x k).
Proof.
  cbn [m]. destruct (m ic r1 x k) as [z|].
  - split; eauto.
  - split; [auto | intros [[? [=]] | H]; exact H].
Qed.

Lemma char_is_Some (a : ascii) (x : mstate) (k : cont) :
  is_Some (m false (Char a) x k)
  <-> exists l, rest x = a :: l /\ is_Some (k (MState (Some a) l (caps x))).
Proof.
  cbn [m]. rewrite step_is_Some. unfold Canonicalize. cbn [negb]. split.
  - intros (c & l & Hr & Hc & Hk). apply N.eqb_eq, code_inj in Hc. subst c. eauto.
  - intros (l & Hr & Hk). exists a, l. rewrite N.eqb_refl. auto.
Qed.

Lemma lit_is_Some (w : list ascii) :
  forall (x : mstate) (k : cont),
    is_Some (m false (Lit w) x k)
    <-> exists post, rest x = w ++ post
                     /\ is_Some (k (MState (lastOr (prev x) w) post (caps x))).
Proof.
  induction w as [|a w IH]; intros x k.
  - cbn. split.
    + intros H. exists (rest x). destruct x; auto.
    + intros (post & <- & H). destruct x; exact H.
  - destruct w as [|b w].
    + change (Lit [a]) with (Char a). rewrite char_is_Some. reflexivity.
    + change (Lit (a :: b :: w)) with (Seq (Char a) (Lit (b :: w))).
      change (m false (Seq ?r1 ?r2) x k) with (m false r1 x (fun y => m false r2 y k)).
      rewrite char_is_Some. split.
      * intros (l & Hr & H). apply IH in H as (post & Hr' & H). cbn [rest prev caps] in *.
        subst l. exists post. split; [exact Hr | exact H].
      * intros (post & Hr & H). exists ((b :: w) ++ post). split; [exact Hr|].
        apply IH. exists post. cbn [rest prev caps]. auto.
Qed.

Lemma lit_then_end (w : list ascii) (z : mstate) (F : mstate -> mstate) :
  (forall y, rest (F y) = rest y) ->
  is_Some (m false (Lit w) z (fun y => m false Eol (F y) Some)) -> rest z = w.
Proof.
  intros HF H. apply lit_is_Some in H as (post & Hz & Hs).
  cbn [m] in Hs. rewrite HF in Hs. cbn [rest] in Hs.
  destruct post; [|destruct Hs as [? [=]]]. rewrite app_nil_r in Hz. exact Hz.
Qed.

(** What the duration pattern matches. *)
Lemma duration_accepts (t : list ascii) :
  searchFrom patterns.duration None t = true ->
  exists ip, isIntPart ip
    /\ (t = ip \/ exists fp, In fp quarterFractions /\ t = ip ++ "."%char :: fp).
Proof.
  intros H. apply searchFrom_spec in H as (pre & post & -> & H).
  cbn [ignoreCase source patterns.duration] in H.
  change (m false (Seq Bol ?r) ?x ?k)
    with (match prev x with None => m false r x k | Some _ => None end) in H.
  cbn [prev] in H.
  destruct pre as [|a pre _] using rev_ind;
    [|rewrite lastOr_app in H; destruct H as [? [=]]].
  cbn [lastOr fold_left app] in *.
  change (m false (Seq (Group 1 ?r1) ?r2) ?x ?k)
    with (m false r1 x
            (fun y => m false r2
                        (MState (prev y) (rest y)
                           ((1%nat, firstn (length (rest x) - length (rest y)) (rest x)) :: caps y))
                        k)) in H.
  set (K := fun y : mstate => _) in H.
  assert (HK : forall y, is_Some (K y) ->
                 rest y = [] \/ exists fp, In fp quarterFractions /\ rest y = "."%char :: fp).
  { intros y Hy. unfold K in Hy.
    change (m false (Seq (Opt ?g) Eol) ?x Some)
      with (m false (Alt g Empty) x (fun z => m false Eol z Some)) in Hy.
    apply alt_is_Some in Hy as [Hy | Hy].
    - right.
      change (m false (Group 2 (Seq (Char ".") (Group 3 ?alts))) ?x ?k)
        with (m false (Char ".") x
                (fun y1 => m false alts y1
                   (fun y2 => k (MState (prev y2) (rest y2)
                      ((2%nat, firstn (length (rest x) - length (rest y2)) (rest x))
                       :: (3%nat, firstn (length (rest y1) - length (rest y2)) (rest y1))
                       :: caps y2))))) in Hy.
      apply char_is_Some in Hy as (l & Hr & Hy). cbn [rest] in Hr. rewrite Hr.
      exists l. split; [|reflexivity]. unfold quarterFractions.
      cbv beta in Hy.
      apply alt_is_Some in Hy as [Hy | Hy];
        [eapply (lit_then_end (chars "25")) in Hy; [|reflexivity]; cbn [rest] in Hy; subst l;
         cbn; tauto|].
      apply alt_is_Some in Hy as [Hy | Hy];
        [eapply (lit_then_end (chars "5")) in Hy; [|reflexivity]; cbn [rest] in Hy; subst l;
         cbn; tauto|].
      apply alt_is_Some in Hy as [Hy | Hy];
        [eapply (lit_then_end (chars "75")) in Hy; [|reflexivity]; cbn [rest] in Hy; subst l;
         cbn; tauto|].
      apply alt_is_Some in Hy as [Hy | Hy];
        [eapply (lit_then_end (chars "0")) in Hy; [|reflexivity]; cbn [rest] in Hy; subst l;
         cbn; tauto|].
      eapply (lit_then_end (chars "00")) in Hy; [|reflexivity]. cbn [rest] in Hy. subst l.
      cbn. tauto.
    - left. cbn [m rest] in Hy. destruct (rest y); [reflexivity | destruct Hy as [? [=]]]. }
  apply alt_is_Some in H as [H | H].
  - apply char_is_Some in H as (l & Hr & H). cbn [rest] in Hr. subst post.
    apply HK in H. cbn [rest] in H. exists ["0"%char]. split; [left; reflexivity|].
    destruct H as [-> | (fp & Hfp & ->)]; [left; reflexivity | right; eauto].
  - change (m false (Seq (Class ?p) (Star (Class ?p2))) ?x ?k)
      with (m false (Class p) x
              (fun y => starLoop (m false (Class p2)) k (length (rest y)) y)) in H.
    apply m_Class_is_Some in H as (c & l & Hr & Hc & H). cbn [rest inClass] in *. subst post.
    apply starLoop_class in H as (ds & post & Hr & Hds & H); [|cbn; lia].
    cbn [rest prev caps inClass] in *. subst l. apply HK in H. cbn [rest] in H.
    exists (c :: ds). split; [right; exists c, ds; auto|].
    destruct H as [-> | (fp & Hfp & ->)]; [left; rewrite app_nil_r; reflexivity | right; eauto].
Qed.

End DurationPattern.

Section DurationRule.
Import JsNumber JSON Regex Validators.

Lemma chars_ofChars (l : list ascii) : chars (ofChars l) = l.
Proof. apply list_ascii_of_string_of_list_ascii. Qed.

Lemma range_digit (c : ascii) :
  range "1" "9" c = true -> isDigit c = true /\ Ascii.eqb c "0" = false.
Proof.
  unfold range, isDigit, code. intros H. apply andb_true_iff in H as [H1 H2].
  apply N.leb_le in H1, H2. cbn in H1, H2. split.
  - apply andb_true_iff. split; apply N.leb_le; lia.
  - destruct (Ascii.eqb c "0") eqn:E; [|reflexivity].
    apply Ascii.eqb_eq in E. subst c. cbn in H1. lia.
Qed.

Lemma quarterFractions_spec (fp : list ascii) :
  In fp quarterFractions ->
  fp <> [] /\ forallb isDigit fp = true
  /\ (4 * digitsVal fp) mod 10 ^ Z.of_nat (length fp) = 0.
Proof.
  unfold quarterFractions. cbn [In].
  intros [<- | [<- | [<- | [<- | [<- | []]]]]]; (split; [discriminate | split; reflexivity]).
Qed.

(** The text the duration pattern admits reads as a multiple of a
    quarter. *)
Lemma accepted_value (t : list ascii) :
  searchFrom patterns.duration None t = true ->
  exists v f, 0 <= f /\ (4 * v) mod 10 ^ f = 0
              /\ parseNumber (t ++ []) = Some (ofDecimal false v (- f), []).
Proof.
  intros H. apply duration_accepts in H as (ip & Hip & Ht).
  assert (Hint : forall t', match t' with c :: _ => isDigit c = false | [] => True end ->
                   parseNumber (ip ++ t') = parseUnsigned false (ip ++ t')
                   /\ parseInt (ip ++ t') = Some (ip, t')).
  { intros t' Ht'. destruct Hip as [-> | (c & l & -> & Hc & Hl)].
    - split; reflexivity.
    - apply range_digit in Hc as [Hd Hz]. split.
      + cbn [app parseNumber]. rewrite (isDigit_not_minus c Hd). reflexivity.
      + apply parseInt_digits; assumption. }
  destruct Ht as [-> | (fp & Hfp & ->)].
  - exists (digitsVal ip), 0. split; [lia|]. split; [apply Z.mod_1_r|].
    destruct (Hint [] I) as [-> Hi]. unfold parseUnsigned. rewrite Hi.
    cbn [parseFrac parseExp length]. rewrite app_nil_r. reflexivity.
  - destruct (quarterFractions_spec fp Hfp) as (Hne & Hd & Hq).
    exists (digitsVal (ip ++ fp)), (Z.of_nat (length fp)). split; [lia|]. split.
    + rewrite digitsVal_app, Z.mul_add_distr_l, Z.mul_assoc.
      rewrite Z.add_comm, Z.mod_add by (apply Z.pow_nonzero; lia). exact Hq.
    + rewrite <- app_assoc. destruct (Hint (("."%char :: fp) ++ []) ltac:(reflexivity))
        as [-> Hi].
      unfold parseUnsigned. rewrite Hi. cbn [app].
      rewrite parseFrac_some by (auto; exact I). cbn [parseExp]. reflexivity.
Qed.

Lemma accepted_head (t : list ascii) :
  searchFrom patterns.duration None t = true ->
  exists c t', t = c :: t' /\ isDigit c = true.
Proof.
  intros H. apply duration_accepts in H as (ip & Hip & Ht).
  assert (exists c l, ip = c :: l /\ isDigit c = true) as (c & l & -> & Hc).
  { destruct Hip as [-> | (c & l & -> & Hc & _)]; [exists "0"%char, []; auto|].
    apply range_digit in Hc as [Hc _]. eauto. }
  destruct Ht as [-> | (fp & _ & ->)]; cbn; eauto.
Qed.

(** A valid number whose text the duration pattern admits is a
    non-negative multiple of a quarter. *)
Lemma accepted_is_quarter (x : number) :
  valid_binary prec emax x = true ->
  test patterns.duration (toString x) = true ->
  isQuarterMultiple x = true.
Proof.
  intros Hv. unfold test, toString. rewrite chars_ofChars. intros H.
  destruct x as [s|s| |s mm e]; try reflexivity; try discriminate H.
  - destruct s; discriminate H.
  - destruct s.
    + destruct (accepted_head _ H) as (c & t' & Ht & Hc). cbn in Hv.
      destruct (toChars_finite true mm e Hv) as (s0 & n & k & Ht' & _).
      rewrite Ht' in Ht. cbn in Ht. injection Ht as <- _. discriminate.
    + destruct (accepted_value _ H) as (v & f & Hf & Hq & Hp).
      rewrite parseNumber_toChars in Hp by (auto; discriminate).
      injection Hp as Hp. symmetry in Hp.
      apply (ofDecimal_quarter v f mm e Hf Hq Hp).
Qed.

Lemma getProp_setProp_same (key value : string) (o : dict) :
  getProp key (setProp key value o) = Some value.
Proof.
  induction o as [|[k v] o IH]; cbn.
  - rewrite String.eqb_refl. reflexivity.
  - destruct (String.eqb k key) eqn:E; cbn; rewrite E; [reflexivity | exact IH].
Qed.

Lemma titleRule_no_duration (t : option string) :
  getProp "duration" (titleRule t []) = None.
Proof.
  unfold titleRule. destruct t as [t|]; [|reflexivity].
  repeat match goal with |- context [if ?b then _ else _] => destruct b end; reflexivity.
Qed.

Lemma durationError (data : Task) :
  getProp "duration" (validateTask data)
  = if test patterns.duration (toString (duration data)) then None else Some msgDuration.
Proof.
  unfold validateTask, cancelRule, dateRule, durationRule.
  repeat match goal with
         | |- context [if String.eqb ?a ?b then _ else _] => destruct (String.eqb a b)
         | |- context [if negb (JsString.truthy ?a) || ?b then _ else _] =>
             destruct (negb (JsString.truthy a) || b)
         | |- context [if negb (test patterns.date ?a) then _ else _] =>
             destruct (negb (test patterns.date a))
         end;
    rewrite ?getProp_setProp_other by reflexivity;
    destruct (test patterns.duration (toString (duration data))); cbn [negb];
    rewrite ?getProp_setProp_same, ?titleRule_no_duration; reflexivity.
Qed.

End DurationRule.

(** ** The text of a duration

    What [String] gives for whole numbers and for multiples of a quarter:
    the shortest digits that read back as the number are all of its
    digits while the number is small enough. *)


Section QuarterTexts.
Import Regex Validators.

(** *** The text of a whole number *)

Lemma shortest_least (x : number) (a b n : Z) (fuel : nat) :
  forall k k' : nat,
    (k <= k' <= k + fuel)%nat -> candidate x a b n k' <> None ->
    exists s n' k'', shortest fuel x a b n k = (s, n', k'')
                     /\ candidate x a b n k'' = Some (s, n') /\ (k <= k'' <= k')%nat.
Proof.
  induction fuel as [|fuel IH]; intros k k' Hk Hc; cbn [shortest].
  - assert (k' = k) as -> by lia.
    destruct (candidate x a b n k) as [[s n']|] eqn:E; [|congruence].
    exists s, n', k. repeat split; auto.
  - destruct (candidate x a b n k) as [[s n']|] eqn:E.
    + exists s, n', k. repeat split; auto; lia.
    + assert (k' <> k) by (intros ->; congruence).
      destruct (IH (S k) k') as (s & n' & k'' & H1 & H2 & H3); [lia | exact Hc |].
      exists s, n', k''. split; [exact H1|]. split; [exact H2 | lia].
Qed.

Lemma candidate_exponent (x : number) (a b n : Z) (k : nat) (s n' : Z) :
  candidate x a b n k = Some (s, n') -> n' = n \/ n' = n + 1.
Proof.
  unfold candidate. destruct (shift 10 a b (- (n - Z.of_nat k))) as [num den].
  repeat match goal with
         | |- context [match ?c with Eq => _ | Lt => _ | Gt => _ end] => destruct c
         | |- context [if ?c then _ else _] => destruct c
         end; intros [= <- <-] || discriminate; auto.
Qed.

Lemma roundRatio_whole (z : Z) : roundRatio false z 1 = ofZ z \/ z < 0.
Proof.
  destruct (Z_lt_le_dec z 0) as [H|H]; [right; exact H | left].
  unfold ofZ, ofDecimal, shift. cbn [Z.max Z.opp Z.pow].
  replace (z <? 0) with false by (symmetry; apply Z.ltb_ge; exact H).
  rewrite Z.abs_eq, Z.mul_1_r by exact H. reflexivity.
Qed.

(** A whole number from 1 below [2^53] is a number, with the mantissa
    shifted to 53 bits. *)
Lemma ofZ_small (z : Z) :
  1 <= z < 2 ^ 53 ->
  exists (m : positive) (e : Z),
    ofZ z = S754_finite false m e /\ bounded prec emax m e = true
    /\ e = Z.log2 z - 52 /\ Zpos m = z * 2 ^ (- e)
    /\ fraction m e = (Zpos m, 2 ^ (- e)).
Proof.
  intros Hz.
  assert (HL : 0 <= Z.log2 z <= 52).
  { split; [apply Z.log2_nonneg|]. apply Z.lt_succ_r, Z.log2_lt_pow2; lia. }
  set (e := Z.log2 z - 52).
  assert (Hpos : 0 < z * 2 ^ (- e)) by (apply Z.mul_pos_pos; [lia | apply Z.pow_pos_nonneg; lia]).
  destruct (z * 2 ^ (- e)) as [|m|] eqn:Em; try lia.
  exists m, e.
  assert (Hf : fraction m e = (Zpos m, 2 ^ (- e))).
  { unfold fraction, shift. rewrite (pow_max_nonpos 2 e) by lia.
    replace (Z.max 0 (- e)) with (- e) by lia. f_equal; lia. }
  assert (Hb : bounded prec emax m e = true).
  { unfold bounded, canonical_mantissa, fexp, SpecFloat.emin, prec, emax.
    apply andb_true_iff. split; [apply Z.eqb_eq | apply Z.leb_le; lia].
    rewrite digits2_log2, <- Em, Z.log2_mul_pow2 by lia. lia. }
  split; [|split; [exact Hb|split; [reflexivity|split; [symmetry; exact Em|exact Hf]]]].
  destruct (roundRatio_whole z) as [<-|]; [|lia].
  rewrite <- (roundRatio_exact false m e Hb), Hf. cbn [fst snd].
  apply roundRatio_equal; [lia | apply Z.pow_pos_nonneg; lia | lia].
Qed.

(** Only the whole number itself is read as it. *)
Lemma ofZ_small_unique (v z : Z) :
  1 <= v -> 1 <= z < 2 ^ 53 -> roundRatio false v 1 = ofZ z -> v = z.
Proof.
  intros Hv Hz H.
  destruct (ofZ_small z Hz) as (m & e & Ez & _ & He & Hm & _).
  destruct (Z_lt_le_dec v (2 ^ 53)) as [Hlt|Hge].
  - destruct (ofZ_small v (conj Hv Hlt)) as (m' & e' & Ev & _ & He' & Hm' & _).
    destruct (roundRatio_whole v) as [Hw|]; [|lia].
    rewrite Hw, Ev, Ez in H. injection H as -> ->.
    rewrite Hm' in Hm. apply Z.mul_cancel_r in Hm; [exact Hm|].
    apply Z.neq_sym, Z.lt_neq, Z.pow_pos_nonneg; [lia|].
    pose proof (Z.log2_nonneg z).
    assert (Z.log2 z <= 52) by (apply Z.lt_succ_r, Z.log2_lt_pow2; lia). lia.
  - exfalso. rewrite Ez in H. revert H. unfold roundRatio.
    replace (v <=? 0) with false by (symmetry; apply Z.leb_gt; lia).
    rewrite (floorLog2_unique v 1 (Z.log2 v)) by (try lia; apply log2_bracket; lia).
    assert (HL : 53 <= Z.log2 v) by (apply Z.log2_le_pow2; lia).
    assert (He0 : e <= 0).
    { assert (Z.log2 z <= 52) by (apply Z.lt_succ_r, Z.log2_lt_pow2; lia). lia. }
    replace (Z.max (Z.log2 v - 52) (-1074)) with (Z.log2 v - 52) by lia.
    destruct (scaled v 1 (Z.log2 v - 52)) as [p q].
    destruct (roundHalfEven p q =? 2 ^ 53).
    + change (2 ^ 52) with (Zpos 4503599627370496). cbv beta iota.
      destruct (Z.log2 v - 52 + 1 <=? 971); [|discriminate].
      intros [= _ Hc]. lia.
    + destruct (roundHalfEven p q) as [|mp|]; try discriminate.
      destruct (Z.log2 v - 52 <=? 971); [|discriminate].
      intros [= _ Hc]. lia.
Qed.

Lemma digits_shift (j : nat) :
  forall (k : nat) (s : Z),
    0 <= s ->
    digits (k + j) (s * 10 ^ Z.of_nat j) = digits k s ++ zeros (Z.of_nat j).
Proof.
  induction j as [|j IH]; intros k s Hs.
  - rewrite Nat.add_0_r, Z.mul_1_r. unfold zeros. cbn. rewrite app_nil_r. reflexivity.
  - replace (k + S j)%nat with (S (k + j)) by lia. cbn [digits].
    rewrite Nat2Z.inj_succ, Z.pow_succ_r by lia.
    replace (s * (10 * 10 ^ Z.of_nat j)) with (s * 10 ^ Z.of_nat j * 10) by ring.
    rewrite Z.div_mul, Z.mod_mul by lia. rewrite IH by exact Hs.
    unfold zeros. rewrite !Nat2Z.id.
    change (digitChar 0) with "0"%char.
    rewrite <- app_assoc. f_equal.
    change ["0"%char] with (repeat "0"%char 1). rewrite <- repeat_app.
    f_equal. lia.
Qed.

Lemma pow10_digits_unique (z n n' : Z) :
  10 ^ (n - 1) <= z < 10 ^ n -> 10 ^ (n' - 1) <= z < 10 ^ n' -> 1 <= n -> 1 <= n' -> n = n'.
Proof.
  intros [H1 H2] [H3 H4] Hn Hn'.
  destruct (Z_lt_le_dec n n') as [Hlt|Hge].
  - assert (10 ^ n <= 10 ^ (n' - 1)) by (apply Z.pow_le_mono_r; lia). lia.
  - destruct (Z_lt_le_dec n' n) as [Hlt|Hle]; [|lia].
    assert (10 ^ n' <= 10 ^ (n - 1)) by (apply Z.pow_le_mono_r; lia). lia.
Qed.

(** [String(z)] for a whole number from 1 below [2^53]: its decimal
    digits. *)
Lemma toChars_whole (z : Z) :
  1 <= z < 2 ^ 53 -> toChars (ofZ z) = decimal z.
Proof.
  intros Hz. destruct (ofZ_small z Hz) as (m & e & Ez & Hb & He & Hm & Hf).
  assert (He0 : e <= 0).
  { assert (Z.log2 z <= 52) by (apply Z.lt_succ_r, Z.log2_lt_pow2; lia). lia. }
  assert (Hpow : 0 < 2 ^ (- e)) by (apply Z.pow_pos_nonneg; lia).
  destruct (numDigits_spec z ltac:(lia)) as [Hn1 Hn].
  set (n := numDigits z) in *.
  assert (Hbr : bracket10 (Zpos m) (2 ^ (- e)) n).
  { unfold bracket10. rewrite (pow_max_nonpos 10 (- (n - 1))), (pow_max_nonpos 10 (- n)) by lia.
    replace (Z.max 0 (n - 1)) with (n - 1) by lia. replace (Z.max 0 n) with n by lia.
    rewrite Hm. nia. }
  assert (Hn0 : decimalExponent (Zpos m) (2 ^ (- e)) = n).
  { pose proof (decimalExponent_spec (Zpos m) (2 ^ (- e)) ltac:(lia) Hpow) as Hd.
    set (n0 := decimalExponent (Zpos m) (2 ^ (- e))) in *.
    assert (H1 : 1 <= n0).
    { destruct (Z_lt_le_dec n0 1) as [Hlt|]; [exfalso | assumption].
      destruct Hd as [_ Hhi]. rewrite (pow_max_nonpos 10 n0) in Hhi by lia.
      rewrite Hm in Hhi. pose proof (pow_max_pos 10 (- n0) ltac:(lia)). nia. }
    apply (pow10_digits_unique z); try lia.
    destruct Hd as [Hlo Hhi].
    rewrite (pow_max_nonpos 10 (- (n0 - 1))) in Hlo by lia.
    rewrite (pow_max_nonpos 10 (- n0)) in Hhi by lia.
    replace (Z.max 0 (n0 - 1)) with (n0 - 1) in Hlo by lia.
    replace (Z.max 0 n0) with n0 in Hhi by lia. rewrite Hm in Hlo, Hhi. nia. }
  rewrite Ez. unfold toChars. rewrite Hf, Hn0.
  assert (Hcand : candidate (S754_finite false m e) (Zpos m) (2 ^ (- e)) n (Z.to_nat n) <> None).
  { apply candidate_exists. apply numberEq_refl_iff.
    rewrite Z2Nat.id, Z.sub_diag by lia. unfold shift. cbn [Z.opp Z.max Z.pow fst snd].
    rewrite !Z.mul_1_r, Hm, Z.div_mul by lia. rewrite <- Ez.
    destruct (roundRatio_whole z) as [<-|]; [|lia].
    unfold ofDecimal, shift. cbn [Z.opp Z.max Z.pow]. rewrite Z.mul_1_r. reflexivity. }
  destruct (shortest_least (S754_finite false m e) (Zpos m) (2 ^ (- e)) n
              (Z.to_nat (n + Z.max 0 (- e))) 1 (Z.to_nat n) ltac:(lia) Hcand)
    as (s & n' & k & Hs & Hc & Hk).
  rewrite Hs. cbn [app].
  destruct (candidate_sound (S754_finite false m e) (Zpos m) (2 ^ (- e)) n k s n'
              (Pos2Z.is_pos m) Hpow Hbr (proj1 Hk) Hc) as [Hval Hs10].
  assert (Hp : 0 <= n' - Z.of_nat k)
    by (destruct (candidate_exponent _ _ _ _ _ _ _ Hc); lia).
  assert (Hz' : s * 10 ^ (n' - Z.of_nat k) = z).
  { apply ofZ_small_unique; [|exact Hz|].
    - assert (0 < 10 ^ (n' - Z.of_nat k)) by (apply Z.pow_pos_nonneg; lia).
      assert (0 < 10 ^ (Z.of_nat k - 1)) by (apply Z.pow_pos_nonneg; lia). nia.
    - rewrite Ez, <- Hval. unfold ofDecimal, shift.
      rewrite (pow_max_nonpos 10 (- (n' - Z.of_nat k))) by lia.
      replace (Z.max 0 (n' - Z.of_nat k)) with (n' - Z.of_nat k) by lia.
      rewrite Z.mul_1_l. reflexivity. }
  assert (Hn' : n' = n).
  { apply (pow10_digits_unique z); try lia.
    assert (E1 : 10 ^ (n' - 1) = 10 ^ (Z.of_nat k - 1) * 10 ^ (n' - Z.of_nat k))
      by (rewrite <- Z.pow_add_r by lia; f_equal; lia).
    assert (E2 : 10 ^ n' = 10 ^ Z.of_nat k * 10 ^ (n' - Z.of_nat k))
      by (rewrite <- Z.pow_add_r by lia; f_equal; lia).
    assert (0 < 10 ^ (n' - Z.of_nat k)) by (apply Z.pow_pos_nonneg; lia).
    rewrite E1, E2, <- Hz'. split.
    - apply Z.mul_le_mono_nonneg_r; lia.
    - apply Z.mul_lt_mono_pos_r; lia. }
  subst n'.
  assert (Hn16 : n <= 16).
  { destruct (Z_lt_le_dec 16 n) as [Hgt|]; [exfalso | lia].
    assert (10 ^ 16 <= 10 ^ (n - 1)) by (apply Z.pow_le_mono_r; lia).
    assert (2 ^ 53 < 10 ^ 16) by reflexivity. lia. }
  unfold render.
  replace ((-6 <? n) && (n <=? 21)) with true
    by (symmetry; apply andb_true_iff; split; [apply Z.ltb_lt | apply Z.leb_le]; lia).
  replace (Z.of_nat k <=? n) with true by (symmetry; apply Z.leb_le; lia).
  unfold decimal. fold n.
  replace (Z.to_nat n) with (k + Z.to_nat (n - Z.of_nat k))%nat by lia.
  rewrite <- Hz' at 1.
  replace (10 ^ (n - Z.of_nat k)) with (10 ^ Z.of_nat (Z.to_nat (n - Z.of_nat k)))
    by (rewrite Z2Nat.id by lia; reflexivity).
  rewrite digits_shift by lia. rewrite Z2Nat.id by lia. reflexivity.
Qed.


(** *** How far the nearest number is *)

Lemma roundHalfEven_error (p q : Z) :
  0 < q -> Z.abs (2 * p - 2 * roundHalfEven p q * q) <= q.
Proof.
  intros Hq. unfold roundHalfEven.
  pose proof (Z.div_mod p q ltac:(lia)) as E.
  pose proof (Z.mod_pos_bound p q Hq) as B.
  destruct (Z.compare_spec (2 * (p mod q)) q) as [H|H|H];
    [destruct (Z.even (p / q))|..]; apply Z.abs_le; nia.
Qed.

(** A number below 1 in binary exponent is within half a unit of its
    last place of the fraction it was rounded from. *)
Lemma roundRatio_error (a b : Z) (m : positive) (e : Z) :
  0 < a -> 0 < b -> e < 0 -> roundRatio false a b = S754_finite false m e ->
  Z.abs (2 * a * 2 ^ (- e) - 2 * Zpos m * b) <= b.
Proof.
  intros Ha Hb He. unfold roundRatio.
  replace (a <=? 0) with false by (symmetry; apply Z.leb_gt; lia).
  set (e0 := Z.max (floorLog2 a b - 52) (-1074)).
  unfold scaled, shift.
  destruct (roundHalfEven (a * 2 ^ Z.max 0 (- e0)) (b * 2 ^ Z.max 0 (- - e0)) =? 2 ^ 53) eqn:E53.
  - apply Z.eqb_eq in E53. change (2 ^ 52) with (Zpos 4503599627370496). cbv beta iota.
    destruct (e0 + 1 <=? 971); [|discriminate]. intros [= <- <-].
    revert E53. rewrite (pow_max_nonpos 2 (- - e0)) by lia.
    replace (Z.max 0 (- e0)) with (- (e0 + 1) + 1) by lia.
    rewrite Z.pow_add_r by lia. change (2 ^ 1) with 2. rewrite Z.mul_1_r.
    intros E53.
    pose proof (roundHalfEven_error (a * (2 ^ (- (e0 + 1)) * 2)) b Hb) as Herr.
    rewrite E53 in Herr. change (2 ^ 53) with 9007199254740992 in Herr.
    apply Z.abs_le in Herr. apply Z.abs_le. lia.
  - destruct (roundHalfEven (a * 2 ^ Z.max 0 (- e0)) (b * 2 ^ Z.max 0 (- - e0))) as [|mp|] eqn:Em;
      try discriminate.
    destruct (e0 <=? 971); [|discriminate]. intros [= <- <-].
    revert Em. rewrite (pow_max_nonpos 2 (- - e0)) by lia.
    replace (Z.max 0 (- e0)) with (- e0) by lia. rewrite Z.mul_1_r. intros Em.
    pose proof (roundHalfEven_error (a * 2 ^ (- e0)) b Hb) as Herr. rewrite Em in Herr.
    apply Z.abs_le in Herr. apply Z.abs_le. lia.
Qed.

(** A multiple of a quarter below [2^51] is a number, with the mantissa
    shifted to 53 bits. *)
Lemma quarters_small (j : Z) :
  1 <= j < 2 ^ 53 ->
  exists (m : positive) (e : Z),
    quarters j = S754_finite false m e /\ bounded prec emax m e = true
    /\ e = Z.log2 j - 54 /\ Zpos m = j * 2 ^ (- e - 2)
    /\ fraction m e = (Zpos m, 2 ^ (- e)).
Proof.
  intros Hj.
  assert (HL : 0 <= Z.log2 j <= 52).
  { split; [apply Z.log2_nonneg|]. apply Z.lt_succ_r, Z.log2_lt_pow2; lia. }
  set (e := Z.log2 j - 54).
  assert (Hpos : 0 < j * 2 ^ (- e - 2))
    by (apply Z.mul_pos_pos; [lia | apply Z.pow_pos_nonneg; lia]).
  destruct (j * 2 ^ (- e - 2)) as [|m|] eqn:Em; try lia.
  exists m, e.
  assert (Hf : fraction m e = (Zpos m, 2 ^ (- e))).
  { unfold fraction, shift. rewrite (pow_max_nonpos 2 e) by lia.
    replace (Z.max 0 (- e)) with (- e) by lia. f_equal; lia. }
  assert (Hb : bounded prec emax m e = true).
  { unfold bounded, canonical_mantissa, fexp, SpecFloat.emin, prec, emax.
    apply andb_true_iff. split; [apply Z.eqb_eq | apply Z.leb_le; lia].
    rewrite digits2_log2, <- Em, Z.log2_mul_pow2 by lia. lia. }
  split; [|split; [exact Hb|split; [reflexivity|split; [symmetry; exact Em|exact Hf]]]].
  rewrite <- (roundRatio_exact false m e Hb), Hf. cbn [fst snd].
  unfold quarters, ofDecimal, shift.
  change (10 ^ Z.max 0 (-2)) with 1. change (10 ^ Z.max 0 (- (-2))) with 100.
  apply roundRatio_equal; [lia | apply Z.pow_pos_nonneg; lia |].
  assert (E2 : 2 ^ (- e) = 4 * 2 ^ (- e - 2)).
  { replace (- e) with (2 + (- e - 2)) at 1 by lia. rewrite Z.pow_add_r by lia. reflexivity. }
  rewrite E2, <- Em. ring.
Qed.

(** *** The text of a multiple of a quarter *)

(** When the fraction has exactly [k] digits, they are the candidate. *)
Lemma candidate_exact (x : number) (a b n : Z) (k : nat) (s den : Z) :
  0 < den -> shift 10 a b (- (n - Z.of_nat k)) = (s * den, den) ->
  ofDecimal false s (n - Z.of_nat k) = x -> s <> 10 ^ Z.of_nat k ->
  candidate x a b n k = Some (s, n).
Proof.
  intros Hden Hshift Hx Hs. unfold candidate. rewrite Hshift.
  rewrite Z.div_mul, Z.mod_mul by lia. rewrite Hx.
  replace (numberEq x x) with true by (symmetry; apply numberEq_refl_iff; reflexivity).
  replace (s =? 10 ^ Z.of_nat k) with false by (symmetry; apply Z.eqb_neq; exact Hs).
  replace (2 * 0 ?= den) with Lt by (symmetry; apply Z.compare_lt_iff; lia).
  destruct (numberEq _ x); reflexivity.
Qed.

Lemma digits_app (t : nat) :
  forall (k : nat) (q f : Z),
    0 <= q -> 0 <= f < 10 ^ Z.of_nat t ->
    digits (k + t) (q * 10 ^ Z.of_nat t + f) = digits k q ++ digits t f.
Proof.
  induction t as [|t IH]; intros k q f Hq Hf.
  - cbn in Hf. assert (f = 0) as -> by lia.
    rewrite Nat.add_0_r, Z.mul_1_r, Z.add_0_r. cbn [digits]. rewrite app_nil_r. reflexivity.
  - replace (k + S t)%nat with (S (k + t)) by lia. cbn [digits].
    rewrite Nat2Z.inj_succ, Z.pow_succ_r in * by lia.
    assert (E : q * (10 * 10 ^ Z.of_nat t) + f = (q * 10 ^ Z.of_nat t + f / 10) * 10 + f mod 10).
    { pose proof (Z.div_mod f 10 ltac:(lia)). lia. }
    pose proof (Z.mod_pos_bound f 10 ltac:(lia)) as Hm.
    assert (Hd : 0 <= f / 10 < 10 ^ Z.of_nat t).
    { split; [apply Z.div_pos; lia|]. apply Z.div_lt_upper_bound; lia. }
    rewrite E, Z.div_add_l by lia.
    rewrite (Z.add_comm (_ * 10) (f mod 10)), Z.mod_add by lia.
    rewrite (Z.div_small (f mod 10)), Z.add_0_r, Z.mod_mod by lia.
    rewrite IH by assumption. rewrite app_assoc. reflexivity.
Qed.

(** [String(j / 4)] for a count of quarters [j] below [2^51] that is no
    whole number of units: the units, a point, and 25, 5 or 75. *)
Lemma toChars_quarters (j : Z) :
  4 <= j < 2 ^ 51 -> j mod 4 <> 0 ->
  toChars (quarters j)
  = decimal (j / 4) ++ "."%char :: digits (fst (quarterDigits (j mod 4)))
                                      (snd (quarterDigits (j mod 4))).
Proof.
  intros Hj Hr.
  pose proof (Z.div_mod j 4 ltac:(lia)) as Ej.
  pose proof (Z.mod_pos_bound j 4 ltac:(lia)) as Hr4.
  set (q := j / 4) in *. set (r := j mod 4) in *.
  assert (Hq : 1 <= q) by lia.
  destruct (quarters_small j ltac:(change (2 ^ 53) with 9007199254740992;
                                   change (2 ^ 51) with 2251799813685248 in Hj; lia))
    as (m & e & Ex & Hb & He & Hm & Hf).
  assert (HL : 2 <= Z.log2 j <= 50).
  { split; [apply Z.log2_le_pow2; [lia | change (2 ^ 2) with 4; lia]|].
    apply Z.lt_succ_r, Z.log2_lt_pow2; [lia | exact (proj2 Hj)]. }
  set (w := 2 ^ (- e - 2)) in *.
  assert (Hw : 4 <= w).
  { unfold w. change 4 with (2 ^ 2). apply Z.pow_le_mono_r; lia. }
  assert (E2 : 2 ^ (- e) = 4 * w).
  { unfold w. replace (- e) with (2 + (- e - 2)) at 1 by lia.
    rewrite Z.pow_add_r by lia. reflexivity. }
  destruct (numDigits_spec q Hq) as [Hn1 Hn].
  set (n := numDigits q) in *.
  assert (Hbr : bracket10 (Zpos m) (2 ^ (- e)) n).
  { unfold bracket10. rewrite (pow_max_nonpos 10 (- (n - 1))), (pow_max_nonpos 10 (- n)) by lia.
    replace (Z.max 0 (n - 1)) with (n - 1) by lia. replace (Z.max 0 n) with n by lia.
    rewrite Hm, E2. nia. }
  assert (Hpow : 0 < 2 ^ (- e)) by lia.
  assert (Hn0 : decimalExponent (Zpos m) (2 ^ (- e)) = n).
  { pose proof (decimalExponent_spec (Zpos m) (2 ^ (- e)) ltac:(lia) Hpow) as Hd.
    set (n0 := decimalExponent (Zpos m) (2 ^ (- e))) in *.
    assert (H1 : 1 <= n0).
    { destruct (Z_lt_le_dec n0 1) as [Hlt|]; [exfalso | assumption].
      destruct Hd as [_ Hhi]. rewrite (pow_max_nonpos 10 n0) in Hhi by lia.
      rewrite Hm, E2 in Hhi. pose proof (pow_max_pos 10 (- n0) ltac:(lia)). nia. }
    destruct Hd as [Hlo Hhi].
    rewrite (pow_max_nonpos 10 (- (n0 - 1))) in Hlo by lia.
    rewrite (pow_max_nonpos 10 (- n0)) in Hhi by lia.
    replace (Z.max 0 (n0 - 1)) with (n0 - 1) in Hlo by lia.
    replace (Z.max 0 n0) with n0 in Hhi by lia. rewrite Hm, E2 in Hlo, Hhi.
    destruct (Z_lt_le_dec n0 n) as [Hlt|Hge].
    - assert (10 ^ n0 <= 10 ^ (n - 1)) by (apply Z.pow_le_mono_r; lia). nia.
    - destruct (Z_lt_le_dec n n0) as [Hlt|Hle]; [|lia].
      assert (10 ^ n <= 10 ^ (n0 - 1)) by (apply Z.pow_le_mono_r; lia). nia. }
  assert (Hn16 : n <= 16).
  { destruct (Z_lt_le_dec 16 n) as [Hgt|]; [exfalso | lia].
    assert (10 ^ 16 <= 10 ^ (n - 1)) by (apply Z.pow_le_mono_r; lia).
    assert (2 ^ 51 < 10 ^ 16) by reflexivity. lia. }
  set (t := fst (quarterDigits r)). set (f := snd (quarterDigits r)).
  assert (Ht : (1 <= t <= 2)%nat /\ 0 <= f < 10 ^ Z.of_nat t
               /\ 4 * f = r * 10 ^ Z.of_nat t /\ (t = 1%nat -> r = 2)).
  { unfold t, f, quarterDigits.
    assert (r = 1 \/ r = 2 \/ r = 3) as [-> | [-> | ->]] by lia; cbn; lia. }
  destruct Ht as (Ht & Hf10 & Hf4 & Ht1).
  set (S := q * 10 ^ Z.of_nat t + f).
  assert (HS4 : 4 * S = j * 10 ^ Z.of_nat t) by (unfold S; nia).
  assert (H10t : 0 < 10 ^ Z.of_nat t) by (apply Z.pow_pos_nonneg; lia).
  set (K := (Z.to_nat n + t)%nat).
  assert (HpK : n - Z.of_nat K = - Z.of_nat t) by (unfold K; lia).
  assert (Hexact : candidate (S754_finite false m e) (Zpos m) (2 ^ (- e)) n K = Some (S, n)).
  { apply (candidate_exact _ _ _ _ _ _ (2 ^ (- e))); [exact Hpow | | |].
    - rewrite HpK, Z.opp_involutive. unfold shift.
      rewrite (pow_max_nonpos 10 (- Z.of_nat t)) by lia.
      replace (Z.max 0 (Z.of_nat t)) with (Z.of_nat t) by lia.
      f_equal; [|lia]. rewrite Hm, E2. nia.
    - rewrite HpK, <- Ex. unfold quarters, ofDecimal, shift.
      change (10 ^ Z.max 0 (-2)) with 1. change (10 ^ Z.max 0 (- (-2))) with 100.
      rewrite (pow_max_nonpos 10 (- Z.of_nat t)), Z.opp_involutive by lia.
      replace (Z.max 0 (Z.of_nat t)) with (Z.of_nat t) by lia.
      apply roundRatio_equal; lia.
    - assert (S < 10 ^ Z.of_nat K); [|lia].
      unfold K. rewrite Nat2Z.inj_add, Z2Nat.id, Z.pow_add_r by lia. unfold S. nia. }
  rewrite Ex. unfold toChars. rewrite Hf, Hn0.
  destruct (shortest_least (S754_finite false m e) (Zpos m) (2 ^ (- e)) n
              (Z.to_nat (n + Z.max 0 (- e))) 1 K ltac:(unfold K; lia)
              ltac:(rewrite Hexact; discriminate))
    as (s & n' & k & Hs & Hc & Hk).
  rewrite Hs. cbn [app].
  assert (Ek : k = K).
  { destruct (Nat.eq_dec k K) as [|Hne]; [assumption | exfalso].
    destruct (candidate_sound (S754_finite false m e) (Zpos m) (2 ^ (- e)) n k s n'
                (Pos2Z.is_pos m) Hpow Hbr (proj1 Hk) Hc) as [Hval Hs10].
    assert (Hs1 : 1 <= s).
    { assert (0 < 10 ^ (Z.of_nat k - 1)) by (apply Z.pow_pos_nonneg; lia). lia. }
    assert (Hp : - 1 <= n' - Z.of_nat k /\ (t = 1%nat -> 0 <= n' - Z.of_nat k))
      by (destruct (candidate_exponent _ _ _ _ _ _ _ Hc); unfold K in *; lia).
    revert Hval. unfold ofDecimal, shift. rewrite Z.mul_1_l.
    set (p := n' - Z.of_nat k) in *.
    assert (0 < 10 ^ Z.max 0 p) by (apply Z.pow_pos_nonneg; lia).
    set (V := s * 10 ^ Z.max 0 p).
    assert (HV : 1 <= V).
    { unfold V. change 1 with (1 * 1). apply Z.mul_le_mono_nonneg; lia. }
    intros Hval.
    destruct (Z_lt_le_dec p 0) as [Hneg|Hnn].
    - assert (p = -1) as Ep by lia. rewrite Ep in Hval.
      change (10 ^ Z.max 0 (- (-1))) with 10 in Hval.
      apply roundRatio_error in Hval; [|lia..].
      rewrite Hm, E2 in Hval. apply Z.abs_le in Hval.
      replace (2 * V * (4 * w) - 2 * (j * w) * 10) with (4 * w * (2 * V - 5 * j)) in Hval
        by ring.
      assert (2 * V = 5 * j).
      { destruct (Z_lt_le_dec (2 * V - 5 * j) 0) as [Hd | Hd].
        - assert (4 * w * (2 * V - 5 * j) <= 4 * w * (-1))
            by (apply Z.mul_le_mono_nonneg_l; lia). lia.
        - destruct (Z.eq_dec (2 * V - 5 * j) 0) as [|Hd0]; [lia|].
          assert (4 * w * 1 <= 4 * w * (2 * V - 5 * j))
            by (apply Z.mul_le_mono_nonneg_l; lia). lia. }
      assert (t = 2%nat) by (destruct Hp as [_ Hp1]; lia).
      assert (r = 1 \/ r = 3) as Hodd.
      { unfold t, quarterDigits in *. destruct (r =? 2) eqn:E; [cbn in *; lia|].
        apply Z.eqb_neq in E. lia. }
      lia.
    - rewrite (pow_max_nonpos 10 (- p)) in Hval by lia.
      apply roundRatio_error in Hval; [|lia..].
      rewrite Hm, E2 in Hval. apply Z.abs_le in Hval.
      replace (2 * V * (4 * w) - 2 * (j * w) * 1) with (2 * w * (4 * V - j)) in Hval by ring.
      assert (4 * V = j); [|lia].
      destruct (Z_lt_le_dec (4 * V - j) 0) as [Hd | Hd].
      + assert (2 * w * (4 * V - j) <= 2 * w * (-1))
          by (apply Z.mul_le_mono_nonneg_l; lia). lia.
      + destruct (Z.eq_dec (4 * V - j) 0) as [|Hd0]; [lia|].
        assert (2 * w * 1 <= 2 * w * (4 * V - j))
          by (apply Z.mul_le_mono_nonneg_l; lia). lia. }
  subst k. rewrite Hexact in Hc. injection Hc as <- <-.
  unfold render.
  replace ((-6 <? n) && (n <=? 21)) with true
    by (symmetry; apply andb_true_iff; split; [apply Z.ltb_lt | apply Z.leb_le]; lia).
  replace (Z.of_nat K <=? n) with false by (symmetry; apply Z.leb_gt; unfold K; lia).
  replace (0 <? n) with true by (symmetry; apply Z.ltb_lt; lia).
  unfold K, S. rewrite digits_app by lia.
  rewrite firstn_app, skipn_app, digits_length, Nat.sub_diag.
  rewrite firstn_all2, skipn_all2 by (rewrite digits_length; lia).
  cbn [firstn skipn app]. rewrite app_nil_r. reflexivity.
Qed.

(** *** The duration pattern admits that text *)

Lemma lit_at_end (w : list ascii) (z : mstate) (F : mstate -> mstate) :
  (forall y, rest (F y) = rest y) -> rest z = w ->
  is_Some (m false (Lit w) z (fun y => m false Eol (F y) Some)).
Proof.
  intros HF Hz. apply lit_is_Some. exists []. rewrite app_nil_r. split; [exact Hz|].
  cbn [m]. rewrite HF. cbn [rest]. eauto.
Qed.

(** The converse of [duration_accepts]. *)
Lemma duration_matches (ip t : list ascii) :
  isIntPart ip ->
  t = ip \/ (exists fp, In fp quarterFractions /\ t = ip ++ "."%char :: fp) ->
  searchFrom patterns.duration None t = true.
Proof.
  intros Hip Ht. apply searchFrom_spec. exists [], t. split; [reflexivity|].
  cbn [ignoreCase source patterns.duration lastOr fold_left].
  change (m false (Seq Bol ?r) ?x ?k)
    with (match prev x with None => m false r x k | Some _ => None end).
  cbn [prev].
  change (m false (Seq (Group 1 ?r1) ?r2) ?x ?k)
    with (m false r1 x
            (fun y => m false r2
                        (MState (prev y) (rest y)
                           ((1%nat, firstn (length (rest x) - length (rest y)) (rest x)) :: caps y))
                        k)).
  set (K := fun y : mstate => _).
  assert (HK : forall y,
             rest y = [] \/ (exists fp, In fp quarterFractions /\ rest y = "."%char :: fp) ->
             is_Some (K y)).
  { intros y Hy. unfold K.
    change (m false (Seq (Opt ?g) Eol) ?x Some)
      with (m false (Alt g Empty) x (fun z => m false Eol z Some)).
    apply alt_is_Some. destruct Hy as [Hy | (fp & Hfp & Hy)].
    - right. cbn [m rest]. rewrite Hy. eauto.
    - left.
      change (m false (Group 2 (Seq (Char ".") (Group 3 ?alts))) ?x ?k)
        with (m false (Char ".") x
                (fun y1 => m false alts y1
                   (fun y2 => k (MState (prev y2) (rest y2)
                      ((2%nat, firstn (length (rest x) - length (rest y2)) (rest x))
                       :: (3%nat, firstn (length (rest y1) - length (rest y2)) (rest y1))
                       :: caps y2))))).
      apply char_is_Some. exists fp. cbn [rest]. split; [exact Hy|].
      cbv beta. unfold quarterFractions in Hfp. cbn [In] in Hfp.
      destruct Hfp as [<- | [<- | [<- | [<- | [<- | []]]]]].
      + apply alt_is_Some. left.
        apply (lit_at_end (chars "25")); reflexivity.
      + apply alt_is_Some. right. apply alt_is_Some. left.
        apply (lit_at_end (chars "5")); reflexivity.
      + do 2 (apply alt_is_Some; right). apply alt_is_Some. left.
        apply (lit_at_end (chars "75")); reflexivity.
      + do 3 (apply alt_is_Some; right). apply alt_is_Some. left.
        apply (lit_at_end (chars "0")); reflexivity.
      + do 4 (apply alt_is_Some; right).
        apply (lit_at_end (chars "00")); reflexivity. }
  apply alt_is_Some. destruct Hip as [-> | (c & l & -> & Hc & Hl)].
  - left. apply char_is_Some. cbn [rest].
    destruct Ht as [-> | (fp & Hfp & ->)].
    + exists []. split; [reflexivity|]. apply HK. left. reflexivity.
    + exists ("."%char :: fp). split; [reflexivity|]. apply HK. right. eauto.
  - right.
    change (m false (Seq (Class ?p) (Star (Class ?p2))) ?x ?k)
      with (m false (Class p) x
              (fun y => starLoop (m false (Class p2)) k (length (rest y)) y)).
    apply m_Class_is_Some. cbn [rest inClass].
    destruct Ht as [-> | (fp & Hfp & ->)].
    + exists c, l. split; [reflexivity|]. split; [exact Hc|].
      apply starLoop_class; [cbn; lia|]. exists l, []. cbn [rest prev caps inClass].
      rewrite app_nil_r. split; [reflexivity|]. split; [exact Hl|].
      apply HK. left. reflexivity.
    + exists c, (l ++ "."%char :: fp). split; [reflexivity|]. split; [exact Hc|].
      apply starLoop_class; [cbn; lia|]. exists l, ("."%char :: fp).
      cbn [rest prev caps inClass].
      split; [reflexivity|]. split; [exact Hl|].
      apply HK. right. eauto.
Qed.

Lemma digit_range (c : ascii) :
  isDigit c = true -> Ascii.eqb c "0" = false -> range "1" "9" c = true.
Proof.
  unfold range, isDigit. intros H E. apply andb_true_iff in H as [H1 H2].
  apply N.leb_le in H1, H2. apply Ascii.eqb_neq in E.
  assert (code c <> 48%N) by (intros Hc; apply E, code_inj; exact Hc).
  apply andb_true_iff. split; apply N.leb_le; cbn; lia.
Qed.

Lemma decimal_isIntPart (z : Z) : 0 <= z -> isIntPart (decimal z).
Proof.
  intros Hz. destruct (Z.eq_dec z 0) as [-> | Hne]; [left; reflexivity | right].
  destruct (numDigits_spec z ltac:(lia)) as [Hn1 Hn]. unfold decimal.
  destruct (digits_head (Z.to_nat (numDigits z)) z ltac:(lia)
              ltac:(rewrite Z2Nat.id by lia; exact Hn)) as (d & l & E & Hd & H0).
  exists d, l. split; [exact E|]. split; [apply digit_range; assumption|].
  pose proof (digits_isDigit (Z.to_nat (numDigits z)) z) as Hall.
  rewrite E in Hall. cbn [forallb] in Hall. apply andb_true_iff in Hall as [_ Hall].
  exact Hall.
Qed.

(** Every multiple of a quarter from 0 below [2^49] passes the duration
    pattern. *)
Lemma quarters_accepted (j : Z) :
  0 <= j < 2 ^ 51 -> test patterns.duration (toString (quarters j)) = true.
Proof.
  intros Hj. unfold test, toString. rewrite chars_ofChars.
  pose proof (Z.div_mod j 4 ltac:(lia)) as Ej.
  pose proof (Z.mod_pos_bound j 4 ltac:(lia)) as Hr4.
  destruct (Z_lt_le_dec j 4) as [Hlt | Hge].
  - assert (j = 0 \/ j = 1 \/ j = 2 \/ j = 3) as [-> | [-> | [-> | ->]]] by lia;
      vm_compute; reflexivity.
  - apply (duration_matches (decimal (j / 4))).
    + apply decimal_isIntPart. apply Z.div_pos; lia.
    + destruct (Z.eq_dec (j mod 4) 0) as [E0 | Hne].
      * left.
        assert (Eq : quarters j = ofZ (j / 4)).
        { destruct (roundRatio_whole (j / 4)) as [<- | Hneg];
            [|pose proof (Z.div_pos j 4); lia].
          unfold quarters, ofDecimal, shift.
          change (10 ^ Z.max 0 (-2)) with 1. change (10 ^ Z.max 0 (- (-2))) with 100.
          apply roundRatio_equal; lia. }
        rewrite Eq. apply toChars_whole.
        change (2 ^ 53) with 9007199254740992.
        change (2 ^ 51) with 2251799813685248 in Hj. lia.
      * right. eexists. split; [|apply toChars_quarters; [lia | exact Hne]].
        unfold quarterDigits, quarterFractions.
        assert (j mod 4 = 1 \/ j mod 4 = 2 \/ j mod 4 = 3) as [-> | [-> | ->]] by lia;
          cbn; tauto.
Qed.

(** A duration passes the rule exactly when its text is units, or units,
    a point and one of the five fractions. *)
Lemma duration_text (x : number) :
  test patterns.duration (toString x) = true
  <-> exists ip, isIntPart ip
        /\ (toChars x = ip
            \/ exists fp, In fp quarterFractions /\ toChars x = ip ++ "."%char :: fp).
Proof.
  unfold test, toString. rewrite chars_ofChars. split.
  - apply duration_accepts.
  - intros (ip & Hip & Ht). exact (duration_matches ip _ Hip Ht).
Qed.

End QuarterTexts.

(** C2, as the code has it: a duration that is not a non-negative exact
    multiple of 0.25 is reported, and every multiple of 0.25 from 0 below
    2^49 is not.  The rule reads the text of the number: a duration
    passes exactly when its text is plain quarter notation, so a multiple
    whose text is something else is reported, as the counterexample
    shows. *)
Theorem duration_rule :
  forall data : Task,
    valid_binary prec emax (duration data) = true ->
    (isQuarterMultiple (duration data) = false ->
     getProp "duration" (Validators.validateTask data) = Some Validators.msgDuration)
    /\ (getProp "duration" (Validators.validateTask data) = None ->
        isQuarterMultiple (duration data) = true)
    /\ (forall j, 0 <= j < 2 ^ 51 -> duration data = quarters j ->
        getProp "duration" (Validators.validateTask data) = None)
    /\ (getProp "duration" (Validators.validateTask data) = None
        <-> plainQuarterText (toChars (duration data)))
    /\ (getProp "duration" (Validators.validateTask data) = Some Validators.msgDuration
        <-> ~ plainQuarterText (toChars (duration data))).
Proof.
  intros data Hv. rewrite durationError.
  pose proof (duration_text (duration data)) as Htext.
  fold (plainQuarterText (toChars (duration data))) in Htext.
  destruct (Regex.test Validators.patterns.duration (toString (duration data))) eqn:Ht.
  - pose proof (accepted_is_quarter _ Hv Ht) as Hq.
    split; [congruence|]. split; [auto|]. split; [auto|]. split.
    + split; [intros _; apply Htext; reflexivity | reflexivity].
    + split; [discriminate | intros Hn; exfalso; apply Hn, Htext; reflexivity].
  - split; [reflexivity|]. split; [discriminate|]. split.
    + intros j Hj E. rewrite E, quarters_accepted in Ht by exact Hj. discriminate.
    + split.
      * split; [discriminate | intros Hp; apply Htext in Hp; discriminate].
      * split; [intros _ Hp; apply Htext in Hp; discriminate | reflexivity].
Qed.

Lemma duration_rule_witness :
  valid_binary prec emax (duration (App.formData Examples.env0 Examples.studyMath)) = true
  /\ getProp "duration"
       (Validators.validateTask (App.formData Examples.env0 Examples.studyMath)) = None
  /\ isQuarterMultiple (duration (App.formData Examples.env0 Examples.studyMath)) = true.
Proof.
  destruct (duration_rule (App.formData Examples.env0 Examples.studyMath))
    as (_ & Hq & Hj & _); [reflexivity|].
  split; [reflexivity|].
  assert (H : getProp "duration"
                (Validators.validateTask (App.formData Examples.env0 Examples.studyMath))
              = None) by (apply (Hj 6); [lia | reflexivity]).
  split; [exact H | exact (Hq H)].
Defined.

(** The bound is sharp: 2^49 + 0.25 is a multiple of a quarter whose
    text drops the last digit, and it is reported. *)
Lemma duration_above_bound_is_reported :
  duration (App.formData Examples.env0 Examples.preciseDuration) = quarters (2 ^ 51 + 1)
  /\ isQuarterMultiple (duration (App.formData Examples.env0 Examples.preciseDuration)) = true
  /\ toString (duration (App.formData Examples.env0 Examples.preciseDuration))
     = "562949953421312.2"
  /\ Validators.validateTask (App.formData Examples.env0 Examples.preciseDuration)
     = [("duration", Validators.msgDuration)].
Proof. vm_compute. repeat split; reflexivity. Qed.

(** C2, as stated: 1e21 is a non-negative exact multiple of 0.25, and
    the validator reports a duration error for it, because its text is
    1e+21. *)
Lemma duration_1e21_is_reported :
  valid_binary prec emax (duration (App.formData Examples.env0 Examples.hugeDuration)) = true
  /\ isQuarterMultiple (duration (App.formData Examples.env0 Examples.hugeDuration)) = true
  /\ toString (duration (App.formData Examples.env0 Examples.hugeDuration)) = "1e+21"
  /\ Validators.validateTask (App.formData Examples.env0 Examples.hugeDuration)
     = [("duration", Validators.msgDuration)]
  /\ ~ (getProp "duration"
         (Validators.validateTask (App.formData Examples.env0 Examples.hugeDuration))
       = Some Validators.msgDuration
       <-> isQuarterMultiple
             (duration (App.formData Examples.env0 Examples.hugeDuration)) = false).
Proof.
  vm_compute. repeat split; try reflexivity.
  intros [H _]. specialize (H eq_refl). discriminate H.
Qed.

(** ** JSON text read back *)

Section JsonText.
Import JsNumber JSON.

(** An induction principle that reaches the elements of arrays and the
    members of objects. *)
Lemma value_ind' (P : value -> Prop) :
  P Null -> (forall b, P (Bool b)) -> (forall x, P (Num x)) -> (forall s, P (Str s)) ->
  (forall items, Forall P items -> P (Arr items)) ->
  (forall members, Forall (fun kv => P (snd kv)) members -> P (Obj members)) ->
  forall v, P v.
Proof.
  intros HN HB HX HS HA HO.
  fix F 1. intros [| b | x | s | items | members].
  - exact HN.
  - apply HB.
  - apply HX.
  - apply HS.
  - apply HA. induction items as [|v items IH]; constructor; [apply F | exact IH].
  - apply HO. induction members as [|[k v] members IH]; constructor; [apply F | exact IH].
Qed.

Lemma isChar_code (a b : ascii) : isChar (code a) b = Ascii.eqb a b.
Proof.
  unfold isChar. destruct (Ascii.eqb a b) eqn:E.
  - apply Ascii.eqb_eq in E. subst b. apply N.eqb_refl.
  - apply N.eqb_neq. intros H. apply code_inj in H. subst b.
    rewrite Ascii.eqb_refl in E. discriminate.
Qed.

Lemma code_bound (c : ascii) : (code c < 256)%N.
Proof. apply N_ascii_bounded. Qed.

Lemma narrow_code (c : ascii) (t : text) : narrow (code c :: t) = c :: narrow t.
Proof.
  cbn [narrow]. pose proof (code_bound c) as H. apply N.ltb_lt in H. rewrite H.
  unfold code. rewrite ascii_N_embedding. reflexivity.
Qed.

Lemma narrow_wide (l : list ascii) (t : text) : narrow (wide l ++ t) = l ++ narrow t.
Proof.
  induction l as [|c l IH]; [reflexivity|].
  cbn [wide map app]. rewrite narrow_code. fold (wide l). rewrite IH. reflexivity.
Qed.

Lemma wide_length (l : list ascii) : length (wide l) = length l.
Proof. apply length_map. Qed.

Lemma hexVal_hexDigit (d : N) : (d < 16)%N -> hexVal (hexDigit d) = Some d.
Proof.
  intros H.
  assert (d = 0 \/ d = 1 \/ d = 2 \/ d = 3 \/ d = 4 \/ d = 5 \/ d = 6 \/ d = 7 \/ d = 8
          \/ d = 9 \/ d = 10 \/ d = 11 \/ d = 12 \/ d = 13 \/ d = 14 \/ d = 15)%N as Hd by lia.
  repeat destruct Hd as [-> | Hd]; try subst d; reflexivity.
Qed.

(** An escape is read back as its code unit. *)
Lemma parseChars_unicodeEscape (n : N) (t : text) :
  (n < 65536)%N ->
  parseChars (unicodeEscape n ++ t)
  = match parseChars t with Some (s, r) => Some (n :: s, r) | None => None end.
Proof.
  intros Hn. unfold unicodeEscape. cbn [app parseChars].
  rewrite !isChar_code. cbn [Ascii.eqb Bool.eqb backslash dquote]. cbv iota.
  unfold hex4.
  rewrite !hexVal_hexDigit
    by (try (apply N.mod_lt; discriminate); apply N.Div0.div_lt_upper_bound; exact Hn).
  replace (4096 * (n / 4096) + 256 * ((n / 256) mod 16) + 16 * ((n / 16) mod 16) + n mod 16)%N
    with n; [reflexivity|].
  pose proof (N.Div0.div_mod n 16) as E1.
  pose proof (N.Div0.div_mod (n / 16) 16) as E2.
  pose proof (N.Div0.div_mod (n / 256) 16) as E3.
  rewrite N.Div0.div_div in E2. change (16 * 16)%N with 256%N in E2.
  replace (n / 256 / 16)%N with (n / 4096)%N in E3
    by (rewrite N.Div0.div_div; reflexivity).
  lia.
Qed.

Lemma parseChars_raw (n : N) (t : text) :
  n <> 34%N -> n <> 92%N -> (32 <= n)%N ->
  parseChars (n :: t)
  = match parseChars t with Some (s, r) => Some (n :: s, r) | None => None end.
Proof.
  intros H1 H2 H3. cbn [parseChars]. unfold isChar.
  change (code dquote) with 34%N. change (code backslash) with 92%N.
  apply N.eqb_neq in H1, H2. rewrite H1, H2.
  replace (n <? 32)%N with false by (symmetry; apply N.ltb_ge; exact H3). reflexivity.
Qed.

Lemma parseChars_quoteChar (n : N) (t : text) :
  parseChars (quoteChar n ++ t)
  = match parseChars t with Some (s, r) => Some (n :: s, r) | None => None end.
Proof.
  unfold quoteChar.
  repeat match goal with
         | |- context [(n =? ?k)%N] =>
             destruct (N.eqb_spec n k) as [-> | ?]; [reflexivity|]
         end.
  destruct (N.ltb_spec n 32) as [Hlt | Hge].
  - apply parseChars_unicodeEscape. lia.
  - apply parseChars_raw; assumption.
Qed.

Lemma surrogate_bound (n : N) : isHigh n = true \/ isLow n = true -> (55296 <= n < 65536)%N.
Proof.
  unfold isHigh, isLow. intros [H | H]; apply andb_true_iff in H as [H1 H2];
    apply N.leb_le in H1, H2; lia.
Qed.

(** A quoted string is read back as the string. *)
Lemma parseChars_quote (s : text) (rest : text) :
  parseChars (quoteUnits s ++ code dquote :: rest) = Some (s, rest).
Proof.
  assert (H : forall (n : nat) (s : text), (length s <= n)%nat ->
                parseChars (quoteUnits s ++ code dquote :: rest) = Some (s, rest));
    [|exact (H (length s) s (Nat.le_refl _))].
  clear s. induction n as [|n IH]; intros s Hlen.
  - destruct s; [reflexivity | cbn in Hlen; lia].
  - destruct s as [|c s]; [reflexivity|]. cbn [length] in Hlen. cbn [quoteUnits].
    destruct (isHigh c) eqn:Hh.
    + destruct (surrogate_bound c (or_introl Hh)) as [Hc1 Hc2].
      destruct s as [|d s].
      * rewrite parseChars_unicodeEscape by exact Hc2. reflexivity.
      * destruct (isLow d) eqn:Hl.
        -- destruct (surrogate_bound d (or_intror Hl)) as [Hd1 Hd2].
           cbn [app]. rewrite parseChars_raw by lia. rewrite parseChars_raw by lia.
           rewrite IH by (cbn [length] in *; lia). reflexivity.
        -- rewrite <- app_assoc, parseChars_unicodeEscape by exact Hc2.
           rewrite IH by (cbn [length] in *; lia). reflexivity.
    + destruct (isLow c) eqn:Hl.
      * destruct (surrogate_bound c (or_intror Hl)) as [Hc1 Hc2].
        rewrite <- app_assoc, parseChars_unicodeEscape by exact Hc2.
        rewrite IH by (cbn [length] in *; lia). reflexivity.
      * rewrite <- app_assoc, parseChars_quoteChar, IH by (cbn [length] in *; lia). reflexivity.
Qed.

Lemma skipWs_app (w t : text) :
  forallb isWs w = true ->
  match t with c :: _ => isWs c = false | [] => True end ->
  skipWs (w ++ t) = t.
Proof.
  intros Hw Ht. induction w as [|c w IH]; cbn [app skipWs].
  - destruct t as [|c t]; [reflexivity|]. cbn. rewrite Ht. reflexivity.
  - cbn in Hw. apply andb_true_iff in Hw as [Hc Hw]. rewrite Hc. apply IH, Hw.
Qed.

Lemma eqUnits_spec (a b : text) : eqUnits a b = true <-> a = b.
Proof.
  revert b. induction a as [|x a IH]; intros [|y b]; cbn [eqUnits];
    try (split; [discriminate | intros [=]]); [tauto|].
  rewrite andb_true_iff, N.eqb_eq, IH. split; [intros [-> ->]; reflexivity | intros [= -> ->]; auto].
Qed.

Lemma eqUnits_sym (a b : text) : eqUnits a b = eqUnits b a.
Proof.
  destruct (eqUnits a b) eqn:E1, (eqUnits b a) eqn:E2; try reflexivity.
  - apply eqUnits_spec in E1. subst b.
    assert (eqUnits a a = true) by (apply eqUnits_spec; reflexivity). congruence.
  - apply eqUnits_spec in E2. subst b.
    assert (eqUnits a a = true) by (apply eqUnits_spec; reflexivity). congruence.
Qed.

(** *** Objects as they are built *)

Lemma lookup_fresh (k : text) (o : list (text * value)) :
  existsb (eqUnits k) (map fst o) = false -> lookup k o = None.
Proof.
  induction o as [|[k' w] o IH]; cbn; [reflexivity|].
  intros H. apply orb_false_iff in H as [H1 H2].
  rewrite eqUnits_sym, H1. exact (IH H2).
Qed.

Lemma place_last (k : text) (v : value) (o : list (text * value)) :
  forallb (fun k' => negb (before k k')) (map fst o) = true -> place k v o = o ++ [(k, v)].
Proof.
  induction o as [|[k' w] o IH]; cbn; [reflexivity|].
  intros H. apply andb_true_iff in H as [H1 H2]. apply negb_true_iff in H1.
  rewrite H1, (IH H2). reflexivity.
Qed.

Lemma distinct_app (l1 l2 : list text) :
  distinct (l1 ++ l2) = true ->
  distinct l2 = true /\ forall k, In k l1 -> existsb (eqUnits k) l2 = false.
Proof.
  induction l1 as [|k l1 IH]; cbn [app distinct]; intros H.
  - split; [exact H | intros k []].
  - apply andb_true_iff in H as [H1 H2]. destruct (IH H2) as [Hd Hin].
    split; [exact Hd|]. intros k' [<- | Hk]; [|exact (Hin k' Hk)].
    apply negb_true_iff in H1. rewrite existsb_app in H1.
    apply orb_false_iff in H1 as [_ H1]. exact H1.
Qed.

Lemma enumerated_app (l1 l2 : list text) :
  enumerated (l1 ++ l2) = true ->
  enumerated l2 = true
  /\ forall k, In k l1 -> forallb (fun k' => negb (before k' k)) l2 = true.
Proof.
  induction l1 as [|k l1 IH]; cbn [app enumerated]; intros H.
  - split; [exact H | intros k []].
  - apply andb_true_iff in H as [H1 H2]. destruct (IH H2) as [Hd Hin].
    split; [exact Hd|]. intros k' [<- | Hk]; [|exact (Hin k' Hk)].
    rewrite forallb_app in H1. apply andb_true_iff in H1 as [_ H1]. exact H1.
Qed.

Lemma build_from (ms acc : list (text * value)) :
  distinct (map fst (acc ++ ms)) = true -> enumerated (map fst (acc ++ ms)) = true ->
  fold_left (fun o kv => define (fst kv) (snd kv) o) ms acc = acc ++ ms.
Proof.
  revert acc. induction ms as [|[k v] ms IH]; intros acc Hd He; cbn [fold_left].
  - rewrite app_nil_r. reflexivity.
  - cbn [fst snd].
    pose proof Hd as Hd'. pose proof He as He'. rewrite map_app in Hd', He'.
    destruct (distinct_app _ _ Hd') as [_ Hfresh].
    destruct (enumerated_app _ _ He') as [_ Hlater].
    assert (Hdef : define k v acc = acc ++ [(k, v)]).
    { unfold define. rewrite lookup_fresh.
      - apply place_last. apply forallb_forall. intros k' Hk'.
        specialize (Hlater k' Hk'). cbn [map fst forallb] in Hlater.
        apply andb_true_iff in Hlater as [H _]. exact H.
      - destruct (existsb (eqUnits k) (map fst acc)) eqn:E; [|reflexivity].
        apply existsb_exists in E as (k' & Hk' & E).
        specialize (Hfresh k' Hk'). cbn [map fst existsb] in Hfresh.
        apply orb_false_iff in Hfresh as [Hf _]. rewrite eqUnits_sym in Hf. congruence. }
    rewrite Hdef, IH; rewrite <- ?app_assoc; [reflexivity | exact Hd | exact He].
Qed.

(** Members that are distinct and in the order of enumeration are the
    object they build. *)
Lemma build_enumerated (ms : list (text * value)) :
  distinct (map fst ms) = true -> enumerated (map fst ms) = true -> build ms = ms.
Proof. intros Hd He. unfold build. rewrite build_from; [reflexivity | exact Hd | exact He]. Qed.

Lemma toChars_head (x : number) :
  jsonNumber x = true ->
  exists c t, toChars x = c :: t /\ (isDigit c = true \/ c = "-"%char).
Proof.
  unfold jsonNumber. intros H. apply andb_true_iff in H as [H _].
  apply andb_true_iff in H as [Hv Hf].
  destruct x as [s|s| |s m e]; try discriminate.
  - exists "0"%char, []. auto.
  - cbn in Hv. destruct (toChars_finite s m e Hv) as (s0 & n & k & Ht & Hk & Hs & _).
    rewrite Ht. destruct s; [cbn; eauto|].
    destruct (render_head s0 n k Hk Hs) as (c & t & -> & Hc). cbn. eauto.
Qed.

Lemma digit_or_minus_starts (c : ascii) :
  isDigit c = true \/ c = "-"%char ->
  isWs (code c) = false /\ isChar (code c) "]" = false /\ isChar (code c) "}" = false
  /\ isChar (code c) "," = false
  /\ isChar (code c) "n" = false /\ isChar (code c) "t" = false
  /\ isChar (code c) "f" = false
  /\ isChar (code c) dquote = false /\ isChar (code c) "[" = false
  /\ isChar (code c) "{" = false.
Proof.
  intros [H | ->]; [|repeat split; reflexivity].
  destruct c as [[] [] [] [] [] [] [] []]; try discriminate H; repeat split; reflexivity.
Qed.

(** A number literal is read back from a text with any code unit. *)
Lemma parseNumberAt_toChars (x : number) (rest : text) :
  valid_binary prec emax x = true -> isFinite x = true -> x <> S754_zero true ->
  endsNumberAt rest = true ->
  parseNumberAt (wide (toChars x) ++ rest) = Some (x, rest).
Proof.
  intros Hv Hf Hz Hrest. unfold parseNumberAt. rewrite narrow_wide.
  rewrite (parseNumber_toChars x (narrow rest) Hv Hf Hz Hrest).
  rewrite length_app, Nat.add_sub, <- wide_length.
  rewrite skipn_app, Nat.sub_diag, skipn_all. reflexivity.
Qed.

End JsonText.

Section Layout.
Import JsNumber JSON.
Variables gap indent : text.
Hypothesis Hgap : forallb isWs gap = true.
Hypothesis Hindent : forallb isWs indent = true.

Lemma wrap_layout (opening closing : ascii) (parts : list text) :
  parts <> [] ->
  wrap opening closing gap indent parts
  = code opening :: opener gap indent ++ join (separator gap indent) parts
      ++ closer gap indent ++ [code closing].
Proof.
  intros Hne. unfold wrap, opener, separator, closer, opener.
  destruct parts as [|p parts]; [congruence|].
  destruct gap as [|g gap']; [reflexivity|].
  cbn [app]. rewrite <- ?app_assoc. reflexivity.
Qed.

Lemma opener_ws : forallb isWs (opener gap indent) = true.
Proof.
  unfold opener. destruct gap as [|g gap']; [reflexivity|].
  cbn [forallb]. rewrite forallb_app, Hgap, Hindent. reflexivity.
Qed.

Lemma closer_ws : forallb isWs (closer gap indent) = true.
Proof.
  unfold closer. destruct gap; [reflexivity|]. cbn [forallb]. rewrite Hindent. reflexivity.
Qed.

Lemma inner_ws : forallb isWs (indent ++ gap) = true.
Proof. rewrite forallb_app, Hgap, Hindent. reflexivity. Qed.

Lemma colon_layout : exists w, colon gap = code ":"%char :: w /\ forallb isWs w = true.
Proof. unfold colon. destruct gap; eexists; split; reflexivity. Qed.

(** After the closing text comes the closing bracket. *)
Lemma skipWs_closer (closing : N) (rest : text) :
  isWs closing = false ->
  skipWs (closer gap indent ++ closing :: rest) = closing :: rest.
Proof. intros H. apply skipWs_app; [apply closer_ws | exact H]. Qed.

Lemma endsNumber_closer (closing : ascii) (rest : text) :
  endsNumber [closing] = true ->
  endsNumberAt (closer gap indent ++ code closing :: rest) = true.
Proof.
  unfold closer, endsNumberAt.
  destruct gap; intros H; cbn [app]; rewrite narrow_code; [exact H | reflexivity].
Qed.

Lemma skipWs_opener (t : text) :
  startsValue t -> skipWs (opener gap indent ++ t) = t.
Proof.
  intros (c & t' & -> & Hc & _). apply skipWs_app; [apply opener_ws | exact Hc].
Qed.

End Layout.

Section RoundTrip.
Import JsNumber JSON.
Variable gap : text.
Hypothesis Hgap : forallb isWs gap = true.

Lemma jsonNumber_spec (x : number) :
  jsonNumber x = true ->
  valid_binary prec emax x = true /\ isFinite x = true /\ x <> S754_zero true.
Proof.
  unfold jsonNumber. intros H. apply andb_true_iff in H as [H Hz].
  apply andb_true_iff in H as [Hv Hf]. split; [exact Hv|]. split; [exact Hf|].
  intros ->. discriminate Hz.
Qed.

Lemma ser_starts (v : value) (indent : text) :
  representable v = true -> startsValue (ser gap indent v).
Proof.
  intros Hr. unfold startsValue. destruct v as [| b | x | s | items | members].
  - exists (code "n"%char). eexists. repeat split; reflexivity.
  - destruct b; eexists; eexists; repeat split; reflexivity.
  - cbn [ser representable] in *. unfold serNumber.
    destruct (jsonNumber_spec x Hr) as (_ & -> & _).
    destruct (toChars_head x Hr) as (c & t & -> & Hc).
    destruct (digit_or_minus_starts c Hc) as (H1 & H2 & H3 & H4 & _).
    exists (code c), (wide t). auto.
  - exists (code dquote). eexists. repeat split; reflexivity.
  - cbn [ser]. unfold wrap. exists (code "["%char).
    destruct (map _ items); [|destruct gap]; eexists; repeat split; reflexivity.
  - cbn [ser]. unfold wrap. exists (code "{"%char).
    destruct (map _ members); [|destruct gap]; eexists; repeat split; reflexivity.
Qed.

Lemma join_cons_app (sep p q tail : text) (ps : list text) :
  join sep (p :: q :: ps) ++ tail = p ++ sep ++ join sep (q :: ps) ++ tail.
Proof. cbn [join]. rewrite <- !app_assoc. reflexivity. Qed.

Lemma join_starts (sep p tail : text) (ps : list text) :
  startsValue p -> startsValue (join sep (p :: ps) ++ tail).
Proof.
  intros (c & t & -> & H). exists c.
  destruct ps; cbn [join app]; eexists; split; eauto.
Qed.

Lemma separator_tail (indent t : text) :
  forallb isWs indent = true -> startsValue t ->
  endsNumberAt (separator gap indent ++ t) = true
  /\ skipWs (separator gap indent ++ t) = code ","%char :: opener gap indent ++ t
  /\ skipWs (opener gap indent ++ t) = t.
Proof.
  intros Hi Ht. split; [|split; [reflexivity|]].
  - unfold separator, endsNumberAt. cbn [app]. rewrite narrow_code. reflexivity.
  - apply skipWs_opener; assumption.
Qed.

Lemma parseItems_join (indent : text) (items : list value) :
  forallb isWs indent = true ->
  Forall (fun v => representable v = true /\ readsBack gap v) items ->
  items <> [] ->
  forall (fuel : nat) (rest : text),
    (list_sum (map (fun x => S (weight x)) items) <= fuel)%nat ->
    parseItems fuel
      (join (separator gap indent) (map (ser gap (indent ++ gap)) items)
         ++ closer gap indent ++ code "]"%char :: rest)
    = Some (items, rest).
Proof.
  intros Hi Hall. induction Hall as [|v items [Hrep Hv] Hall IH]; [congruence|].
  intros _ fuel rest Hfuel. cbn [map list_sum fold_right] in Hfuel.
  destruct fuel as [|fuel]; [lia|]. cbn [parseItems].
  assert (Hin : forallb isWs (indent ++ gap) = true) by (apply inner_ws; assumption).
  destruct items as [|v2 items].
  - cbn [map join].
    rewrite (Hv (indent ++ gap) fuel _ Hin ltac:(cbn in Hfuel; lia)
               (endsNumber_closer gap indent Hgap "]" rest eq_refl)).
    rewrite (skipWs_closer gap indent Hgap Hi (code "]") rest eq_refl).
    rewrite !isChar_code. reflexivity.
  - cbn [map]. rewrite join_cons_app.
    assert (Hnext : startsValue
              (join (separator gap indent)
                    (ser gap (indent ++ gap) v2 :: map (ser gap (indent ++ gap)) items)
                 ++ closer gap indent ++ code "]"%char :: rest)).
    { inversion Hall as [|? ? [Hrep2 _] _]; subst.
      apply join_starts, ser_starts, Hrep2. }
    destruct (separator_tail indent _ Hi Hnext) as (He & Hs1 & Hs2).
    rewrite (Hv (indent ++ gap) fuel _ Hin ltac:(lia) He).
    rewrite Hs1, isChar_code. cbn [Ascii.eqb Bool.eqb]. rewrite Hs2.
    rewrite IH; [reflexivity | discriminate | cbn [map list_sum fold_right] in *; lia].
Qed.

Lemma parseMembers_join (indent : text) (members : list (text * value)) :
  forallb isWs indent = true ->
  Forall (fun kv => representable (snd kv) = true /\ readsBack gap (snd kv)) members ->
  members <> [] ->
  forall (fuel : nat) (rest : text),
    (list_sum (map (fun kv => S (weight (snd kv))) members) <= fuel)%nat ->
    parseMembers fuel
      (join (separator gap indent)
            (map (fun kv => quote (fst kv) ++ colon gap ++ ser gap (indent ++ gap) (snd kv))
                 members)
         ++ closer gap indent ++ code "}"%char :: rest)
    = Some (members, rest).
Proof.
  intros Hi Hall. induction Hall as [|[k v] members [Hrep Hv] Hall IH]; [congruence|].
  intros _ fuel rest Hfuel. cbn [map list_sum fold_right fst snd] in *.
  destruct fuel as [|fuel]; [lia|].
  assert (Hin : forallb isWs (indent ++ gap) = true) by (apply inner_ws; assumption).
  destruct (colon_layout gap Hgap) as (w & Hcolon & Hw).
  destruct (ser_starts v (indent ++ gap) Hrep) as (c0 & t0 & Hc0 & Hws0 & _).
  assert (Hmember : forall tail, endsNumberAt tail = true ->
            parseMembers (S fuel)
              ((quote k ++ colon gap ++ ser gap (indent ++ gap) v) ++ tail)
            = match skipWs tail with
              | d :: r' =>
                  if isChar d ","
                  then match parseMembers fuel (skipWs r') with
                       | Some (ms, r'') => Some ((k, v) :: ms, r'')
                       | None => None
                       end
                  else if isChar d "}" then Some ([(k, v)], r') else None
              | [] => None
              end).
  { intros tail Htail. unfold quote. cbn [app parseMembers].
    rewrite isChar_code, Ascii.eqb_refl.
    rewrite <- !app_assoc. cbn [app]. rewrite parseChars_quote, Hcolon. cbn [app skipWs].
    change (isWs (code ":")) with false. cbv iota.
    rewrite isChar_code, Ascii.eqb_refl.
    rewrite skipWs_app by (rewrite ?Hc0; auto).
    rewrite (Hv (indent ++ gap) fuel tail Hin ltac:(lia) Htail). reflexivity. }
  destruct members as [|[k2 v2] members].
  - cbn [map join fst snd].
    rewrite Hmember by (apply (endsNumber_closer gap indent Hgap); reflexivity).
    rewrite (skipWs_closer gap indent Hgap Hi (code "}") rest eq_refl).
    rewrite !isChar_code. reflexivity.
  - cbn [map fst snd]. rewrite join_cons_app.
    match goal with
    | |- parseMembers _ (_ ++ _ ++ ?next) = _ => assert (Hnext : startsValue next)
    end.
    { apply join_starts. exists (code dquote). eexists. repeat split; reflexivity. }
    destruct (separator_tail indent _ Hi Hnext) as (He & Hs1 & Hs2).
    rewrite Hmember by exact He.
    rewrite Hs1, isChar_code. cbn [Ascii.eqb Bool.eqb]. rewrite Hs2.
    rewrite IH; [reflexivity | discriminate | cbn [map list_sum fold_right fst snd] in *; lia].
Qed.

Lemma forallb_Forall_and {A : Type} (p : A -> bool) (P : A -> Prop) (l : list A) :
  forallb p l = true -> Forall (fun x => p x = true -> P x) l ->
  Forall (fun x => p x = true /\ P x) l.
Proof.
  intros Hp Hall. induction Hall as [|x l Hx Hall IH]; [constructor|].
  cbn [forallb] in Hp. apply andb_true_iff in Hp as [H1 H2].
  constructor; [split; [exact H1 | exact (Hx H1)] | exact (IH H2)].
Qed.

(** The code unit that opens [t] is read as such. *)
Ltac read_opening :=
  cbn [app parseValue]; rewrite ?isChar_code; cbn [Ascii.eqb Bool.eqb dquote]; cbv iota.

Lemma ser_parse (v : value) : representable v = true -> readsBack gap v.
Proof.
  induction v as [| b | x | s | items IH | members IH] using value_ind';
    intros Hrep indent fuel rest Hi Hfuel Hrest;
    (destruct fuel as [|fuel]; [cbn [weight] in Hfuel; lia|]).
  - reflexivity.
  - destruct b; reflexivity.
  - cbn [ser representable] in *. unfold serNumber.
    destruct (jsonNumber_spec x Hrep) as (Hv & Hf & Hz). rewrite Hf.
    destruct (toChars_head x Hrep) as (c & t & Hc & Hd).
    destruct (digit_or_minus_starts c Hd) as (_ & _ & _ & _ & Hn & Ht & Hff & Hq & Ha & Ho).
    pose proof (parseNumberAt_toChars x rest Hv Hf Hz Hrest) as Hp.
    rewrite Hc in Hp |- *. cbn [wide map app parseValue] in Hp |- *.
    rewrite Hn, Ht, Hff, Hq, Ha, Ho, Hp. reflexivity.
  - cbn [ser]. unfold quote. read_opening.
    rewrite <- app_assoc. cbn [app].
    rewrite parseChars_quote. reflexivity.
  - cbn [ser representable weight] in *.
    destruct items as [|v items]; [reflexivity|].
    rewrite wrap_layout by (assumption || discriminate).
    read_opening. rewrite <- !app_assoc. cbn [app].
    pose proof (forallb_Forall_and _ _ _ Hrep IH) as Hall.
    assert (Hstart : startsValue
              (join (separator gap indent) (map (ser gap (indent ++ gap)) (v :: items))
                 ++ closer gap indent ++ code "]"%char :: rest)).
    { cbn [map]. apply join_starts, ser_starts.
      cbn [forallb] in Hrep. apply andb_true_iff in Hrep as [H _]. exact H. }
    rewrite (skipWs_opener gap indent Hgap Hi _ Hstart).
    destruct Hstart as (c & t & Hc & _ & Hb & _). rewrite Hc, Hb, <- Hc.
    rewrite (parseItems_join indent (v :: items) Hi Hall ltac:(discriminate) fuel rest
               ltac:(lia)).
    reflexivity.
  - cbn [ser representable weight] in *.
    apply andb_true_iff in Hrep as [Hrep Hkeys].
    apply andb_true_iff in Hkeys as [Hkeys Horder].
    destruct members as [|kv members]; [reflexivity|].
    rewrite wrap_layout by (assumption || discriminate).
    read_opening. rewrite <- !app_assoc. cbn [app].
    pose proof (forallb_Forall_and (fun kv => representable (snd kv)) _ _ Hrep IH) as Hall.
    match goal with
    | |- match skipWs (_ ++ ?next) with _ => _ end = _ => assert (Hstart : startsValue next)
    end.
    { cbn [map]. apply join_starts. exists (code dquote). eexists. repeat split; reflexivity. }
    rewrite (skipWs_opener gap indent Hgap Hi _ Hstart).
    destruct Hstart as (c & t & Hc & _ & _ & Hb & _). rewrite Hc, Hb, <- Hc.
    rewrite (parseMembers_join indent (kv :: members) Hi Hall ltac:(discriminate) fuel rest
               ltac:(lia)).
    cbn [option_map fst snd]. rewrite build_enumerated by assumption. reflexivity.
Qed.

End RoundTrip.

Section ParseStringify.
Import JsNumber JSON.

Lemma join_length (sep : text) (parts : list text) :
  (list_sum (map (@length N) parts) <= length (join sep parts))%nat.
Proof.
  induction parts as [|p parts IH]; [apply Nat.le_refl|].
  destruct parts as [|q parts].
  - cbn. lia.
  - cbn [map] in *. change (list_sum (?a :: ?r)) with (a + list_sum r)%nat.
    change (join sep (p :: q :: parts)) with (p ++ sep ++ join sep (q :: parts)).
    rewrite !length_app. lia.
Qed.

Lemma wrap_length (opening closing : ascii) (gap indent : text) (parts : list text) :
  (2 + list_sum (map (@length N) parts)
   <= length (wrap opening closing gap indent parts))%nat.
Proof.
  pose proof (join_length [code ","%char] parts) as H1.
  pose proof (join_length (code ","%char :: code newline :: indent ++ gap) parts) as H2.
  unfold wrap. destruct parts as [|p parts]; [cbn; lia|].
  destruct gap as [|g gap']; cbn [length]; rewrite ?length_app; cbn [length];
    rewrite ?length_app; cbn [length]; lia.
Qed.

Lemma sum_bound {A : Type} (w : A -> nat) (txt : A -> text) (l : list A) :
  Forall (fun x => (w x + 1 <= 2 * length (txt x))%nat) l ->
  (list_sum (map (fun x => S (w x)) l) <= 2 * list_sum (map (@length N) (map txt l)))%nat.
Proof.
  induction 1 as [|x l Hx Hall IH]; [apply Nat.le_refl|].
  cbn [map]. change (list_sum (?a :: ?r)) with (a + list_sum r)%nat. lia.
Qed.

Lemma Forall_forallb_imp {A : Type} (p : A -> bool) (P Q : A -> Prop) (l : list A) :
  forallb p l = true -> Forall (fun x => p x = true -> P x) l ->
  (forall x, P x -> Q x) -> Forall Q l.
Proof.
  intros Hp Hall HPQ. induction Hall as [|x l Hx Hall IH]; [constructor|].
  cbn [forallb] in Hp. apply andb_true_iff in Hp as [H1 H2].
  constructor; [apply HPQ, Hx, H1 | exact (IH H2)].
Qed.

(** The text of a value is long enough to pay for reading it. *)
Lemma weight_bound (v : value) :
  representable v = true ->
  forall gap indent, (weight v + 1 <= 2 * length (ser gap indent v))%nat.
Proof.
  induction v as [| b | x | s | items IH | members IH] using value_ind';
    intros Hrep gap indent.
  - cbn. lia.
  - destruct b; cbn; lia.
  - cbn [ser representable weight] in *. unfold serNumber.
    destruct (jsonNumber_spec x Hrep) as (_ & -> & _).
    destruct (toChars_head x Hrep) as (c & t & -> & _). cbn [wide map length]. lia.
  - cbn [ser weight]. unfold quote. cbn [length]. lia.
  - cbn [ser representable weight] in *.
    pose proof (wrap_length "[" "]" gap indent (map (ser gap (indent ++ gap)) items)) as Hw.
    pose proof (sum_bound weight (ser gap (indent ++ gap)) items
                  (Forall_forallb_imp _ _ _ _ Hrep IH (fun x H => H gap (indent ++ gap)))) as Hs.
    lia.
  - cbn [ser representable weight] in *. apply andb_true_iff in Hrep as [Hrep _].
    set (txt := fun kv : text * value =>
                  quote (fst kv) ++ colon gap ++ ser gap (indent ++ gap) (snd kv)).
    pose proof (wrap_length "{" "}" gap indent (map txt members)) as Hw.
    assert (Hall : Forall (fun kv => (weight (snd kv) + 1 <= 2 * length (txt kv))%nat) members).
    { apply (Forall_forallb_imp (fun kv => representable (snd kv)) _ _ _ Hrep IH).
      intros kv H. specialize (H gap (indent ++ gap)). unfold txt.
      rewrite !length_app. lia. }
    pose proof (sum_bound (fun kv => weight (snd kv)) txt members Hall) as Hs.
    unfold text in *. lia.
Qed.

Lemma spaces_ws (n : nat) : forallb isWs (repeat (code " "%char) n) = true.
Proof. induction n as [|n IH]; [reflexivity | exact IH]. Qed.

(** [JSON.parse(JSON.stringify(v, null, space))] is [v]. *)
Lemma parse_stringify (v : value) (space : nat) :
  representable v = true -> parse (stringify v space) = Some v.
Proof.
  intros Hrep. unfold parse, stringify.
  set (gap := repeat (code " "%char) (Nat.min space 10)).
  pose proof (weight_bound v Hrep gap []) as Hw.
  destruct (ser_starts gap (spaces_ws _) v [] Hrep) as (c & t & Hc & Hws & _).
  assert (Hskip : skipWs (ser gap [] v) = ser gap [] v).
  { rewrite Hc. cbn [skipWs]. rewrite Hws. reflexivity. }
  rewrite Hskip.
  pose proof (ser_parse gap (spaces_ws _) v Hrep [] (2 * length (ser gap [] v) + 2)%nat []
                eq_refl ltac:(lia) eq_refl) as Hp.
  rewrite app_nil_r in Hp. rewrite Hp. reflexivity.
Qed.

End ParseStringify.

(** ** Every value read from JSON text is in the order of enumeration *)

Section Canonical.
Import JsNumber JSON.

Lemma before_asym (a b : text) : before a b = true -> before b a = false.
Proof.
  unfold before. destruct (arrayIndex a) as [i|], (arrayIndex b) as [j|];
    try discriminate; try reflexivity.
  intros H. apply N.ltb_lt in H. apply N.ltb_ge. lia.
Qed.

Lemma before_trans (a b c : text) :
  before a b = true -> before b c = true -> before a c = true.
Proof.
  unfold before. destruct (arrayIndex a) as [i|], (arrayIndex b) as [j|],
    (arrayIndex c) as [k|]; try discriminate; try reflexivity.
  intros H1 H2. apply N.ltb_lt in H1, H2. apply N.ltb_lt. lia.
Qed.

Lemma place_keys (key : text) (v : value) (o : list (text * value)) :
  map fst (place key v o) = placeKey key (map fst o).
Proof.
  induction o as [|[k w] o IH]; [reflexivity|]. cbn [place placeKey map fst].
  destruct (before key k); [reflexivity|]. cbn [map fst]. rewrite IH. reflexivity.
Qed.

Lemma replace_keys (key : text) (v : value) (o : list (text * value)) :
  map fst (replace key v o) = map fst o.
Proof.
  induction o as [|[k w] o IH]; [reflexivity|]. cbn [replace map fst].
  destruct (eqUnits k key); cbn [map fst]; [reflexivity | rewrite IH; reflexivity].
Qed.

Lemma forallb_placeKey (p : text -> bool) (key : text) (ks : list text) :
  forallb p (placeKey key ks) = p key && forallb p ks.
Proof.
  induction ks as [|k ks IH]; cbn [placeKey forallb]; [reflexivity|].
  destruct (before key k); cbn [forallb]; [reflexivity|].
  rewrite IH. destruct (p k), (p key); reflexivity.
Qed.

Lemma existsb_placeKey (p : text -> bool) (key : text) (ks : list text) :
  existsb p (placeKey key ks) = p key || existsb p ks.
Proof.
  induction ks as [|k ks IH]; cbn [placeKey existsb]; [reflexivity|].
  destruct (before key k); cbn [existsb]; [reflexivity|].
  rewrite IH. destruct (p k), (p key); reflexivity.
Qed.

Lemma placeKey_enumerated (key : text) (ks : list text) :
  enumerated ks = true -> enumerated (placeKey key ks) = true.
Proof.
  induction ks as [|k ks IH]; intros H; [reflexivity|].
  cbn [enumerated] in H. apply andb_true_iff in H as [Hk Hks].
  cbn [placeKey]. destruct (before key k) eqn:Hb.
  - cbn [enumerated forallb]. rewrite (before_asym key k Hb), Hk, Hks. cbn [negb andb].
    rewrite andb_true_r. apply forallb_forall. intros k' Hin.
    rewrite forallb_forall in Hk. specialize (Hk k' Hin).
    destruct (before k' key) eqn:Hb'; [|reflexivity].
    rewrite (before_trans k' key k Hb' Hb) in Hk. discriminate Hk.
  - cbn [enumerated]. rewrite forallb_placeKey, Hb, Hk, (IH Hks). reflexivity.
Qed.

Lemma placeKey_distinct (key : text) (ks : list text) :
  existsb (eqUnits key) ks = false -> distinct ks = true ->
  distinct (placeKey key ks) = true.
Proof.
  induction ks as [|k ks IH]; intros Hnew H; [reflexivity|].
  cbn [existsb] in Hnew. apply orb_false_iff in Hnew as [Hk Hnew].
  cbn [distinct] in H. apply andb_true_iff in H as [Hk' Hks].
  cbn [placeKey]. destruct (before key k).
  - cbn [distinct existsb]. rewrite Hk, Hnew, Hk', Hks. reflexivity.
  - cbn [distinct]. rewrite existsb_placeKey, (eqUnits_sym k key), Hk. cbn [orb].
    rewrite Hk', (IH Hnew Hks). reflexivity.
Qed.

Lemma lookup_None (key : text) (o : list (text * value)) :
  lookup key o = None -> existsb (eqUnits key) (map fst o) = false.
Proof.
  induction o as [|[k w] o IH]; [reflexivity|]. cbn [lookup map fst existsb].
  rewrite (eqUnits_sym key k). destruct (eqUnits k key); [discriminate | exact IH].
Qed.

Lemma define_keys (key : text) (v : value) (o : list (text * value)) :
  distinct (map fst o) = true -> enumerated (map fst o) = true ->
  distinct (map fst (define key v o)) = true
  /\ enumerated (map fst (define key v o)) = true.
Proof.
  intros Hd He. unfold define. destruct (lookup key o) as [w|] eqn:Hl.
  - rewrite replace_keys. auto.
  - rewrite place_keys. split.
    + apply placeKey_distinct; [apply lookup_None, Hl | exact Hd].
    + apply placeKey_enumerated, He.
Qed.

Lemma define_values (key : text) (v : value) (o : list (text * value)) :
  canonical v = true -> forallb (fun kv => canonical (snd kv)) o = true ->
  forallb (fun kv => canonical (snd kv)) (define key v o) = true.
Proof.
  intros Hv Ho. unfold define. destruct (lookup key o) as [w|].
  - induction o as [|[k w'] o IH]; [reflexivity|]. cbn [replace].
    cbn [forallb snd] in Ho. apply andb_true_iff in Ho as [H1 H2].
    destruct (eqUnits k key); cbn [forallb snd].
    + rewrite Hv, H2. reflexivity.
    + rewrite H1, (IH H2). reflexivity.
  - induction o as [|[k w'] o IH]; [cbn; rewrite Hv; reflexivity|]. cbn [place].
    cbn [forallb snd] in Ho. apply andb_true_iff in Ho as [H1 H2].
    destruct (before key k); cbn [forallb snd].
    + rewrite Hv, H1, H2. reflexivity.
    + rewrite H1, (IH H2). reflexivity.
Qed.

(** What [build] makes is an object. *)
Lemma build_canonical (ms : list (text * value)) :
  forallb (fun kv => canonical (snd kv)) ms = true -> canonical (Obj (build ms)) = true.
Proof.
  unfold build.
  assert (H : forall acc, canonical (Obj acc) = true ->
                forallb (fun kv => canonical (snd kv)) ms = true ->
                canonical (Obj (fold_left (fun o kv => define (fst kv) (snd kv) o) ms acc))
                = true); [|intros Hms; apply H; [reflexivity | exact Hms]].
  induction ms as [|[k v] ms IH]; intros acc Hacc Hms; [exact Hacc|].
  cbn [forallb snd] in Hms. apply andb_true_iff in Hms as [Hv Hms].
  cbn [fold_left fst snd]. apply IH; [|exact Hms].
  cbn [canonical] in Hacc |- *. apply andb_true_iff in Hacc as [Hvals Hkeys].
  apply andb_true_iff in Hkeys as [Hd He].
  destruct (define_keys k v acc Hd He) as [Hd' He'].
  rewrite (define_values k v acc Hv Hvals), Hd', He'. reflexivity.
Qed.

Lemma parse_steps (fuel : nat) :
  (forall t v r, parseValue fuel t = Some (v, r) -> canonical v = true)
  /\ (forall t vs r, parseItems fuel t = Some (vs, r) -> forallb canonical vs = true)
  /\ (forall t ms r, parseMembers fuel t = Some (ms, r) ->
                     forallb (fun kv => canonical (snd kv)) ms = true).
Proof.
  induction fuel as [|fuel (IHv & IHi & IHm)];
    [repeat split; intros; discriminate|].
  split; [|split].
  - intros t v r H. cbn [parseValue] in H.
    destruct t as [|c t']; [discriminate H|].
    destruct (isChar c "n"); [destruct (expect _ t'); [injection H as <- _; reflexivity
                                                      | discriminate H]|].
    destruct (isChar c "t"); [destruct (expect _ t'); [injection H as <- _; reflexivity
                                                      | discriminate H]|].
    destruct (isChar c "f"); [destruct (expect _ t'); [injection H as <- _; reflexivity
                                                      | discriminate H]|].
    destruct (isChar c dquote); [destruct (parseChars t') as [[s r']|];
                                 [injection H as <- _; reflexivity | discriminate H]|].
    destruct (isChar c "[").
    { destruct (skipWs t') as [|d r']; [discriminate H|].
      destruct (isChar d "]"); [injection H as <- _; reflexivity|].
      destruct (parseItems fuel (d :: r')) as [[vs r'']|] eqn:Hi; [|discriminate H].
      injection H as <- _. exact (IHi _ _ _ Hi). }
    destruct (isChar c "{").
    { destruct (skipWs t') as [|d r']; [discriminate H|].
      destruct (isChar d "}"); [injection H as <- _; reflexivity|].
      destruct (parseMembers fuel (d :: r')) as [[ms r'']|] eqn:Hm; [|discriminate H].
      injection H as <- _. apply build_canonical. exact (IHm _ _ _ Hm). }
    destruct (parseNumberAt (c :: t')) as [[x r']|]; [|discriminate H].
    injection H as <- _. reflexivity.
  - intros t vs r H. cbn [parseItems] in H.
    destruct (parseValue fuel t) as [[v r0]|] eqn:Hv; [|discriminate H].
    pose proof (IHv _ _ _ Hv) as Hcv.
    destruct (skipWs r0) as [|d r']; [discriminate H|].
    destruct (isChar d ",").
    + destruct (parseItems fuel (skipWs r')) as [[vs' r'']|] eqn:Hi; [|discriminate H].
      injection H as <- _. cbn [forallb]. rewrite Hcv. exact (IHi _ _ _ Hi).
    + destruct (isChar d "]"); [|discriminate H].
      injection H as <- _. cbn [forallb]. rewrite Hcv. reflexivity.
  - intros t ms r H. cbn [parseMembers] in H.
    destruct t as [|q t']; [discriminate H|].
    destruct (isChar q dquote); [|discriminate H].
    destruct (parseChars t') as [[key r0]|]; [|discriminate H].
    destruct (skipWs r0) as [|c r1]; [discriminate H|].
    destruct (isChar c ":"); [|discriminate H].
    destruct (parseValue fuel (skipWs r1)) as [[v r2]|] eqn:Hv; [|discriminate H].
    pose proof (IHv _ _ _ Hv) as Hcv.
    destruct (skipWs r2) as [|d r']; [discriminate H|].
    destruct (isChar d ",").
    + destruct (parseMembers fuel (skipWs r')) as [[ms' r'']|] eqn:Hm; [|discriminate H].
      injection H as <- _. cbn [forallb snd]. rewrite Hcv. exact (IHm _ _ _ Hm).
    + destruct (isChar d "}"); [|discriminate H].
      injection H as <- _. cbn [forallb snd]. rewrite Hcv. reflexivity.
Qed.

(** Every value that [JSON.parse] returns is made of objects. *)
Lemma parse_canonical (t : text) (v : value) : parse t = Some v -> canonical v = true.
Proof.
  unfold parse. intros H.
  destruct (parseValue (2 * length t + 2) (skipWs t)) as [[v' r]|] eqn:Hv; [|discriminate H].
  destruct (skipWs r); [|discriminate H]. injection H as <-.
  exact (proj1 (parse_steps _) _ _ _ Hv).
Qed.

Lemma forallb_mapped {A B : Type} (p : B -> bool) (f : A -> B) (l : list A) :
  (forall x, p (f x) = true) -> forallb p (map f l) = true.
Proof.
  intros H. induction l as [|x l IH]; [reflexivity|].
  cbn [map forallb]. rewrite H, IH. reflexivity.
Qed.

(** So is the value of every state. *)
Lemma state_canonical (st : State) : canonical (Encode.state st) = true.
Proof.
  assert (Htask : forall t, canonical (Encode.task t) = true).
  { intros [i n ti d c tm du s u cr no ca up].
    destruct n, ti, cr, no, ca, up; reflexivity. }
  assert (Hcat : forall c, canonical (Encode.category c) = true).
  { intros [i l co ty]. destruct ty; reflexivity. }
  unfold Encode.state. cbn [canonical forallb snd Encode.member].
  rewrite (forallb_mapped canonical Encode.category _ Hcat).
  rewrite (forallb_mapped canonical Encode.task _ Htask). reflexivity.
Qed.

Lemma forallb_both {A : Type} (p q r : A -> bool) (l : list A) :
  Forall (fun x => p x = q x && r x) l -> forallb p l = forallb q l && forallb r l.
Proof.
  induction 1 as [|x l Hx _ IH]; [reflexivity|].
  cbn [forallb]. rewrite Hx, IH.
  destruct (q x), (r x), (forallb q l), (forallb r l); reflexivity.
Qed.

(** A value is representable as JSON when it is made of objects and its
    numbers are numbers that JSON text can carry. *)
Lemma representable_split (v : value) :
  representable v = canonical v && finiteNumbers v.
Proof.
  induction v as [| b | x | s | items IH | members IH] using value_ind'; try reflexivity.
  - cbn [representable canonical finiteNumbers]. apply forallb_both, IH.
  - cbn [representable canonical finiteNumbers].
    rewrite (forallb_both _ (fun kv => canonical (snd kv))
               (fun kv => finiteNumbers (snd kv)) members IH).
    destruct (forallb (fun kv => canonical (snd kv)) members),
      (forallb (fun kv => finiteNumbers (snd kv)) members),
      (distinct (map fst members)), (enumerated (map fst members)); reflexivity.
Qed.

(** What was imported is exported and imported again as it is, when its
    numbers are numbers that JSON text can carry. *)
Lemma imported_round_trip (t : text) (S : value) :
  Storage.importJSON t = Normal (ImportSuccess S) -> finiteNumbers S = true ->
  Storage.importJSON (Storage.exportText S) = Normal (ImportSuccess S).
Proof.
  unfold Storage.importJSON at 1. unfold Storage.JSON_parse. intros H Hnum.
  destruct (JSON.parse t) as [v|] eqn:Hp; [|discriminate H]. cbn [bind] in H.
  destruct (negb (Storage.truthyValue v) || negb (Storage.isObject v)
            || negb (Storage.isArray (getMember v "tasks"))) eqn:Hc; [discriminate H|].
  assert (v = S) by (cbn in H; congruence). subst v.
  assert (Hrep : representable S = true)
    by (rewrite representable_split, (parse_canonical t S Hp), Hnum; reflexivity).
  unfold Storage.importJSON, Storage.exportText, Storage.JSON_parse.
  rewrite (parse_stringify S 2 Hrep). cbn [bind]. rewrite Hc. reflexivity.
Qed.

(** The snapshot of a state is exported and imported as it is, when its
    numbers are numbers that JSON text can carry. *)
Lemma state_round_trip (st : State) :
  finiteNumbers (Encode.state st) = true ->
  Storage.importJSON (Storage.exportText (Encode.state st))
  = Normal (ImportSuccess (Encode.state st)).
Proof.
  intros Hnum.
  assert (Hrep : representable (Encode.state st) = true)
    by (rewrite representable_split, state_canonical, Hnum; reflexivity).
  unfold Storage.importJSON, Storage.exportText, Storage.JSON_parse.
  rewrite (parse_stringify _ 2 Hrep). reflexivity.
Qed.

End Canonical.

(** ** Import *)

(** C6: [importJSON] returns for every text; it succeeds, with the
    decoded value, exactly when the text parses to an object whose
    [tasks] member is a list, whatever that list holds, and returns a
    failure with a message otherwise, that of the structural check when
    the text is JSON for something else.  The text of every value that
    JSON can carry does parse, to that value, at every indentation. *)
Theorem importJSON_total :
  forall t : text,
    (exists r, Storage.importJSON t = Normal r)
    /\ (forall data,
          Storage.importJSON t = Normal (ImportSuccess data)
          <-> JSON.parse t = Some data /\ hasTaskList data)
    /\ ((exists error, Storage.importJSON t = Normal (ImportFailure error))
        <-> ~ exists data, JSON.parse t = Some data /\ hasTaskList data)
    /\ (forall data, JSON.parse t = Some data -> ~ hasTaskList data ->
        Storage.importJSON t = Normal (ImportFailure Storage.msgInvalidFormat))
    /\ (forall v space, representable v = true -> t = JSON.stringify v space ->
        JSON.parse t = Some v
        /\ (hasTaskList v -> Storage.importJSON t = Normal (ImportSuccess v))
        /\ (~ hasTaskList v ->
            Storage.importJSON t = Normal (ImportFailure Storage.msgInvalidFormat))).
Proof.
  intros t.
  assert (Hcheck : forall v, JSON.parse t = Some v ->
            (hasTaskList v -> Storage.importJSON t = Normal (ImportSuccess v))
            /\ (~ hasTaskList v ->
                Storage.importJSON t = Normal (ImportFailure Storage.msgInvalidFormat))).
  { intros v Hp. unfold Storage.importJSON, Storage.JSON_parse. rewrite Hp. cbn [bind].
    destruct (negb (Storage.truthyValue v) || negb (Storage.isObject v)
              || negb (Storage.isArray (JSON.getMember v "tasks"))) eqn:Hc.
    - split; [intros Hh; apply snapshot_check in Hh; congruence | reflexivity].
    - apply snapshot_check in Hc. split; [reflexivity | contradiction]. }
  assert (Hfail : JSON.parse t = None ->
            Storage.importJSON t = Normal (ImportFailure Storage.msgSyntaxError)).
  { intros Hp. unfold Storage.importJSON, Storage.JSON_parse. rewrite Hp. reflexivity. }
  split; [unfold Storage.importJSON; eauto|].
  split; [|split; [|split]].
  - intros data. destruct (JSON.parse t) as [v|] eqn:Hp.
    + destruct (Hcheck v eq_refl) as [Hyes Hno]. split.
      * intros Hs. assert (hasTaskList v) as Hh.
        { unfold hasTaskList. unfold Storage.importJSON, Storage.JSON_parse in Hs.
          rewrite Hp in Hs. cbn [bind] in Hs.
          destruct (negb (Storage.truthyValue v) || negb (Storage.isObject v)
                    || negb (Storage.isArray (JSON.getMember v "tasks"))) eqn:Hc;
            [discriminate Hs|]. apply snapshot_check in Hc. exact Hc. }
        rewrite (Hyes Hh) in Hs. injection Hs as <-. auto.
      * intros [[= <-] Hh]. exact (Hyes Hh).
    + rewrite (Hfail eq_refl). split; [discriminate | intros [[=] _]].
  - destruct (JSON.parse t) as [v|] eqn:Hp.
    + destruct (Hcheck v eq_refl) as [Hyes Hno]. split.
      * intros [error He] (data & [= <-] & Hh). rewrite (Hyes Hh) in He. discriminate.
      * intros Hn. eexists. apply Hno. intros Hh. apply Hn. eauto.
    + split; [intros _ (data & [=] & _) | intros _; eexists; exact (Hfail eq_refl)].
  - intros data Hp Hn. exact (proj2 (Hcheck data Hp) Hn).
  - intros v space Hrep ->. pose proof (parse_stringify v space Hrep) as Hp.
    split; [exact Hp | exact (Hcheck v Hp)].
Qed.

Lemma importJSON_total_witness :
  JSON.parse Examples.escapedNote
  = Some (JSON.Obj [(units "tasks", JSON.Arr []); (units "note", JSON.Str [256%N])])
  /\ Storage.importJSON Examples.escapedNote
     = Normal (ImportSuccess
                 (JSON.Obj [(units "tasks", JSON.Arr []); (units "note", JSON.Str [256%N])])).
Proof.
  assert (Hp : JSON.parse Examples.escapedNote
               = Some (JSON.Obj [(units "tasks", JSON.Arr []);
                                 (units "note", JSON.Str [256%N])]))
    by (vm_compute; reflexivity).
  split; [exact Hp|].
  destruct (importJSON_total Examples.escapedNote) as (_ & Hiff & _).
  apply Hiff. split; [exact Hp|].
  eexists. eexists. split; reflexivity.
Defined.

(** What the import does with some texts: a member whose name is an
    array index is enumerated first; an array and [null] are refused by
    the structural check; a text that breaks off and the empty text are
    no JSON. *)
Lemma importJSON_examples :
  Storage.importJSON Examples.indexKeys
  = Normal (ImportSuccess
              (JSON.Obj [(units "1", JSON.Num (ofZ 2)); (units "b", JSON.Num (ofZ 1));
                         (units "tasks", JSON.Arr [])]))
  /\ Storage.importJSON (units "[]") = Normal (ImportFailure Storage.msgInvalidFormat)
  /\ Storage.importJSON (units "null") = Normal (ImportFailure Storage.msgInvalidFormat)
  /\ JSON.parse (units "{") = None
  /\ JSON.parse [] = None.
Proof. vm_compute. repeat split; reflexivity. Qed.

(** C7. Importing the text that the export writes gives the snapshot back:
    for every snapshot [S] that JSON text can carry (finite numbers other
    than the negative zero; in each object distinct keys, in the order in
    which an object enumerates them, as in every state and in every
    value read from JSON text) and that is an object with a [tasks]
    list, [importJSON] of the pretty-printed text of [S] returns the
    success result with [S] as its data. *)
Theorem importJSON_exportText_round_trip (S : JSON.value) :
  representable S = true -> hasTaskList S ->
  Storage.importJSON (Storage.exportText S) = Normal (ImportSuccess S).
Proof.
  intros Hrep (members & items & -> & Htasks).
  unfold Storage.importJSON, Storage.exportText, Storage.JSON_parse.
  rewrite (parse_stringify _ 2 Hrep).
  cbn [bind Storage.truthyValue Storage.isObject negb orb JSON.getMember].
  rewrite Htasks. reflexivity.
Qed.

Lemma importJSON_exportText_round_trip_witness :
  Storage.importJSON (Storage.exportText Examples.snapshot1)
  = Normal (ImportSuccess Examples.snapshot1).
Proof.
  apply importJSON_exportText_round_trip.
  - vm_compute. reflexivity.
  - eexists. eexists. split; vm_compute; reflexivity.
Defined.

(** * Further properties of the code *)

(** ** The save handler on an accepted candidate *)

Section Accepted.
Import App.

Lemma noErrors_nil (errors : dict) : noErrors errors = true -> errors = [].
Proof. destruct errors; [reflexivity | discriminate]. Qed.

Lemma persist_appState (env : Env) (w : World) : appState (persist env w) = appState w.
Proof.
  unfold persist. destruct (Storage.save _ _ _) as [store failed].
  destruct failed; reflexivity.
Qed.



(** The state after the handler has accepted the candidate. *)
Lemma handleSave_accepted (env : Env) (f : Form) (w : World) :
  noErrors (Validators.validateTask (formData env f)) = true ->
  appState (handleSave env f w)
  = withTasks (appState w)
      (if negb (isEmpty (task_id f)) then
         let idx := findIndex (task_id f) (items (tasks (appState w))) in
         writeAt (tasks (appState w)) idx
                 (spread (readAt (tasks (appState w)) idx) (formData env f))
       else push (tasks (appState w)) (withCreatedAt (formData env f) (nowCreated env))).
Proof.
  intros H. apply noErrors_nil in H. unfold handleSave. rewrite H.
  cbn [emit appState]. rewrite persist_appState. reflexivity.
Qed.

End Accepted.





(** ** The store *)

Section Store.
Import Storage.

Lemma stringify_not_empty (v : JSON.value) (space : nat) :
  representable v = true -> exists c t, JSON.stringify v space = c :: t.
Proof.
  intros Hrep. unfold JSON.stringify.
  destruct (ser_starts _ (spaces_ws (Nat.min space 10)) v [] Hrep) as (c & t & E & _).
  eauto.
Qed.

Lemma save_store (data : State) (store : gmap string text) :
  save false data store
  = (<[STORAGE_KEY := JSON.stringify (Encode.state data) 0]> store, false).
Proof. reflexivity. Qed.

Lemma save_full (data : State) (store : gmap string text) :
  save true data store = (store, true).
Proof. reflexivity. Qed.

Lemma load_saved (v : JSON.value) (space : nat) (store : gmap string text) :
  representable v = true ->
  load (<[STORAGE_KEY := JSON.stringify v space]> store) = Some v.
Proof.
  intros Hrep. unfold load. rewrite lookup_insert_eq.
  pose proof (parse_stringify v space Hrep) as Hp.
  destruct (stringify_not_empty v space Hrep) as (c & t & E).
  rewrite E in *. exact Hp.
Qed.

End Store.

(** X3. After [clear], [load] returns null, whatever was saved before;
    the other keys of the store are untouched. *)
Theorem clear_then_load :
  forall (store : gmap string text),
    Storage.load (Storage.clear store) = None
    /\ (forall data, Storage.load (Storage.clear (fst (Storage.save false data store))) = None)
    /\ (forall key, key <> Storage.STORAGE_KEY -> Storage.clear store !! key = store !! key).
Proof.
  intros store. unfold Storage.load, Storage.clear.
  split; [rewrite lookup_delete_eq; reflexivity|].
  split; [intros data; rewrite lookup_delete_eq; reflexivity|].
  intros key Hkey. apply lookup_delete_ne. congruence.
Qed.

(** ** What the store gives back in general *)

Section Written.
Import JSON.

Lemma asWritten_representable (v : value) :
  wellFormed v = true -> representable (asWritten v) = true.
Proof.
  induction v as [| b | x | s | items IH | members IH] using value_ind'; intros H;
    try reflexivity.
  - destruct x as [sz|si| |sf m e]; try reflexivity.
    cbn [asWritten representable wellFormed] in *. unfold jsonNumber.
    rewrite H. destruct sf; reflexivity.
  - cbn [asWritten representable wellFormed] in *.
    induction IH as [|v items Hv _ IHitems]; [reflexivity|].
    cbn [map forallb] in *. apply andb_true_iff in H as [H1 H2].
    rewrite (Hv H1), (IHitems H2). reflexivity.
  - cbn [asWritten representable wellFormed] in *. apply andb_true_iff in H as [H Hd].
    apply andb_true_iff. split.
    + clear Hd. induction IH as [|kv members Hv _ IHm]; [reflexivity|].
      cbn [map forallb fst snd] in *. apply andb_true_iff in H as [H1 H2].
      rewrite (Hv H1), (IHm H2). reflexivity.
    + rewrite map_map. cbn [fst]. exact Hd.
Qed.

Lemma ser_asWritten (v : value) :
  forall gap indent, ser gap indent (asWritten v) = ser gap indent v.
Proof.
  induction v as [| b | x | s | items IH | members IH] using value_ind'; intros gap indent;
    try reflexivity.
  - destruct x as [sz|si| |sf m e]; reflexivity.
  - cbn [asWritten ser]. f_equal. rewrite map_map.
    induction IH as [|v items Hv _ IHitems]; [reflexivity|].
    cbn [map]. rewrite Hv, IHitems. reflexivity.
  - cbn [asWritten ser]. f_equal. rewrite map_map. cbn [fst snd].
    induction IH as [|kv members Hv _ IHm]; [reflexivity|].
    cbn [map]. rewrite Hv, IHm. reflexivity.
Qed.

Lemma asWritten_id (v : value) : representable v = true -> asWritten v = v.
Proof.
  induction v as [| b | x | s | items IH | members IH] using value_ind'; intros H;
    try reflexivity.
  - destruct x as [[]|si| |sf m e]; try reflexivity; discriminate H.
  - cbn [asWritten representable] in *. f_equal.
    induction IH as [|v items Hv _ IHitems]; [reflexivity|].
    cbn [map forallb] in *. apply andb_true_iff in H as [H1 H2].
    rewrite (Hv H1), (IHitems H2). reflexivity.
  - cbn [asWritten representable] in *. apply andb_true_iff in H as [H _]. f_equal.
    induction IH as [|[k v] members Hv _ IHm]; [reflexivity|].
    cbn [map forallb fst snd] in *. apply andb_true_iff in H as [H1 H2].
    rewrite (Hv H1), (IHm H2). reflexivity.
Qed.

Lemma stringify_asWritten (v : value) (space : nat) :
  stringify (asWritten v) space = stringify v space.
Proof. unfold stringify. rewrite ser_asWritten. reflexivity. Qed.

Lemma parse_stringify_written (v : value) (space : nat) :
  wellFormed v = true -> parse (stringify v space) = Some (asWritten v).
Proof.
  intros H. rewrite <- stringify_asWritten.
  apply parse_stringify, asWritten_representable, H.
Qed.

Lemma lookup_asWritten (key : text) (members : list (text * value)) :
  lookup key (map (fun kv => (fst kv, asWritten (snd kv))) members)
  = option_map asWritten (lookup key members).
Proof.
  induction members as [|[k v] members IH]; [reflexivity|].
  cbn [map lookup fst snd]. destruct (eqUnits k key); [reflexivity | exact IH].
Qed.

End Written.

(** X4. What [load] returns after [save]: when the store accepts the
    write, [save] logs no error and touches no other key, and for a
    state whose numbers are numbers of the format [load] returns the
    saved state with null in the place of every number that is not
    finite and zero in the place of the negative zero; a state that is
    representable as JSON comes back as it is. *)
Theorem load_returns_what_was_written :
  forall (data : State) (store : gmap string text),
    wellFormed (Encode.state data) = true ->
    Storage.load (fst (Storage.save false data store))
    = Some (asWritten (Encode.state data))
    /\ (representable (Encode.state data) = true ->
        Storage.load (fst (Storage.save false data store)) = Some (Encode.state data))
    /\ snd (Storage.save false data store) = false
    /\ (forall key, key <> Storage.STORAGE_KEY ->
                    fst (Storage.save false data store) !! key = store !! key).
Proof.
  intros data store H. rewrite save_store. cbn [fst snd].
  split; [|split; [|split]].
  - rewrite <- stringify_asWritten. apply load_saved, asWritten_representable, H.
  - intros Hrep. apply load_saved, Hrep.
  - reflexivity.
  - intros key Hkey. apply lookup_insert_ne. congruence.
Qed.

Lemma load_returns_what_was_written_witness :
  Storage.load
    (fst (Storage.save false (App.appState (Window.updateCapacity Examples.env0 "a lot"
                                              Examples.world1)) ∅))
  = Some (asWritten (Encode.state (App.appState (Window.updateCapacity Examples.env0 "a lot"
                                                   Examples.world1)))).
Proof.
  apply (load_returns_what_was_written
           (App.appState (Window.updateCapacity Examples.env0 "a lot" Examples.world1)) ∅).
  vm_compute. reflexivity.
Defined.

(** X5. Export and import in general: the text that the export writes
    for a snapshot with a task list is imported with success, and the
    data is the snapshot with null in the place of every number that is
    not finite and zero in the place of the negative zero. *)
Theorem importJSON_returns_what_was_exported :
  forall S : JSON.value,
    wellFormed S = true -> hasTaskList S ->
    Storage.importJSON (Storage.exportText S) = Normal (ImportSuccess (asWritten S)).
Proof.
  intros S Hw (members & items & -> & Htasks).
  unfold Storage.importJSON, Storage.exportText, Storage.JSON_parse.
  rewrite (parse_stringify_written _ 2 Hw).
  cbn [asWritten bind Storage.truthyValue Storage.isObject negb orb JSON.getMember].
  rewrite lookup_asWritten, Htasks. reflexivity.
Qed.

Lemma importJSON_returns_what_was_exported_witness :
  Storage.importJSON
    (Storage.exportText
       (Encode.state (App.appState (Window.updateCapacity Examples.env0 "a lot"
                                      Examples.world1))))
  = Normal (ImportSuccess
              (asWritten
                 (Encode.state (App.appState (Window.updateCapacity Examples.env0 "a lot"
                                                Examples.world1))))).
Proof.
  apply importJSON_returns_what_was_exported.
  - vm_compute. reflexivity.
  - eexists. eexists. split; vm_compute; reflexivity.
Defined.

Section Persist.
Import App.

Lemma persist_accepting (env : Env) (w : World) :
  storeFull env = false ->
  persist env w
  = mkWorld (appState w)
            (<[Storage.STORAGE_KEY := JSON.stringify (Encode.state (appState w)) 0]>
               (localStorage w))
            (effects w).
Proof. intros H. unfold persist. rewrite H. reflexivity. Qed.

Lemma persist_refusing (env : Env) (w : World) :
  storeFull env = true ->
  persist env w = mkWorld (appState w) (localStorage w) (effects w ++ [ConsoleError]).
Proof. intros H. unfold persist. rewrite H. reflexivity. Qed.

(** The world after the handler has accepted the candidate. *)
Lemma handleSave_world (env : Env) (f : Form) (w : World) :
  noErrors (Validators.validateTask (formData env f)) = true ->
  handleSave env f w
  = emit Render
      (emit CloseForm
         (persist env
            (mkWorld (appState (handleSave env f w)) (localStorage w)
                     (effects w ++ [PreventDefault])))).
Proof.
  intros H. rewrite (handleSave_accepted env f w H).
  apply noErrors_nil in H. unfold handleSave. rewrite H. reflexivity.
Qed.

End Persist.

(** X6. After the handler has accepted a candidate and the store has
    accepted the write, the store holds the text of the new state:
    [load] returns that state as it was written, with zero for a
    duration that is the negative zero, and exactly as it is when it is
    representable as JSON. *)
Theorem handleSave_then_load :
  forall (env : App.Env) (f : App.Form) (w : App.World),
    noErrors (Validators.validateTask (App.formData env f)) = true ->
    App.storeFull env = false ->
    let w' := App.handleSave env f w in
    wellFormed (Encode.state (App.appState w')) = true ->
    Storage.load (App.localStorage w') = Some (asWritten (Encode.state (App.appState w')))
    /\ (representable (Encode.state (App.appState w')) = true ->
        Storage.load (App.localStorage w') = Some (Encode.state (App.appState w')))
    /\ App.effects w' = App.effects w ++ [App.PreventDefault; App.CloseForm; App.Render].
Proof.
  intros env f w Hok Hfull w' Hwf.
  assert (Hstore : App.localStorage w'
                   = <[Storage.STORAGE_KEY := JSON.stringify (Encode.state (App.appState w')) 0]>
                       (App.localStorage w)
                   /\ App.effects w'
                      = App.effects w ++ [App.PreventDefault; App.CloseForm; App.Render]).
  { subst w'. rewrite (handleSave_world env f w Hok) at 1 3.
    rewrite persist_accepting by exact Hfull.
    cbn [App.emit App.localStorage App.appState App.effects].
    split; [reflexivity|]. rewrite <- !app_assoc. reflexivity. }
  destruct Hstore as [Hstore Heffects]. rewrite Hstore.
  split; [|split; [|exact Heffects]].
  - rewrite <- stringify_asWritten. apply load_saved, asWritten_representable, Hwf.
  - intros Hrep. apply load_saved, Hrep.
Qed.

Lemma handleSave_then_load_witness :
  Storage.load (App.localStorage (App.handleSave Examples.env0 Examples.studyMath Examples.world0))
  = Some (asWritten
            (Encode.state
               (App.appState (App.handleSave Examples.env0 Examples.studyMath Examples.world0)))).
Proof.
  apply (handleSave_then_load Examples.env0 Examples.studyMath Examples.world0);
    vm_compute; reflexivity.
Defined.

(** X7. A store that refuses the write does not stop the handler: the
    registry in memory changes as it would otherwise, the form is closed
    and the view rendered; the store keeps its older text and the only
    trace of the failure is the logged error. *)
Theorem handleSave_store_refuses :
  forall (generatedId nowUpdated nowCreated : string) (f : App.Form) (w : App.World),
    let refusing := App.mkEnv generatedId nowUpdated nowCreated true in
    let accepting := App.mkEnv generatedId nowUpdated nowCreated false in
    noErrors (Validators.validateTask (App.formData refusing f)) = true ->
    App.appState (App.handleSave refusing f w) = App.appState (App.handleSave accepting f w)
    /\ App.localStorage (App.handleSave refusing f w) = App.localStorage w
    /\ App.effects (App.handleSave refusing f w)
       = App.effects w
           ++ [App.PreventDefault; App.ConsoleError; App.CloseForm; App.Render].
Proof.
  intros gid nu nc f w refusing accepting Hok.
  split.
  - rewrite (handleSave_accepted refusing f w Hok).
    rewrite (handleSave_accepted accepting f w Hok). reflexivity.
  - rewrite (handleSave_world refusing f w Hok).
    rewrite persist_refusing by reflexivity.
    cbn [App.emit App.localStorage App.effects]. split; [reflexivity|].
    rewrite <- !app_assoc. reflexivity.
Qed.

Lemma handleSave_store_refuses_witness :
  App.localStorage
    (App.handleSave (App.mkEnv "rec_2" "2024-03-02T08:00:00.000Z" "2024-03-02T08:00:00.001Z" true)
                    Examples.studyMath Examples.world1)
  = App.localStorage Examples.world1.
Proof.
  apply (handleSave_store_refuses "rec_2" "2024-03-02T08:00:00.000Z"
           "2024-03-02T08:00:00.001Z" Examples.studyMath Examples.world1).
  vm_compute. reflexivity.
Defined.

(** X8. [updateCapacity] takes whatever [parseFloat] reads from the
    text, also NaN for a text that is no number, and leaves the tasks
    alone; once the store has accepted the write, [load] returns the
    new state as it was written. *)
Theorem updateCapacity_is_not_validated :
  forall (env : App.Env) (val : string) (w : App.World),
    App.storeFull env = false ->
    let st' := App.appState (Window.updateCapacity env val w) in
    capacity (settings st') = parseFloat val
    /\ tasks st' = tasks (App.appState w)
    /\ (wellFormed (Encode.state st') = true ->
        Storage.load (App.localStorage (Window.updateCapacity env val w))
        = Some (asWritten (Encode.state st'))).
Proof.
  intros env val w Hfull st'. subst st'. unfold Window.updateCapacity.
  rewrite persist_accepting by exact Hfull.
  cbn [App.emit App.appState App.localStorage Window.withCapacity settings capacity tasks].
  split; [reflexivity|]. split; [reflexivity|]. intros H.
  rewrite <- stringify_asWritten. apply load_saved, asWritten_representable, H.
Qed.

Lemma updateCapacity_is_not_validated_witness :
  capacity (settings (App.appState (Window.updateCapacity Examples.env0 "a lot"
                                      Examples.world1)))
  = parseFloat "a lot".
Proof.
  apply (updateCapacity_is_not_validated Examples.env0 "a lot" Examples.world1).
  reflexivity.
Defined.

(** ** Deleting a record *)

Section Delete.
Import App.




End Delete.




(** ** The date rule *)

Section DateRule.
Import Regex Validators.

Lemma allChars_complete (c : ascii) : In c allChars.
Proof.
  unfold allChars. apply in_map_iff. exists (nat_of_ascii c).
  split; [apply ascii_nat_embedding|]. apply in_seq.
  pose proof (nat_ascii_bounded c). lia.
Qed.

Lemma for_all_pairs (P : ascii -> ascii -> bool) :
  forallb (fun a => forallb (P a) allChars) allChars = true ->
  forall a b, P a b = true.
Proof.
  intros H a b. rewrite forallb_forall in H.
  specialize (H a (allChars_complete a)). rewrite forallb_forall in H.
  exact (H b (allChars_complete b)).
Qed.

Lemma month_digits (m1 m2 : ascii) :
  ((code "0" =? code m1)%N && range "1" "9" m2
   || (code "1" =? code m1)%N && range "0" "2" m2)
  = twoDigits 1 12 m1 m2.
Proof.
  apply Bool.eqb_prop.
  apply (for_all_pairs
           (fun m1 m2 =>
              Bool.eqb ((code "0" =? code m1)%N && range "1" "9" m2
                        || (code "1" =? code m1)%N && range "0" "2" m2)
                       (twoDigits 1 12 m1 m2))).
  vm_compute. reflexivity.
Qed.

Lemma day_digits (d1 d2 : ascii) :
  ((code "0" =? code d1)%N && range "1" "9" d2
   || range "1" "2" d1 && isDigit d2
   || (code "3" =? code d1)%N && range "0" "1" d2)
  = twoDigits 1 31 d1 d2.
Proof.
  apply Bool.eqb_prop.
  apply (for_all_pairs
           (fun d1 d2 =>
              Bool.eqb ((code "0" =? code d1)%N && range "1" "9" d2
                        || range "1" "2" d1 && isDigit d2
                        || (code "3" =? code d1)%N && range "0" "1" d2)
                       (twoDigits 1 31 d1 d2))).
  vm_compute. reflexivity.
Qed.

Lemma hyphen (c : ascii) : (code "-" =? code c)%N = Ascii.eqb c "-".
Proof. destruct c as [[] [] [] [] [] [] [] []]; reflexivity. Qed.

Ltac split_ifs :=
  repeat match goal with
         | |- context [if ?c then _ else _] => destruct c eqn:?
         | |- context [match ?r with [] => _ | _ :: _ => _ end] => destruct r
         end.

(** The date pattern at a position: only at the start of the text, and
    then on exactly ten code units. *)
Lemma date_at (b : option ascii) (l : list ascii) :
  is_Some (m false (source patterns.date) (MState b l []) Some)
  <-> b = None /\ isDateText (ofChars l) = true.
Proof.
  unfold isDateText. rewrite chars_ofChars.
  destruct l as [|y1 [|y2 [|y3 [|y4 [|h1 [|m1 [|m2 [|h2 [|d1 [|d2 r]]]]]]]]]];
    cbn [m source patterns.date step rest caps prev Canonicalize negb inClass];
    try (destruct b; split_ifs;
         (split; [intros [z Hz]; discriminate Hz | intros [_ H]; discriminate H])).
  rewrite <- month_digits, <- day_digits, <- !hyphen. cbn [forallb].
  destruct b as [c|].
  { split; [intros [z Hz]; discriminate Hz | intros [H _]; discriminate H]. }
  destruct (isDigit y1), (isDigit y2), (isDigit y3), (isDigit y4),
    (code "-" =? code h1)%N, (code "-" =? code h2)%N;
    cbn [andb];
    try (split_ifs; (split; [intros [z Hz]; discriminate Hz | intros [_ H]; discriminate H])).
  destruct (code "0" =? code m1)%N, (range "1" "9" m2), (code "1" =? code m1)%N,
    (range "0" "2" m2), (code "0" =? code d1)%N, (range "1" "9" d2), (range "1" "2" d1),
    (isDigit d2), (code "3" =? code d1)%N, (range "0" "1" d2), r; cbn;
    (split; [intros [z Hz]; first [discriminate Hz | split; reflexivity]
            | intros [_ H]; first [discriminate H | eexists; reflexivity]]).
Qed.

Lemma lastOr_None (pre : list ascii) : lastOr None pre = None -> pre = [].
Proof.
  destruct pre as [|c pre]; [reflexivity|]. rewrite lastOr_cons.
  intros H. exfalso. revert c H. induction pre as [|d pre IH]; intros c H.
  - discriminate H.
  - rewrite lastOr_cons in H. exact (IH d H).
Qed.

Lemma date_spec (d : string) : test patterns.date d = isDateText d.
Proof.
  destruct (isDateText d) eqn:Hd.
  - unfold test. apply searchFrom_spec. exists [], (chars d). split; [reflexivity|].
    apply date_at. split; [reflexivity|]. rewrite <- Hd. f_equal.
    apply string_of_list_ascii_of_string.
  - destruct (test patterns.date d) eqn:Ht; [|reflexivity].
    unfold test in Ht. apply searchFrom_spec in Ht as (pre & post & Hl & Hm).
    apply date_at in Hm as [Hpre Hpost]. apply lastOr_None in Hpre. subst pre.
    cbn [app] in Hl. rewrite <- Hl in Hpost.
    unfold ofChars, chars in Hpost. rewrite string_of_list_ascii_of_string in Hpost.
    congruence.
Qed.

Lemma titleRule_keys (t : option string) (key : string) :
  String.eqb "title" key = false -> getProp key (titleRule t []) = None.
Proof.
  intros H. unfold titleRule.
  destruct t as [t|]; [destruct (isEmpty t || isEmpty (trim t));
    [|destruct (negb (test patterns.title t)); [|destruct (test patterns.duplicateWords t)]]|];
    cbn [setProp getProp]; rewrite ?H; reflexivity.
Qed.

Lemma dateError (data : Task) :
  getProp "date" (validateTask data)
  = if test patterns.date (date data) then None else Some msgDate.
Proof.
  unfold validateTask, cancelRule, dateRule, durationRule.
  assert (Hc : forall o, getProp "date"
             (if String.eqb (status data) "canceled"
              then if negb (JsString.truthy (cancelReason data))
                      || (String.length (trim (default "" (cancelReason data))) <? 5)%nat
                   then setProp "cancelReason" msgCancelReason o else o
              else o) = getProp "date" o).
  { intros o. destruct (String.eqb (status data) "canceled"); [|reflexivity].
    destruct (_ || _); [|reflexivity]. apply getProp_setProp_other. reflexivity. }
  rewrite Hc. destruct (test patterns.date (date data)); cbn [negb].
  - destruct (negb (test patterns.duration (toString (duration data)))).
    + rewrite getProp_setProp_other by reflexivity. apply titleRule_keys. reflexivity.
    + apply titleRule_keys. reflexivity.
  - apply getProp_setProp_same.
Qed.

End DateRule.

(** X11. The date rule: [validateTask] reports the date error exactly
    when the date is not a text of ten code units YYYY-MM-DD with four
    digits, a month from 01 to 12 and a day from 01 to 31.  The day is
    not checked against the month. *)
Theorem date_rule :
  forall data : Task,
    getProp "date" (Validators.validateTask data)
    = if isDateText (date data) then None else Some Validators.msgDate.
Proof. intros data. rewrite dateError, date_spec. reflexivity. Qed.

(** ** The title and cancellation rules, and the message shown *)

Section Rules.
Import Regex Validators.

Lemma cancelError (data : Task) :
  getProp "cancelReason" (validateTask data)
  = if String.eqb (status data) "canceled"
       && (String.length (trim (default "" (cancelReason data))) <? 5)%nat
    then Some msgCancelReason else None.
Proof.
  assert (Hbefore : getProp "cancelReason"
            (dateRule (date data)
               (durationRule (duration data)
                  (titleRule (JsString.orElse (name data) (title data)) []))) = None).
  { unfold dateRule, durationRule.
    destruct (negb (test patterns.date (date data)));
      destruct (negb (test patterns.duration (toString (duration data))));
      rewrite ?getProp_setProp_other by reflexivity; apply titleRule_keys; reflexivity. }
  unfold validateTask, cancelRule.
  destruct (String.eqb (status data) "canceled"); cbn [andb]; [|exact Hbefore].
  destruct (cancelReason data) as [[|c r]|]; cbn [JsString.truthy isEmpty negb orb default].
  - apply getProp_setProp_same.
  - destruct (_ <? _)%nat; [apply getProp_setProp_same | exact Hbefore].
  - apply getProp_setProp_same.
Qed.

(** The errors in the order of the rules, each rule adding at most
    one. *)
Lemma validateTask_in_order (data : Task) :
  validateTask data
  = titleRule (JsString.orElse (name data) (title data)) []
    ++ durationRule (duration data) []
    ++ dateRule (date data) []
    ++ cancelRule (status data) (cancelReason data) [].
Proof.
  unfold validateTask, cancelRule, dateRule, durationRule, titleRule.
  destruct (JsString.orElse (name data) (title data)) as [t|];
    [destruct (isEmpty t || isEmpty (trim t));
     [|destruct (negb (test patterns.title t));
       [|destruct (test patterns.duplicateWords t)]]|];
    destruct (negb (test patterns.duration (toString (duration data))));
    destruct (negb (test patterns.date (date data)));
    destruct (String.eqb (status data) "canceled");
    try destruct (negb (JsString.truthy (cancelReason data))
                  || (String.length (trim (default "" (cancelReason data))) <? 5)%nat);
    reflexivity.
Qed.

End Rules.

(** X12. The title is required: [validateTask] reports that error
    exactly when the candidate has neither a non-empty [name] nor a
    non-empty [title], or when the one it has holds white space only. *)
Theorem title_required_rule :
  forall data : Task,
    getProp "title" (Validators.validateTask data) = Some Validators.msgTitleRequired
    <-> match JsString.orElse (name data) (title data) with
        | Some t => forallb isSpace (chars t) = true
        | None => True
        end.
Proof.
  intros data. rewrite titleError_titleRule.
  destruct (JsString.orElse (name data) (title data)) as [t|]; [|split; reflexivity].
  rewrite titleRule_cases, trim_blank.
  destruct (forallb isSpace (chars t)); [split; reflexivity|].
  destruct (negb (Regex.test Validators.patterns.title t));
    [|destruct (Regex.test Validators.patterns.duplicateWords t)];
    split; discriminate.
Qed.

(** X13. The cancellation rule: the error is reported exactly when the
    status is canceled and the reason, trimmed, has fewer than five code
    units; a missing reason counts as the empty one, and a status other
    than canceled never needs a reason. *)
Theorem cancel_reason_rule :
  forall data : Task,
    getProp "cancelReason" (Validators.validateTask data)
    = if String.eqb (status data) "canceled"
         && (String.length (trim (default "" (cancelReason data))) <? 5)%nat
      then Some Validators.msgCancelReason else None.
Proof. intros data. apply cancelError. Qed.

(** X14. The handler shows one message only, that of the first rule
    that fails, in the order title, duration, date, cancellation
    reason. *)
Theorem handleSave_alerts_first_error :
  forall (env : App.Env) (f : App.Form) (w : App.World),
    let errors := Validators.validateTask (App.formData env f) in
    noErrors errors = false ->
    exists message,
      App.effects (App.handleSave env f w)
      = App.effects w ++ [App.PreventDefault; App.Alert message]
      /\ Some message
         = match getProp "title" errors, getProp "duration" errors, getProp "date" errors with
           | Some e, _, _ => Some e
           | None, Some e, _ => Some e
           | None, None, Some e => Some e
           | None, None, None => getProp "cancelReason" errors
           end.
Proof.
  intros env f w errors Hbad.
  destruct (handleSave_invalid env f w Hbad) as [message Hw].
  exists message. split; [rewrite Hw; reflexivity|].
  assert (Hfirst : exists k rest, errors = (k, message) :: rest).
  { revert Hw. unfold App.handleSave. fold errors.
    destruct errors as [|[k msg] rest]; [discriminate Hbad|].
    unfold App.emit. cbn. intros Hw. injection Hw as Hw.
    exists k, rest. repeat f_equal. rewrite <- app_assoc in Hw. cbn in Hw.
    apply app_inv_head in Hw. congruence. }
  destruct Hfirst as (k & rest & He). revert He. subst errors.
  rewrite (validateTask_in_order (App.formData env f)).
  unfold Validators.cancelRule, Validators.dateRule, Validators.durationRule,
    Validators.titleRule.
  destruct (JsString.orElse _ _) as [t|];
    [destruct (isEmpty t || isEmpty (trim t));
     [|destruct (negb (Regex.test Validators.patterns.title t));
       [|destruct (Regex.test Validators.patterns.duplicateWords t)]]|];
    destruct (negb (Regex.test Validators.patterns.duration _));
    destruct (negb (Regex.test Validators.patterns.date _));
    destruct (String.eqb _ "canceled");
    try destruct (negb (JsString.truthy _) || _);
    cbn; intros He; first [discriminate He | injection He as _ <- _; reflexivity].
Qed.

Lemma handleSave_alerts_first_error_witness :
  exists message,
    App.effects (App.handleSave Examples.env0 Examples.gymGym Examples.world1)
    = App.effects Examples.world1 ++ [App.PreventDefault; App.Alert message]
    /\ message = Validators.msgTitleDuplicate.
Proof.
  destruct (handleSave_alerts_first_error Examples.env0 Examples.gymGym Examples.world1)
    as (message & Hw & Hm); [vm_compute; reflexivity|].
  exists message. split; [exact Hw|].
  vm_compute in Hm. injection Hm as ->. reflexivity.
Defined.

(** ** Searching with a pattern object that is used again *)

Section Search.
Import SearchEngine.




End Search.


(** X16. [compileRegex] never hands a pattern of white space only to
    the RegExp constructor: it answers null for it; any other pattern is
    compiled with the flags [gi], or [g] for a case-sensitive search,
    and starts at index 0; a pattern the constructor refuses gives
    null. *)
Theorem compileRegex_cases :
  forall (RegExpNew : string -> string -> option SearchEngine.Matcher)
         (pattern : string) (caseInsensitive : bool),
    let flags := if caseInsensitive then "gi" else "g" in
    SearchEngine.compileRegex RegExpNew pattern caseInsensitive
    = Normal (if forallb isSpace (chars pattern) then None
              else option_map (fun mt => SearchEngine.mkRegExp mt flags 0)
                              (RegExpNew pattern flags)).
Proof.
  intros RegExpNew pattern ci flags. unfold SearchEngine.compileRegex.
  assert (Hb : isEmpty pattern || isEmpty (trim pattern) = forallb isSpace (chars pattern)).
  { destruct (isEmpty (trim pattern)) eqn:Ht.
    - rewrite orb_true_r. rewrite <- trim_blank. symmetry. exact Ht.
    - rewrite orb_false_r. destruct (isEmpty pattern) eqn:He.
      + apply trim_empty in He. congruence.
      + rewrite <- trim_blank. symmetry. exact Ht. }
  rewrite Hb. destruct (forallb isSpace (chars pattern)); [reflexivity|].
  unfold SearchEngine.newRegExp. subst flags.
  destruct ci; destruct (RegExpNew pattern _); reflexivity.
Qed.

(** ** Tasks the balance does not count *)

Section Counted.
Import Helpers BalanceSpec.
Variable cats : list Category.




End Counted.



(** ** The statistics view and the balance *)

Section Stats.
Import Helpers BalanceSpec.





End Stats.



(** ** The tables of the planner *)

Section PlannerTables.





End PlannerTables.



(** ** Turning the calendar *)



(** ** The dates of the calendar cells *)

Section CalendarDates.
Import Validators.

Lemma chars_app (s1 s2 : string) : chars (s1 ++ s2) = chars s1 ++ chars s2.
Proof.
  unfold chars. induction s1 as [|c s1 IH]; [reflexivity|].
  simpl. rewrite IH. reflexivity.
Qed.

Lemma toString_whole (z : Z) : 0 <= z < 2 ^ 53 -> chars (toString (ofZ z)) = decimal z.
Proof.
  intros Hz. unfold toString. rewrite chars_ofChars.
  destruct (Z.eq_dec z 0) as [->|]; [reflexivity|]. apply toChars_whole. lia.
Qed.

Lemma range_cases (P : Z -> Prop) (lo : Z) (n : nat) :
  Forall P (map (fun i => lo + Z.of_nat i) (seq 0 n)) ->
  forall z, lo <= z < lo + Z.of_nat n -> P z.
Proof.
  intros H z Hz. rewrite List.Forall_forall in H. apply H.
  apply in_map_iff. exists (Z.to_nat (z - lo)). split; [lia|].
  apply in_seq. lia.
Qed.

(** The two digits that [padStart] makes of a number from 1 to 31. *)
Lemma padded_digits (n : Z) :
  1 <= n <= 31 ->
  exists c1 c2, chars (padStart 2 "0" (toString (ofZ n))) = [c1; c2]
                /\ forall lo hi, twoDigits lo hi c1 c2 = (lo <=? n) && (n <=? hi).
Proof.
  intros Hn.
  apply (range_cases
           (fun n => exists c1 c2, chars (padStart 2 "0" (toString (ofZ n))) = [c1; c2]
                       /\ forall lo hi, twoDigits lo hi c1 c2 = (lo <=? n) && (n <=? hi))
           1 31); [|lia].
  cbn [seq map].
  repeat (apply List.Forall_cons;
          [eexists; eexists; split;
           [vm_compute; reflexivity | intros lo hi; vm_compute; reflexivity]|]).
  apply List.Forall_nil.
Qed.

Lemma isDateText_length (s : string) : isDateText s = true -> length (chars s) = 10%nat.
Proof.
  unfold isDateText.
  destruct (chars s) as [|y1 [|y2 [|y3 [|y4 [|h1 [|m1 [|m2 [|h2 [|d1 [|d2 [|x r]]]]]]]]]]];
    try discriminate. reflexivity.
Qed.

Lemma numDigits_four (y : Z) :
  0 <= y -> (numDigits y =? 4) = (1000 <=? y) && (y <=? 9999).
Proof.
  intros Hy. destruct (Z.eq_dec y 0) as [->|Hne]; [reflexivity|].
  destruct (numDigits_spec y ltac:(lia)) as [H1 H2].
  destruct (Z.eqb_spec (numDigits y) 4) as [E|E].
  - rewrite E in H2. change (10 ^ (4 - 1)) with 1000 in H2. change (10 ^ 4) with 10000 in H2.
    symmetry. apply andb_true_iff. split; apply Z.leb_le; lia.
  - symmetry. apply andb_false_iff.
    destruct (Z_lt_le_dec (numDigits y) 4) as [Hlt|Hge].
    + left. apply Z.leb_gt.
      assert (10 ^ numDigits y <= 10 ^ 3) by (apply Z.pow_le_mono_r; lia).
      change (10 ^ 3) with 1000 in *. lia.
    + right. apply Z.leb_gt.
      assert (10 ^ 4 <= 10 ^ (numDigits y - 1)) by (apply Z.pow_le_mono_r; lia).
      change (10 ^ 4) with 10000 in *. lia.
Qed.

Lemma dateStr_chars (v : ViewDate) (d : Z) :
  0 <= year v < 2 ^ 53 -> 0 <= month v <= 11 -> 1 <= d <= 31 ->
  exists m1 m2 d1 d2,
    chars (UI.dateStr v d) = decimal (year v) ++ "-"%char :: m1 :: m2 :: "-"%char :: [d1; d2]
    /\ twoDigits 1 12 m1 m2 = true /\ twoDigits 1 31 d1 d2 = true.
Proof.
  intros Hy Hm Hd. unfold UI.dateStr.
  destruct (padded_digits (month v + 1) ltac:(lia)) as (m1 & m2 & Em & Hm12).
  destruct (padded_digits d Hd) as (d1 & d2 & Ed & Hd12).
  exists m1, m2, d1, d2. rewrite !chars_app, Em, Ed, (toString_whole _ Hy).
  split; [reflexivity|]. rewrite Hm12, Hd12.
  split; apply andb_true_iff; split; apply Z.leb_le; lia.
Qed.

End CalendarDates.

(** X21. The calendar asks for the tasks of a day under the date text
    it builds from the view date.  For a month from 0 to 11 and a day
    from 1 to 31 that text is one the date rule accepts exactly when
    the year has four digits, so that in a year before 1000 or after
    9999 the cells show no task with a valid date. *)
Theorem calendar_dates_pass_the_date_rule :
  forall (st : State) (d : Z),
    0 <= year (viewDate st) < 2 ^ 53 -> 0 <= month (viewDate st) <= 11 -> 1 <= d <= 31 ->
    let fourDigits := (1000 <=? year (viewDate st)) && (year (viewDate st) <=? 9999) in
    Regex.test Validators.patterns.date (UI.dateStr (viewDate st) d) = fourDigits
    /\ (forall t, In t (UI.cellTasks st d) ->
                  Regex.test Validators.patterns.date (date t) = fourDigits).
Proof.
  intros st d Hy Hm Hd fourDigits.
  assert (Hcell : Regex.test Validators.patterns.date (UI.dateStr (viewDate st) d) = fourDigits).
  { subst fourDigits. rewrite date_spec, <- numDigits_four by lia.
    destruct (dateStr_chars (viewDate st) d Hy Hm Hd) as (m1 & m2 & d1 & d2 & Hc & Hm12 & Hd12).
    pose proof (digits_length (Z.to_nat (numDigits (year (viewDate st)))) (year (viewDate st)))
      as Hlen.
    pose proof (digits_isDigit (Z.to_nat (numDigits (year (viewDate st)))) (year (viewDate st)))
      as Hdig.
    pose proof (numDigits_nonneg (year (viewDate st))) as Hpos.
    fold (decimal (year (viewDate st))) in Hlen, Hdig.
    destruct (Z.eqb_spec (numDigits (year (viewDate st))) 4) as [E|E].
    - rewrite E in Hlen. unfold isDateText. rewrite Hc.
      destruct (decimal (year (viewDate st))) as [|y1 [|y2 [|y3 [|y4 [|y5 r]]]]];
        try discriminate Hlen.
      cbn [app]. rewrite Hdig, Hm12, Hd12. reflexivity.
    - destruct (isDateText (UI.dateStr (viewDate st) d)) eqn:Ht; [exfalso | reflexivity].
      apply isDateText_length in Ht. rewrite Hc, length_app, Hlen in Ht.
      cbn [length] in Ht. lia. }
  split; [exact Hcell|].
  intros t Ht. unfold UI.cellTasks in Ht. apply List.filter_In in Ht as [_ Ht].
  apply String.eqb_eq in Ht. rewrite Ht. exact Hcell.
Qed.

Lemma calendar_dates_pass_the_date_rule_witness :
  Regex.test Validators.patterns.date (UI.dateStr (viewDate (InitialState 2 2024)) 1)
  = (1000 <=? 2024) && (2024 <=? 9999).
Proof.
  destruct (calendar_dates_pass_the_date_rule (InitialState 2 2024) 1) as [Hcell _];
    [cbn [InitialState viewDate year]; lia | cbn [InitialState viewDate month]; lia | lia |].
  exact Hcell.
Defined.

(** ** The formats of the helpers *)

Section Formats.
Import Helpers.

Lemma ofChars_chars (s : string) : ofChars (chars s) = s.
Proof. apply string_of_list_ascii_of_string. Qed.

Lemma splitChars_field (sep : ascii) (l : list ascii) :
  forall field : list ascii,
    forallb (fun c => negb (Ascii.eqb c sep)) l = true ->
    splitChars sep field l = [rev field ++ l].
Proof.
  induction l as [|c l IH]; intros field H.
  - cbn. rewrite app_nil_r. reflexivity.
  - cbn [forallb] in H. apply andb_true_iff in H as [Hc Hl]. apply negb_true_iff in Hc.
    cbn [splitChars]. rewrite Hc, (IH (c :: field) Hl). cbn [rev].
    rewrite <- app_assoc. reflexivity.
Qed.

Lemma splitChars_first (sep : ascii) (l1 l2 : list ascii) :
  forall field : list ascii,
    forallb (fun c => negb (Ascii.eqb c sep)) l1 = true ->
    splitChars sep field (l1 ++ sep :: l2) = (rev field ++ l1) :: splitChars sep [] l2.
Proof.
  induction l1 as [|c l1 IH]; intros field H.
  - cbn [app splitChars]. rewrite Ascii.eqb_refl, app_nil_r. reflexivity.
  - cbn [forallb] in H. apply andb_true_iff in H as [Hc Hl]. apply negb_true_iff in Hc.
    cbn [app splitChars]. rewrite Hc, (IH (c :: field) Hl). cbn [rev].
    rewrite <- app_assoc. reflexivity.
Qed.

(** The two fields of a time text with one colon. *)
Lemma split_time (hours minutes : string) :
  noColon hours = true -> noColon minutes = true ->
  split ":" (hours ++ ":" ++ minutes) = [hours; minutes].
Proof.
  intros Hh Hm. unfold split. rewrite chars_app. change (chars (":" ++ minutes))
    with (":"%char :: chars minutes).
  rewrite (splitChars_first ":" _ _ [] Hh), (splitChars_field ":" _ [] Hm).
  cbn [rev app map]. rewrite !ofChars_chars. reflexivity.
Qed.

End Formats.

(** X22. [formatDuration] on a whole number of quarter hours, up to a
    day: the hours are written with [h] and the minutes, 15, 30 or 45,
    with [m]; whole hours are written without minutes, and less than an
    hour without hours, so that zero is written 0m. *)
Theorem formatDuration_quarter_hours :
  forall j : Z,
    0 <= j <= 96 -> Helpers.formatDuration (quarters j) = quarterHoursText j.
Proof.
  intros j Hj.
  apply (range_cases (fun j => Helpers.formatDuration (quarters j) = quarterHoursText j) 0 97);
    [|lia].
  cbn [seq map].
  repeat (apply List.Forall_cons; [vm_compute; reflexivity|]).
  apply List.Forall_nil.
Qed.

Lemma formatDuration_quarter_hours_witness :
  Helpers.formatDuration (quarters 5) = quarterHoursText 5.
Proof. apply (formatDuration_quarter_hours 5). lia. Defined.

(** X23. [formatTimeWithZone] on a time of the day, two digits of an
    hour from 00 to 23, a colon and the minutes: the hour is written on
    the twelve-hour clock, midnight and noon as 12, followed by the
    minutes as they are, by AM before noon and PM from noon on, and by
    the name of the time zone.  The empty text gives two dashes around a
    colon. *)
Theorem formatTimeWithZone_twelve_hour_clock :
  forall (tzName minutes : string) (h : Z),
    0 <= h <= 23 -> noColon minutes = true ->
    Helpers.formatTimeWithZone tzName (hourField h ++ ":" ++ minutes)
    = (ofChars (decimal (clockHour h)) ++ ":" ++ minutes ++ " "
         ++ (if (h <? 12)%Z then "AM" else "PM") ++ " (" ++ tzName ++ ")")%string
    /\ Helpers.formatTimeWithZone tzName "" = "--:--".
Proof.
  intros tz minutes h Hh Hm. split; [|reflexivity].
  revert minutes Hm.
  apply (range_cases
           (fun h => forall minutes, noColon minutes = true ->
              Helpers.formatTimeWithZone tz (hourField h ++ ":" ++ minutes)
              = (ofChars (decimal (clockHour h)) ++ ":" ++ minutes ++ " "
                   ++ (if (h <? 12)%Z then "AM" else "PM") ++ " (" ++ tz ++ ")")%string)
           0 24); [|lia].
  cbn [seq map].
  repeat (apply List.Forall_cons;
          [intros minutes Hm; unfold Helpers.formatTimeWithZone;
           rewrite split_time by (reflexivity || exact Hm);
           vm_compute; reflexivity|]).
  apply List.Forall_nil.
Qed.

Lemma formatTimeWithZone_twelve_hour_clock_witness :
  Helpers.formatTimeWithZone "CAT" (hourField 13 ++ ":" ++ "45") = "1:45 PM (CAT)".
Proof.
  apply (formatTimeWithZone_twelve_hour_clock "CAT" "45" 13); [lia | reflexivity].
Defined.
